(** * talk/base/physicalsocketserver.cc

    A shallow embedding of libjingle's physical socket server: the
    non-blocking socket wrapper [PhysicalSocket], the dispatcher registry of
    [PhysicalSocketServer] with its live iteration cursors, the POSIX and
    WIN32 [SocketDispatcher]s, the self-pipe [EventDispatcher] and the event
    classification of the POSIX [Wait] loop.

    Operating-system calls are oracles: the value a call returns (and the
    [errno] it leaves) is an argument of the function that makes the call.
    Signal emission is recorded in a trace, and the handlers connected to a
    signal are arbitrary functions on the emitting object. *)

From Stdlib Require Import ZArith List Bool Lia Sorted.
Import ListNotations.

Local Open Scope Z_scope.

(** ** Declarations taken from headers

    The translation unit includes talk/base/socket.h,
    talk/base/physicalsocketserver.h, talk/base/socketaddress.h,
    talk/base/winping.h and the system headers.  The constants, predicates and
    types it takes from them are the fields of [Headers]; what the code relies
    on about them is [HeadersOk]. *)

Class Headers : Type := {
  (* enum DispatcherEvent *)
  DE_READ : Z;
  DE_WRITE : Z;
  DE_CONNECT : Z;
  DE_CLOSE : Z;
  DE_ACCEPT : Z;
  (* socket API *)
  INVALID_SOCKET : Z;
  SOCKET_ERROR : Z;
  SOCK_STREAM : Z;
  SOCK_DGRAM : Z;
  (* errno values *)
  EWOULDBLOCK : Z;
  EALREADY : Z;
  ENOTCONN : Z;
  EINVAL : Z;
  EBADF : Z;
  ECONNRESET : Z;
  IsBlockingError : Z -> bool;
  (* the macro VERIFY of talk/base/common.h, as a function of the value of
     its argument *)
  VERIFY : bool -> bool;
  (* class SocketAddress *)
  SocketAddress : Type;
  IsUnresolved : SocketAddress -> bool;
  IsAny : SocketAddress -> bool;
  ip : SocketAddress -> Z
}.

Class HeadersOk (H : Headers) : Prop := {
  DE_READ_range : 0 < DE_READ < 256;
  DE_WRITE_range : 0 < DE_WRITE < 256;
  DE_CONNECT_range : 0 < DE_CONNECT < 256;
  DE_CLOSE_range : 0 < DE_CLOSE < 256;
  DE_ACCEPT_range : 0 < DE_ACCEPT < 256;
  DE_READ_WRITE : Z.land DE_READ DE_WRITE = 0;
  DE_READ_CONNECT : Z.land DE_READ DE_CONNECT = 0;
  DE_READ_CLOSE : Z.land DE_READ DE_CLOSE = 0;
  DE_READ_ACCEPT : Z.land DE_READ DE_ACCEPT = 0;
  DE_WRITE_CONNECT : Z.land DE_WRITE DE_CONNECT = 0;
  DE_WRITE_CLOSE : Z.land DE_WRITE DE_CLOSE = 0;
  DE_WRITE_ACCEPT : Z.land DE_WRITE DE_ACCEPT = 0;
  DE_CONNECT_CLOSE : Z.land DE_CONNECT DE_CLOSE = 0;
  DE_CONNECT_ACCEPT : Z.land DE_CONNECT DE_ACCEPT = 0;
  DE_CLOSE_ACCEPT : Z.land DE_CLOSE DE_ACCEPT = 0;
  SOCKET_ERROR_neg : SOCKET_ERROR < 0;
  SOCK_STREAM_DGRAM : SOCK_STREAM <> SOCK_DGRAM;
  (* VERIFY(x) has the value of x *)
  VERIFY_value : forall x, VERIFY x = x
}.

(** The values of a Linux build.  A [SocketAddress] is cut down to what the
    code asks of it: whether it is unresolved, and its IP, zero for the
    "any" address. *)
Definition linux_headers : Headers := {|
  DE_READ := 1;
  DE_WRITE := 2;
  DE_CONNECT := 4;
  DE_CLOSE := 8;
  DE_ACCEPT := 16;
  INVALID_SOCKET := -1;
  SOCKET_ERROR := -1;
  SOCK_STREAM := 1;
  SOCK_DGRAM := 2;
  EWOULDBLOCK := 11;
  EALREADY := 114;
  ENOTCONN := 107;
  EINVAL := 22;
  EBADF := 9;
  ECONNRESET := 104;
  IsBlockingError := fun e => (e =? 11) || (e =? 115);
  VERIFY := fun x => x;
  SocketAddress := (bool * Z)%type;
  IsUnresolved := fun a => fst a;
  IsAny := fun a => snd a =? 0;
  ip := fun a => snd a
|}.

(** ** Event masks

    [enabled_events_] is a [uint8]; the masks handed to the dispatchers are
    [uint32].  The tests are the code's [(ff & DE_X) != 0]. *)

Definition uint8 (x : Z) : Z := x mod 2 ^ 8.

Definition has_event (ff de : Z) : bool := negb (Z.land ff de =? 0).

(* enabled_events_ |= de *)
Definition enable_event (de ff : Z) : Z := uint8 (Z.lor ff de).

(* enabled_events_ &= ~de *)
Definition disable_event (de ff : Z) : Z := uint8 (Z.land ff (Z.lnot de)).

(** ** Signals

    An emission records the branch of [OnEvent] that made it, the signal
    and the value of [enabled_events_] at the moment the signal is emitted,
    before any connected slot runs.  The slots connected to the four signals
    are arbitrary: they change the emitting object [O] and the state [A] of
    the application. *)

Inductive Signal : Type :=
| SignalReadEvent | SignalWriteEvent | SignalConnectEvent
| SignalCloseEvent (err : Z).

Inductive Branch : Type :=
| on_DE_READ | on_DE_WRITE | on_DE_CONNECT | on_DE_ACCEPT | on_DE_CLOSE.

Record Emission : Type := {
  branch : Branch;
  signal : Signal;
  enabled_at_emission : Z
}.

Record Handlers (A O : Type) : Type := {
  read_slot : A -> O -> A * O;
  write_slot : A -> O -> A * O;
  connect_slot : A -> O -> A * O;
  close_slot : Z -> A -> O -> A * O
}.
Arguments read_slot {A O} _ _ _.
Arguments write_slot {A O} _ _ _.
Arguments connect_slot {A O} _ _ _.
Arguments close_slot {A O} _ _ _ _.

(* The position of a branch in the text of [OnEvent]. *)
Definition branch_rank (b : Branch) : nat :=
  match b with
  | on_DE_READ => 0
  | on_DE_WRITE => 1
  | on_DE_CONNECT => 2
  | on_DE_ACCEPT => 3
  | on_DE_CLOSE => 4
  end%nat.

(** ** PhysicalSocket *)

(** Modelled from the spec: the enumeration [ConnState] is declared in
    talk/base/socket.h, which is not part of the sources at hand; the spec
    gives it the three states CLOSED, CONNECTING and CONNECTED. *)
Inductive ConnState : Type := CS_CLOSED | CS_CONNECTING | CS_CONNECTED.

Definition ConnState_eqb (a b : ConnState) : bool :=
  match a, b with
  | CS_CLOSED, CS_CLOSED => true
  | CS_CONNECTING, CS_CONNECTING => true
  | CS_CONNECTED, CS_CONNECTED => true
  | _, _ => false
  end.

(* The member function a resolver's SignalWorkDone is connected to. *)
Inductive Slot : Type := OnResolveResult_slot.

Module PhysicalSocket.
Section WithHeaders.
Context {H : Headers}.

(** Modelled from the spec: the class [AsyncResolver] is declared in
    talk/base/nethelpers.h, which is not part of the sources at hand; the
    spec gives it [set_address], [start] and a completion notification.  The
    record keeps what [Connect] does with the resolver it creates: the
    address set, the slot connected to [SignalWorkDone], and whether it was
    started. *)
Record AsyncResolver : Type := {
  address : SocketAddress;
  SignalWorkDone : option Slot;
  started : bool
}.

Record t : Type := {
  s_ : Z;
  enabled_events_ : Z;
  udp_ : bool;
  error_ : Z;
  state_ : ConnState;
  resolver_ : option AsyncResolver
}.

Definition set_s (v : Z) (k : t) : t :=
  {| s_ := v; enabled_events_ := enabled_events_ k; udp_ := udp_ k;
     error_ := error_ k; state_ := state_ k; resolver_ := resolver_ k |}.

Definition set_enabled_events (v : Z) (k : t) : t :=
  {| s_ := s_ k; enabled_events_ := v; udp_ := udp_ k;
     error_ := error_ k; state_ := state_ k; resolver_ := resolver_ k |}.

Definition set_udp (v : bool) (k : t) : t :=
  {| s_ := s_ k; enabled_events_ := enabled_events_ k; udp_ := v;
     error_ := error_ k; state_ := state_ k; resolver_ := resolver_ k |}.

Definition set_error (v : Z) (k : t) : t :=
  {| s_ := s_ k; enabled_events_ := enabled_events_ k; udp_ := udp_ k;
     error_ := v; state_ := state_ k; resolver_ := resolver_ k |}.

Definition set_state (v : ConnState) (k : t) : t :=
  {| s_ := s_ k; enabled_events_ := enabled_events_ k; udp_ := udp_ k;
     error_ := error_ k; state_ := v; resolver_ := resolver_ k |}.

Definition set_resolver (v : option AsyncResolver) (k : t) : t :=
  {| s_ := s_ k; enabled_events_ := enabled_events_ k; udp_ := udp_ k;
     error_ := error_ k; state_ := state_ k; resolver_ := v |}.

(* error_ = LAST_SYSTEM_ERROR *)
Definition UpdateLastError (last_system_error : Z) (k : t) : t :=
  set_error last_system_error k.

Definition SetError (error : Z) (k : t) : t := set_error error k.

(** The constructor.  [udp_] is not initialised when no handle is given:
    [udp0] is the indeterminate value it then holds.  With a handle,
    [so_type] is what [getsockopt(SO_TYPE)] stores in [type]. *)
Definition new (s : Z) (so_type : Z) (udp0 : bool) : t :=
  let k := {| s_ := s; enabled_events_ := 0; udp_ := udp0; error_ := 0;
              state_ := if s =? INVALID_SOCKET then CS_CLOSED
                        else CS_CONNECTED;
              resolver_ := None |} in
  if negb (s_ k =? INVALID_SOCKET) then
    set_udp (SOCK_DGRAM =? so_type)
      (set_enabled_events (uint8 (Z.lor DE_READ DE_WRITE)) k)
  else k.

(** [Close]: [closesocket_ret] and [closesocket_errno] are the result of
    [::closesocket] and the error it leaves. *)
Definition Close (closesocket_ret closesocket_errno : Z) (k : t) : Z * t :=
  if s_ k =? INVALID_SOCKET then (0, k)
  else
    let err := closesocket_ret in
    let k := UpdateLastError closesocket_errno k in
    let k := set_s INVALID_SOCKET k in
    let k := set_state CS_CLOSED k in
    let k := set_enabled_events 0 k in
    let k := match resolver_ k with
             | Some _ => set_resolver None k   (* Destroy(false) *)
             | None => k
             end in
    (err, k).

(** The operating system's answers to one call of [Create]: to the
    [closesocket] of the implicit [Close] and to [::socket]. *)
Record CreateOS : Type := {
  closesocket_ret : Z;
  closesocket_errno : Z;
  socket_ret : Z;
  socket_errno : Z
}.

(* The body of [Create] after its call of the virtual [Close]. *)
Definition Create_socket (os : CreateOS) (type : Z) (k : t) : bool * t :=
  let k := set_s (socket_ret os) k in
  let k := set_udp (SOCK_DGRAM =? type) k in
  let k := UpdateLastError (socket_errno os) k in
  let k := if udp_ k
           then set_enabled_events (uint8 (Z.lor DE_READ DE_WRITE)) k
           else k in
  (negb (s_ k =? INVALID_SOCKET), k).

Definition Create (os : CreateOS) (type : Z) (k : t) : bool * t :=
  let k := snd (Close (closesocket_ret os) (closesocket_errno os) k) in
  Create_socket os type k.

(** [DoConnect]: [connect_ret] and [connect_errno] come from [::connect]. *)
Definition DoConnect (connect_ret connect_errno : Z) (k : t) : Z * t :=
  let err := connect_ret in
  let k := UpdateLastError connect_errno k in
  if err =? 0 then
    let k := set_state CS_CONNECTED k in
    (0, set_enabled_events
          (enable_event (Z.lor DE_READ DE_WRITE) (enabled_events_ k)) k)
  else if IsBlockingError (error_ k) then
    let k := set_state CS_CONNECTING k in
    let k := set_enabled_events
               (enable_event DE_CONNECT (enabled_events_ k)) k in
    (0, set_enabled_events
          (enable_event (Z.lor DE_READ DE_WRITE) (enabled_events_ k)) k)
  else (SOCKET_ERROR, k).

(** [Connect]: [os] answers the implicit [Create], [connect_ret] and
    [connect_errno] the [::connect] of [DoConnect]. *)
Definition Connect (os : CreateOS) (connect_ret connect_errno : Z)
    (addr : SocketAddress) (k : t) : Z * t :=
  let '(created, k) :=
    if s_ k =? INVALID_SOCKET then Create os SOCK_STREAM k
    else (true, k) in
  if negb created then (SOCKET_ERROR, k)
  else if IsUnresolved addr then
    if negb (ConnState_eqb (state_ k) CS_CLOSED) then
      (SOCKET_ERROR, SetError EALREADY k)
    else
      let r := {| address := addr;
                  SignalWorkDone := Some OnResolveResult_slot;
                  started := true |} in
      let k := set_resolver (Some r) k in
      let k := set_state CS_CONNECTING k in
      (0, k)
  else DoConnect connect_ret connect_errno k.

(** [Recv]: [received] is the result of [::recv], [recv_errno] the error
    it leaves, [length] the capacity of the buffer. *)
Definition Recv (received recv_errno : Z) (length : Z) (k : t) : Z * t :=
  if (received =? 0) && negb (length =? 0) then
    let k := set_enabled_events
               (enable_event DE_READ (enabled_events_ k)) k in
    let k := set_error EWOULDBLOCK k in
    (SOCKET_ERROR, k)
  else
    let k := UpdateLastError recv_errno k in
    let success := (0 <=? received) || IsBlockingError (error_ k) in
    let k := if udp_ k || success
             then set_enabled_events
                    (enable_event DE_READ (enabled_events_ k)) k
             else k in
    (received, k).

(** *** EstimateMTU, WIN32 branch *)

(* Standard MTUs, from RFC 1191; the last entry is the end of list
   marker. *)
Definition PACKET_MAXIMUMS : list Z :=
  [65535; 32000; 17914; 8166; 4352; 2002; 1492; 1006; 508; 296; 68; 0].

Definition IP_HEADER_SIZE : Z := 20.
Definition ICMP_HEADER_SIZE : Z := 8.

Definition uint32 (x : Z) : Z := x mod 2 ^ 32.
Definition int32 (x : Z) : Z :=
  let u := x mod 2 ^ 32 in if u <? 2 ^ 31 then u else u - 2 ^ 32.

(* WinPing::PingResult, declared in talk/base/winping.h: the two results
   the code names, and any other result. *)
Inductive PingResult : Type :=
| PING_FAIL
| PING_TOO_LARGE
| PING_other (result : Z).

(* Ping(ip, data_size, timeout, ttl, allow_fragments) *)
Record WinPing : Type := {
  IsValid : bool;
  Ping : Z -> Z -> Z -> Z -> bool -> PingResult
}.

(** What a call of [EstimateMTU] leaves behind: the value returned, the
    value stored through [mtu] if any, the socket, the payload sizes
    pinged in order, and whether the [ASSERT(false)] after the loop was
    reached. *)
Record MTUResult : Type := {
  mtu_ret : Z;
  mtu_out : option Z;
  mtu_sock : t;
  mtu_probes : list Z;
  mtu_assert_false : bool
}.

(* PACKET_MAXIMUMS[i] *)
Definition packet_maximum (i : nat) : Z := nth i PACKET_MAXIMUMS 0.

(** The [for] loop; [None] when the fuel runs out. *)
Fixpoint EstimateMTU_loop (fuel : nat) (ping : WinPing)
    (addr : SocketAddress) (level : nat) (probes : list Z) (k : t)
    : option MTUResult :=
  match fuel with
  | O => None
  | S fuel =>
    if 0 <? packet_maximum (level + 1) then
      let size :=
        int32 (uint32 (uint32 (packet_maximum level - IP_HEADER_SIZE)
                       - ICMP_HEADER_SIZE)) in
      let result := Ping ping (ip addr) size 0 1 false in
      let probes := probes ++ [size] in
      match result with
      | PING_FAIL =>
        Some {| mtu_ret := -1; mtu_out := None;
                mtu_sock := set_error EINVAL k;
                mtu_probes := probes; mtu_assert_false := false |}
      | PING_TOO_LARGE =>
        EstimateMTU_loop fuel ping addr (level + 1) probes k
      | _ =>
        Some {| mtu_ret := 0; mtu_out := Some (packet_maximum level);
                mtu_sock := k;
                mtu_probes := probes; mtu_assert_false := false |}
      end
    else
      Some {| mtu_ret := -1; mtu_out := None; mtu_sock := k;
              mtu_probes := probes; mtu_assert_false := true |}
  end.

(** [addr] is what [GetRemoteAddress] returns, [ping] the [WinPing]
    object the call constructs. *)
Definition EstimateMTU (addr : SocketAddress) (ping : WinPing) (k : t)
    : option MTUResult :=
  if IsAny addr then
    Some {| mtu_ret := -1; mtu_out := None;
            mtu_sock := set_error ENOTCONN k;
            mtu_probes := []; mtu_assert_false := false |}
  else if negb (IsValid ping) then
    Some {| mtu_ret := -1; mtu_out := None;
            mtu_sock := set_error EINVAL k;
            mtu_probes := []; mtu_assert_false := false |}
  else EstimateMTU_loop (List.length PACKET_MAXIMUMS) ping addr 0 [] k.

End WithHeaders.
End PhysicalSocket.

(** ** PhysicalSocketServer: the dispatcher registry

    A dispatcher is known to the server by its address.  [iterators_] holds
    pointers to the [size_t] cursors of the loops scanning [dispatchers_];
    the model keeps the cursors themselves in the list, so that what
    [Remove] writes through the pointers is what the loops read back. *)

Module PhysicalSocketServer.

Definition Dispatcher : Type := nat.

Record t : Type := {
  dispatchers_ : list Dispatcher;
  iterators_ : list nat
}.

(* std::find: the position of the first occurrence, size() for end() *)
Fixpoint find (d : Dispatcher) (l : list Dispatcher) : nat :=
  match l with
  | [] => O
  | x :: r => if Nat.eqb x d then O else S (find d r)
  end.

(* vector::erase at a position *)
Definition erase (pos : nat) (l : list Dispatcher) : list Dispatcher :=
  firstn pos l ++ skipn (S pos) l.

Definition Add (pdispatcher : Dispatcher) (ss : t) : t :=
  let pos := find pdispatcher (dispatchers_ ss) in
  if negb (Nat.eqb pos (List.length (dispatchers_ ss))) then ss
  else {| dispatchers_ := dispatchers_ ss ++ [pdispatcher];
          iterators_ := iterators_ ss |}.

(** [Remove]; [None] when [ASSERT(pos != dispatchers_.end())] fails. *)
Definition Remove (pdispatcher : Dispatcher) (ss : t) : option t :=
  let pos := find pdispatcher (dispatchers_ ss) in
  if Nat.eqb pos (List.length (dispatchers_ ss)) then None
  else
    let index := pos in
    Some {| dispatchers_ := erase pos (dispatchers_ ss);
            iterators_ :=
              map (fun it => if Nat.ltb index it then Nat.pred it else it)
                  (iterators_ ss) |}.

Definition push_iterator (c : nat) (ss : t) : t :=
  {| dispatchers_ := dispatchers_ ss; iterators_ := iterators_ ss ++ [c] |}.

Definition pop_iterator (ss : t) : t :=
  {| dispatchers_ := dispatchers_ ss;
     iterators_ := removelast (iterators_ ss) |}.

(* the cursor the [p]-th entry of [iterators_] points to *)
Definition cursor (p : nat) (ss : t) : nat := nth p (iterators_ ss) O.

Fixpoint set_nth (p : nat) (v : nat) (l : list nat) : list nat :=
  match l, p with
  | [], _ => []
  | _ :: r, O => v :: r
  | x :: r, S p => x :: set_nth p v r
  end.

Definition set_cursor (p : nat) (v : nat) (ss : t) : t :=
  {| dispatchers_ := dispatchers_ ss;
     iterators_ := set_nth p v (iterators_ ss) |}.

End PhysicalSocketServer.

(** ** POSIX dispatchers and the POSIX [Wait] *)

Module Posix.

(** *** EventDispatcher: the wake-up self-pipe *)

Module EventDispatcher.
Section WithHeaders.
Context {H : Headers}.

(* The kernel's side of [afd_]: the bytes written and not yet read, and
   the number of bytes ever written. *)
Record Pipe : Type := {
  pending : list Z;
  written : nat
}.

(* write(afd_[1], b, 1) returning [ret]: the byte is in the pipe exactly
   when the call reports one byte written. *)
Definition pipe_write (ret : Z) (b : Z) (p : Pipe) : Pipe :=
  if ret =? 1
  then {| pending := pending p ++ [b]; written := S (written p) |}
  else p.

(* read(afd_[0], b, n): takes up to [n] pending bytes and returns their
   number.  (On an empty pipe the call would block; [OnPreEvent] reads
   only when [fSignaled_] is set.) *)
Definition pipe_read (n : nat) (p : Pipe) : Z * Pipe :=
  (Z.of_nat (List.length (firstn n (pending p))),
   {| pending := skipn n (pending p); written := written p |}).

Record t : Type := {
  fSignaled_ : bool;
  afd_ : Pipe
}.

(* EventDispatcher(ss): a fresh pipe, fSignaled_(false) *)
Definition new : t :=
  {| fSignaled_ := false; afd_ := {| pending := []; written := O |} |}.

(** [Signal]; [write_ret] is what [write] returns if it is called. *)
Definition Signal (write_ret : Z) (e : t) : t :=
  if negb (fSignaled_ e) then
    let b := 0 in
    let pipe := pipe_write write_ret b (afd_ e) in
    if VERIFY (1 =? write_ret)
    then {| fSignaled_ := true; afd_ := pipe |}
    else {| fSignaled_ := fSignaled_ e; afd_ := pipe |}
  else e.

Definition OnPreEvent (ff : Z) (e : t) : t :=
  if fSignaled_ e then
    let '(n, pipe) := pipe_read 4 (afd_ e) in
    let _ := VERIFY (1 =? n) in
    {| fSignaled_ := false; afd_ := pipe |}
  else e.

(* a run of Signal() calls with nothing in between *)
Definition Signals (write_rets : list Z) (e : t) : t :=
  fold_left (fun e r => Signal r e) write_rets e.

(* at most one byte is pending, and it is pending exactly when the flag
   is set *)
Definition at_most_one_pending (e : t) : Prop :=
  if fSignaled_ e then List.length (pending (afd_ e)) = 1%nat
  else pending (afd_ e) = [].

End WithHeaders.
End EventDispatcher.

(** *** SocketDispatcher *)

Module SocketDispatcher.
Section WithHeaders.
Context {H : Headers}.

Import PhysicalSocket.

(** [IsDescriptorClosed]: [res] is the result of the one-byte
    [recv(MSG_PEEK)] and [errno] the error it leaves. *)
Definition IsDescriptorClosed (res errno : Z) : bool :=
  if 0 <? res then false
  else if res =? 0 then true
  else if errno =? EBADF then true
  else if errno =? ECONNRESET then true
  else false.

Definition GetRequestedEvents (k : t) : Z := enabled_events_ k.

Definition GetDescriptor (k : t) : Z := s_ k.

Definition OnPreEvent (ff : Z) (k : t) : t :=
  let k := if has_event ff DE_CONNECT then set_state CS_CONNECTED k else k in
  if has_event ff DE_CLOSE then set_state CS_CLOSED k else k.

Section Signals.
Context {A : Type} (hs : Handlers A t).

Definition update (f : t -> t) (st : A * t * list Emission)
    : A * t * list Emission :=
  let '(a, k, tr) := st in (a, f k, tr).

Definition emit (b : Branch) (sg : Signal) (slot : A -> t -> A * t)
    (st : A * t * list Emission) : A * t * list Emission :=
  let '(a, k, tr) := st in
  let e := {| branch := b; signal := sg;
              enabled_at_emission := enabled_events_ k |} in
  let '(a, k) := slot a k in
  (a, k, tr ++ [e]).

Definition clear (de : Z) (k : t) : t :=
  set_enabled_events (disable_event de (enabled_events_ k)) k.

Definition OnEvent (ff : Z) (err : Z) (a : A) (k : t)
    : A * t * list Emission :=
  let st := (a, k, []) in
  let st := if has_event ff DE_READ
            then emit on_DE_READ SignalReadEvent (read_slot hs)
                   (update (clear DE_READ) st)
            else st in
  let st := if has_event ff DE_WRITE
            then emit on_DE_WRITE SignalWriteEvent (write_slot hs)
                   (update (clear DE_WRITE) st)
            else st in
  let st := if has_event ff DE_CONNECT
            then emit on_DE_CONNECT SignalConnectEvent (connect_slot hs)
                   (update (clear DE_CONNECT) st)
            else st in
  let st := if has_event ff DE_ACCEPT
            then emit on_DE_ACCEPT SignalReadEvent (read_slot hs)
                   (update (clear DE_ACCEPT) st)
            else st in
  if has_event ff DE_CLOSE
  then emit on_DE_CLOSE (SignalCloseEvent err) (close_slot hs err)
         (update (set_enabled_events 0) st)
  else st.
End Signals.

(** [Close] of the dispatcher at address [this]; [None] when the
    assertion of [Remove] fails. *)
Definition Close (this : PhysicalSocketServer.Dispatcher)
    (closesocket_ret closesocket_errno : Z)
    (ss : PhysicalSocketServer.t) (k : t)
    : option (Z * PhysicalSocketServer.t * t) :=
  if s_ k =? INVALID_SOCKET then Some (0, ss, k)
  else
    match PhysicalSocketServer.Remove this ss with
    | None => None
    | Some ss =>
      let '(r, k) := PhysicalSocket.Close closesocket_ret closesocket_errno k in
      Some (r, ss, k)
    end.

(* ss_->Add(this); the descriptor is made non-blocking *)
Definition Initialize (this : PhysicalSocketServer.Dispatcher)
    (ss : PhysicalSocketServer.t) : bool * PhysicalSocketServer.t :=
  (true, PhysicalSocketServer.Add this ss).

(** [Create]: [PhysicalSocket::Create], whose [Close] is the
    dispatcher's, then [Initialize]. *)
Definition Create (this : PhysicalSocketServer.Dispatcher) (os : CreateOS)
    (type : Z) (ss : PhysicalSocketServer.t) (k : t)
    : option (bool * PhysicalSocketServer.t * t) :=
  match Close this (closesocket_ret os) (closesocket_errno os) ss k with
  | None => None
  | Some (_, ss, k) =>
    let '(ok, k) := Create_socket os type k in
    if negb ok then Some (false, ss, k)
    else let '(r, ss) := Initialize this ss in Some (r, ss, k)
  end.

End WithHeaders.
End SocketDispatcher.

Section WithHeaders.
Context {H : Headers}.

(** [PhysicalSocketServer::WrapSocket]: a [SocketDispatcher] built around
    the handle [s] at address [this], then initialised. *)
Definition WrapSocket (this : PhysicalSocketServer.Dispatcher) (s : Z)
    (so_type : Z) (udp0 : bool) (ss : PhysicalSocketServer.t)
    : PhysicalSocketServer.t * PhysicalSocket.t :=
  let dispatcher := PhysicalSocket.new s so_type udp0 in
  let '(_, ss) := SocketDispatcher.Initialize this ss in
  (ss, dispatcher).

(** *** The body of the dispatch loop of [Wait]

    What the loop sees of a dispatcher: the results of its virtual
    functions. *)
Record Dispatcher : Type := {
  GetDescriptor : Z;
  GetRequestedEvents : Z;
  IsDescriptorClosed : bool
}.

Definition fd_set : Type := list Z.
Definition FD_ISSET (fd : Z) (s : fd_set) : bool := existsb (Z.eqb fd) s.
Definition FD_CLR (fd : Z) (s : fd_set) : fd_set :=
  filter (fun x => negb (Z.eqb fd x)) s.
Definition FD_SET (fd : Z) (s : fd_set) : fd_set := fd :: s.

(* The first loop: which sets the descriptor of a dispatcher asking for
   [ff] is put in. *)
Definition Wait_fd_sets (fd ff : Z) (fdsRead fdsWrite : fd_set)
    : fd_set * fd_set :=
  let fdsRead := if has_event ff (Z.lor DE_READ DE_ACCEPT)
                 then FD_SET fd fdsRead else fdsRead in
  let fdsWrite := if has_event ff (Z.lor DE_WRITE DE_CONNECT)
                  then FD_SET fd fdsWrite else fdsWrite in
  (fdsRead, fdsWrite).

Record Classified : Type := {
  ff_of : Z;
  errcode_of : Z;
  fdsRead_of : fd_set;
  fdsWrite_of : fd_set
}.

(** One turn of the second loop up to the calls of [OnPreEvent] and
    [OnEvent], which are made with [ff_of] and [errcode_of] when [ff_of]
    is not zero.  [so_error] is what [getsockopt(SO_ERROR)] stores in
    [errcode]. *)
Definition Wait_events (pdispatcher : Dispatcher) (so_error : Z)
    (fdsRead fdsWrite : fd_set) : Classified :=
  let fd := GetDescriptor pdispatcher in
  let ff := 0 in
  let errcode := 0 in
  let errcode := if FD_ISSET fd fdsRead || FD_ISSET fd fdsWrite
                 then so_error else errcode in
  let '(ff, fdsRead) :=
    if FD_ISSET fd fdsRead then
      let fdsRead := FD_CLR fd fdsRead in
      if has_event (GetRequestedEvents pdispatcher) DE_ACCEPT
      then (Z.lor ff DE_ACCEPT, fdsRead)
      else if negb (errcode =? 0) || IsDescriptorClosed pdispatcher
      then (Z.lor ff DE_CLOSE, fdsRead)
      else (Z.lor ff DE_READ, fdsRead)
    else (ff, fdsRead) in
  let '(ff, fdsWrite) :=
    if FD_ISSET fd fdsWrite then
      let fdsWrite := FD_CLR fd fdsWrite in
      if has_event (GetRequestedEvents pdispatcher) DE_CONNECT
      then if errcode =? 0
           then (Z.lor ff DE_CONNECT, fdsWrite)
           else (Z.lor ff DE_CLOSE, fdsWrite)
      else (Z.lor ff DE_WRITE, fdsWrite)
    else (ff, fdsWrite) in
  {| ff_of := ff; errcode_of := errcode;
     fdsRead_of := fdsRead; fdsWrite_of := fdsWrite |}.

(* A socket dispatcher as the loop sees it; [peek_res] and [peek_errno]
   answer the [recv(MSG_PEEK)] of [IsDescriptorClosed]. *)
Definition as_Dispatcher (peek_res peek_errno : Z) (k : PhysicalSocket.t)
    : Dispatcher :=
  {| GetDescriptor := SocketDispatcher.GetDescriptor k;
     GetRequestedEvents := SocketDispatcher.GetRequestedEvents k;
     IsDescriptorClosed :=
       SocketDispatcher.IsDescriptorClosed peek_res peek_errno |}.

End WithHeaders.
End Posix.

(** ** WIN32 dispatchers and the dispatch loop of the WIN32 [Wait] *)

Module Win32.

Module SocketDispatcher.
Section WithHeaders.
Context {H : Headers}.

Record t : Type := {
  base : PhysicalSocket.t;
  id_ : Z;
  signal_close_ : bool;
  signal_err_ : Z
}.

Definition set_base (v : PhysicalSocket.t) (d : t) : t :=
  {| base := v; id_ := id_ d; signal_close_ := signal_close_ d;
     signal_err_ := signal_err_ d |}.

(* SocketDispatcher(ss) and SocketDispatcher(s, ss) *)
Definition new (s : Z) (so_type : Z) (udp0 : bool) : t :=
  {| base := PhysicalSocket.new s so_type udp0; id_ := 0;
     signal_close_ := false; signal_err_ := 0 |}.

Definition GetRequestedEvents (d : t) : Z :=
  PhysicalSocket.enabled_events_ (base d).

Definition OnPreEvent (ff : Z) (d : t) : t :=
  if has_event ff DE_CONNECT
  then set_base (PhysicalSocket.set_state CS_CONNECTED (base d)) d
  else d.

Section Signals.
Context {A : Type} (hs : Handlers A t).

Definition clear (de : Z) (d : t) : t :=
  set_base
    (PhysicalSocket.set_enabled_events
       (disable_event de (PhysicalSocket.enabled_events_ (base d)))
       (base d)) d.

Definition emit (b : Branch) (sg : Signal) (slot : A -> t -> A * t)
    (st : A * t * list Emission) : A * t * list Emission :=
  let '(a, d, tr) := st in
  let e := {| branch := b; signal := sg;
              enabled_at_emission :=
                PhysicalSocket.enabled_events_ (base d) |} in
  let '(a, d) := slot a d in
  (a, d, tr ++ [e]).

(* one guarded branch: clear the bit, emit the signal *)
Definition deliver (guard : t -> bool) (de : Z) (b : Branch)
    (sg : Signal) (slot : A -> t -> A * t)
    (st : A * t * list Emission) : A * t * list Emission :=
  let '(a, d, tr) := st in
  if guard d then emit b sg slot (a, clear de d, tr) else st.

Definition OnEvent (ff : Z) (err : Z) (a : A) (d : t)
    : A * t * list Emission :=
  let cache_id := id_ d in
  let st := (a, d, []) in
  let st := deliver (fun _ => has_event ff DE_READ)
              DE_READ on_DE_READ SignalReadEvent (read_slot hs) st in
  let st := deliver
              (fun d => has_event ff DE_WRITE && (id_ d =? cache_id))
              DE_WRITE on_DE_WRITE SignalWriteEvent (write_slot hs) st in
  let st := deliver
              (fun d => has_event ff DE_CONNECT && (id_ d =? cache_id))
              DE_CONNECT on_DE_CONNECT SignalConnectEvent
              (connect_slot hs) st in
  let st := deliver
              (fun d => has_event ff DE_ACCEPT && (id_ d =? cache_id))
              DE_ACCEPT on_DE_ACCEPT SignalReadEvent (read_slot hs) st in
  let '(a, d, tr) := st in
  if has_event ff DE_CLOSE && (id_ d =? cache_id)
  then (a, {| base := base d; id_ := id_ d; signal_close_ := true;
              signal_err_ := err |}, tr)
  else st.
End Signals.

End WithHeaders.
End SocketDispatcher.

(** *** The dispatch loop of [Wait]

    The loop pushes its cursors [i] and [end] on [iterators_] and scans
    [dispatchers_] with [dispatchers_[i++]] while [i < end].  What the
    callbacks of a visited dispatcher do to the server is a sequence of
    [Add] and [Remove] calls, chosen by the application from its state, the
    dispatcher and the server. *)

Import PhysicalSocketServer.

Inductive RegistryOp : Type :=
| op_Add (d : Dispatcher)
| op_Remove (d : Dispatcher).

Inductive Outcome (R : Type) : Type :=
| Done (r : R)
| AssertFailed         (* the ASSERT of Remove *)
| Undefined            (* dispatchers_[i] out of range, or no fuel left *).
Arguments Done {R} _.
Arguments AssertFailed {R}.
Arguments Undefined {R}.

(* Runs the calls in order; collects the dispatchers removed. *)
Fixpoint run_ops (ops : list RegistryOp) (ss : t) (removed : list Dispatcher)
    : option (t * list Dispatcher) :=
  match ops with
  | [] => Some (ss, removed)
  | op_Add d :: ops => run_ops ops (Add d ss) removed
  | op_Remove d :: ops =>
    match Remove d ss with
    | None => None
    | Some ss => run_ops ops ss (removed ++ [d])
    end
  end.

Record Visit (A : Type) : Type := {
  app : A;
  server : t;
  visited : list Dispatcher;
  removed : list Dispatcher
}.
Arguments app {A} _.
Arguments server {A} _.
Arguments visited {A} _.
Arguments removed {A} _.

Section Dispatch.
Context {A : Type}.
Variable callbacks : A -> Dispatcher -> t -> A * list RegistryOp.

(** [while (i < end) { disp = dispatchers_[i++]; ... }] with [i] the
    cursor at position [p] of [iterators_] and [end] the one at
    [p + 1]. *)
Fixpoint Wait_dispatch_loop (fuel : nat) (p : nat) (v : Visit A)
    : Outcome (Visit A) :=
  match fuel with
  | O => Undefined
  | S fuel =>
    let ss := server v in
    let i := cursor p ss in
    let end_ := cursor (p + 1) ss in
    if Nat.ltb i end_ then
      match nth_error (dispatchers_ ss) i with
      | None => Undefined
      | Some disp =>
        let ss := set_cursor p (S i) ss in
        let '(a, ops) := callbacks (app v) disp ss in
        match run_ops ops ss (removed v) with
        | None => AssertFailed
        | Some (ss, rem) =>
          Wait_dispatch_loop fuel p
            {| app := a; server := ss;
               visited := visited v ++ [disp]; removed := rem |}
        end
      end
    else Done v
  end.

(** [size_t i = 0, end = dispatchers_.size(); iterators_.push_back(&i);
    iterators_.push_back(&end);] the loop, and the two [pop_back]s. *)
Definition Wait_dispatch (a : A) (ss : t) : Outcome (Visit A) :=
  let p := List.length (iterators_ ss) in
  let i := O in
  let end_ := List.length (dispatchers_ ss) in
  let ss := push_iterator i ss in
  let ss := push_iterator end_ ss in
  match Wait_dispatch_loop (S end_) p
          {| app := a; server := ss; visited := []; removed := [] |} with
  | Done v =>
    Done {| app := app v; server := pop_iterator (pop_iterator (server v));
            visited := visited v; removed := removed v |}
  | AssertFailed => AssertFailed
  | Undefined => Undefined
  end.
End Dispatch.

End Win32.

(** ** PhysicalSocket: the other operations *)

Module PhysicalSocketOps.
Section WithHeaders.
Context {H : Headers}.
Import PhysicalSocket.

(** [Bind]: [bind_ret] and [bind_errno] come from [::bind]. *)
Definition Bind (bind_ret bind_errno : Z) (k : t) : Z * t :=
  let err := bind_ret in
  let k := UpdateLastError bind_errno k in
  (err, k).

Definition GetError (k : t) : Z := error_ k.

Definition GetState (k : t) : ConnState := state_ k.

(** [Send]: [sent] is the result of [::send], [send_errno] the error it
    leaves.  (The debug-only [ASSERT(sent <= cb)] is left out.) *)
Definition Send (sent send_errno : Z) (cb : Z) (k : t) : Z * t :=
  let k := UpdateLastError send_errno k in
  let k := if (sent <? 0) && IsBlockingError (error_ k)
           then set_enabled_events
                  (enable_event DE_WRITE (enabled_events_ k)) k
           else k in
  (sent, k).

(** [SendTo]: as [Send], with [::sendto]. *)
Definition SendTo (sent send_errno : Z) (length : Z) (addr : SocketAddress)
    (k : t) : Z * t :=
  let k := UpdateLastError send_errno k in
  let k := if (sent <? 0) && IsBlockingError (error_ k)
           then set_enabled_events
                  (enable_event DE_WRITE (enabled_events_ k)) k
           else k in
  (sent, k).

(** [RecvFrom]: [received] and [recv_errno] come from [::recvfrom], [from]
    is the sender's address it stores; [want_addr] says that [out_addr] is
    not NULL.  The second component is the address written to [out_addr],
    if any. *)
Definition RecvFrom (received recv_errno : Z) (from : SocketAddress)
    (length : Z) (want_addr : bool) (k : t)
    : Z * option SocketAddress * t :=
  let k := UpdateLastError recv_errno k in
  let out := if (0 <=? received) && want_addr then Some from else None in
  let success := (0 <=? received) || IsBlockingError (error_ k) in
  let k := if udp_ k || success
           then set_enabled_events
                  (enable_event DE_READ (enabled_events_ k)) k
           else k in
  (received, out, k).

(** [Listen]: [listen_ret] and [listen_errno] come from [::listen]. *)
Definition Listen (listen_ret listen_errno : Z) (k : t) : Z * t :=
  let err := listen_ret in
  let k := UpdateLastError listen_errno k in
  let k := if err =? 0
           then
             let k := set_state CS_CONNECTING k in
             set_enabled_events (enable_event DE_ACCEPT (enabled_events_ k)) k
           else k in
  (err, k).

(** [Accept] on a POSIX build: [s] and [accept_errno] come from
    [::accept]; [so_type] and [udp0] are those of the constructor of the
    new dispatcher, built at address [this_new] by [WrapSocket].  The first
    component is the socket returned, [None] for NULL. *)
Definition Accept (this_new : PhysicalSocketServer.Dispatcher)
    (s accept_errno : Z) (so_type : Z) (udp0 : bool)
    (ss : PhysicalSocketServer.t) (k : t)
    : option t * PhysicalSocketServer.t * t :=
  let k := UpdateLastError accept_errno k in
  if s =? INVALID_SOCKET then (None, ss, k)
  else
    let k := set_enabled_events
               (enable_event DE_ACCEPT (enabled_events_ k)) k in
    let '(ss, accepted) := Posix.WrapSocket this_new s so_type udp0 ss in
    (Some accepted, ss, k).

(** The [SignalThread*] handed to [OnResolveResult], as far as the test
    [thread != resolver_] is concerned: the resolver the socket owns, or
    some other thread (a resolver dropped earlier). *)
Inductive SignalThread : Type := the_resolver | another_thread.

(* thread != resolver_ *)
Definition thread_is_not_resolver (thread : SignalThread)
    (resolver : option AsyncResolver) : bool :=
  match thread, resolver with
  | the_resolver, Some _ => false
  | _, _ => true
  end.

(** [OnResolveResult] of a plain [PhysicalSocket]: [resolver_error] and
    [resolved] are [resolver_->error()] and [resolver_->address()]; the
    other arguments answer the [::connect] of [DoConnect] and the
    [::closesocket] of [Close]; [close_slot] is what is connected to
    [SignalCloseEvent].  The last component lists the signals emitted. *)
Definition OnResolveResult {A : Type} (close_slot : Z -> A -> t -> A * t)
    (thread : SignalThread) (resolver_error : Z) (resolved : SocketAddress)
    (connect_ret connect_errno closesocket_ret closesocket_errno : Z)
    (a : A) (k : t) : A * t * list Signal :=
  if thread_is_not_resolver thread (resolver_ k) then (a, k, [])
  else
    let error := resolver_error in
    let '(error, k) :=
      if error =? 0 then DoConnect connect_ret connect_errno k
      else (error, snd (Close closesocket_ret closesocket_errno k)) in
    if negb (error =? 0) then
      let k := set_error error k in
      let '(a, k') := close_slot (error_ k) a k in
      (a, k', [SignalCloseEvent (error_ k)])
    else (a, k, []).

(** The calls an application makes on a socket, each with the answers of
    the operating system to it. *)
Inductive Call : Type :=
| call_Create (os : CreateOS) (type : Z)
| call_Close (closesocket_ret closesocket_errno : Z)
| call_Bind (bind_ret bind_errno : Z)
| call_Connect (os : CreateOS) (connect_ret connect_errno : Z)
    (addr : SocketAddress)
| call_Send (sent send_errno cb : Z)
| call_SendTo (sent send_errno length : Z) (addr : SocketAddress)
| call_Recv (received recv_errno length : Z)
| call_RecvFrom (received recv_errno : Z) (from : SocketAddress)
    (length : Z) (want_addr : bool)
| call_Listen (listen_ret listen_errno : Z)
| call_SetError (error : Z)
| call_OnResolveResult (thread : SignalThread) (resolver_error : Z)
    (resolved : SocketAddress)
    (connect_ret connect_errno closesocket_ret closesocket_errno : Z).

(* The socket after a call; the slot of the close signal does nothing. *)
Definition run (c : Call) (k : t) : t :=
  match c with
  | call_Create os type => snd (Create os type k)
  | call_Close r e => snd (Close r e k)
  | call_Bind r e => snd (Bind r e k)
  | call_Connect os cr ce addr => snd (Connect os cr ce addr k)
  | call_Send sent e cb => snd (Send sent e cb k)
  | call_SendTo sent e len addr => snd (SendTo sent e len addr k)
  | call_Recv received e len => snd (Recv received e len k)
  | call_RecvFrom received e from len want =>
    snd (RecvFrom received e from len want k)
  | call_Listen r e => snd (Listen r e k)
  | call_SetError e => SetError e k
  | call_OnResolveResult th re ra cr ce clr cle =>
    snd (fst (OnResolveResult (fun _ (a : unit) k => (a, k))
                th re ra cr ce clr cle tt k))
  end.

Definition run_all (cs : list Call) (k : t) : t :=
  fold_left (fun k c => run c k) cs k.

(** The operating system refuses [::listen] on a socket without handle. *)
Definition listen_refused_without_handle (c : Call) (k : t) : Prop :=
  match c with
  | call_Listen r _ => s_ k = INVALID_SOCKET -> r <> 0
  | _ => True
  end.

(* Every call of the list finds the operating system behaving so. *)
Fixpoint all_listen_refused (cs : list Call) (k : t) : Prop :=
  match cs with
  | [] => True
  | c :: cs =>
    listen_refused_without_handle c k /\ all_listen_refused cs (run c k)
  end.

(** *** EstimateMTU, LINUX branch

    [getsockopt_ret], [getsockopt_errno] and [value] come from
    [getsockopt(IP_MTU)]; [mtu] is a [uint16*].  The result is the value
    returned, the value stored through [mtu] if any, and the socket. *)
Definition uint16 (x : Z) : Z := x mod 2 ^ 16.

Definition EstimateMTU_linux (addr : SocketAddress)
    (getsockopt_ret getsockopt_errno value : Z) (k : t)
    : Z * option Z * t :=
  if IsAny addr then (-1, None, set_error ENOTCONN k)
  else
    let err := getsockopt_ret in
    if err <? 0 then (err, None, UpdateLastError getsockopt_errno k)
    else (0, Some (uint16 value), k).

(* ASSERT((0 <= value) && (value <= 65536)) *)
Definition EstimateMTU_linux_assertion (value : Z) : bool :=
  (0 <=? value) && (value <=? 65536).

End WithHeaders.
End PhysicalSocketOps.

(** ** The timing of the POSIX [Wait]

    [struct timeval] with its two signed fields; [cmsWait] is an [int], and
    [/] and [%] are those of C, which truncate. *)

Module WaitTiming.

Record timeval : Type := {
  tv_sec : Z;
  tv_usec : Z
}.

(* tvWait.tv_sec = cmsWait / 1000; tvWait.tv_usec = (cmsWait % 1000) * 1000 *)
Definition tvWait_of (cmsWait : Z) : timeval :=
  {| tv_sec := Z.quot cmsWait 1000;
     tv_usec := Z.rem cmsWait 1000 * 1000 |}.

(** When to return: [now] is what [gettimeofday] stores in [tvStop]. *)
Definition tvStop_of (now tvWait : timeval) : timeval :=
  let sec := tv_sec now + tv_sec tvWait in
  let usec := tv_usec now + tv_usec tvWait in
  if 1000000 <=? usec
  then {| tv_sec := sec + 1; tv_usec := usec - 1000000 |}
  else {| tv_sec := sec; tv_usec := usec |}.

(** The time remaining to wait, recomputed at the end of a turn of the
    loop; [tvT] is what [gettimeofday] stores.  The second component says
    whether [ASSERT(ptvWait->tv_sec > 0)] held where it was evaluated. *)
Definition remaining (tvStop tvT : timeval) : timeval * bool :=
  let sec := 0 in
  let usec := 0 in
  if (tv_sec tvT <? tv_sec tvStop)
     || ((tv_sec tvStop =? tv_sec tvT) && (tv_usec tvT <? tv_usec tvStop))
  then
    let sec := tv_sec tvStop - tv_sec tvT in
    let usec := tv_usec tvStop - tv_usec tvT in
    if usec <? 0
    then ({| tv_sec := sec - 1; tv_usec := usec + 1000000 |}, 0 <? sec)
    else ({| tv_sec := sec; tv_usec := usec |}, true)
  else ({| tv_sec := sec; tv_usec := usec |}, true).

End WaitTiming.

(** ** Vocabulary of the further statements *)

Section FurtherVocabulary.
Context {H : Headers}.

(** A socket without handle is closed and owns no resolver, and
    [enabled_events_] is a [uint8]. *)
Definition handle_invariant (k : PhysicalSocket.t) : Prop :=
  (PhysicalSocket.s_ k = INVALID_SOCKET ->
   PhysicalSocket.state_ k = CS_CLOSED
   /\ PhysicalSocket.resolver_ k = None)
  /\ 0 <= PhysicalSocket.enabled_events_ k < 256.

(* The calls that can clear an enabled event. *)
Definition may_clear_events (c : PhysicalSocketOps.Call) : bool :=
  match c with
  | PhysicalSocketOps.call_Create _ _ => true
  | PhysicalSocketOps.call_Close _ _ => true
  | PhysicalSocketOps.call_OnResolveResult _ _ _ _ _ _ _ => true
  | _ => false
  end.
End FurtherVocabulary.

(* a time in microseconds *)
Definition to_us (tv : WaitTiming.timeval) : Z :=
  WaitTiming.tv_sec tv * 1000000 + WaitTiming.tv_usec tv.

(* 0 <= tv_usec < 1000000 *)
Definition normalized (tv : WaitTiming.timeval) : Prop :=
  0 <= WaitTiming.tv_usec tv < 1000000.

(** ** POSIX signals: PosixSignalHandler and PosixSignalDispatcher *)

Module PosixSignal.

Definition kNumPosixSignals : Z := 128.

(* received_signal_[i] = v *)
Fixpoint set_flag (i : nat) (v : bool) (l : list bool) : list bool :=
  match l, i with
  | [], _ => []
  | _ :: r, O => v :: r
  | x :: r, S i => x :: set_flag i v r
  end.

(** The process-wide handler object: the flags [received_signal_] and the
    kernel's side of the pipe [afd_].  Signal numbers are not negative;
    the index of the array is [Z.to_nat signum].  (The debug-only
    assertions of [IsSignalSet] and [ClearSignal] repeat the tests that
    follow them and are left out.) *)
Record PosixSignalHandler : Type := {
  received_signal_ : list bool;
  afd_ : Posix.EventDispatcher.Pipe
}.

(* the constructor: a fresh pipe, memset(received_signal_, 0, ...) *)
Definition new : PosixSignalHandler :=
  {| received_signal_ := repeat false (Z.to_nat kNumPosixSignals);
     afd_ := {| Posix.EventDispatcher.pending := [];
                Posix.EventDispatcher.written := O |} |}.

Definition IsSignalSet (signum : Z) (h : PosixSignalHandler) : bool :=
  if signum <? kNumPosixSignals
  then nth (Z.to_nat signum) (received_signal_ h) false
  else false.

Definition ClearSignal (signum : Z) (h : PosixSignalHandler)
    : PosixSignalHandler :=
  if signum <? kNumPosixSignals
  then {| received_signal_ :=
            set_flag (Z.to_nat signum) false (received_signal_ h);
          afd_ := afd_ h |}
  else h.

(** [OnPosixSignalReceived]: [write_ret] is what [write] returns if it is
    called. *)
Definition OnPosixSignalReceived (write_ret : Z) (signum : Z)
    (h : PosixSignalHandler) : PosixSignalHandler :=
  if kNumPosixSignals <=? signum then h
  else
    {| received_signal_ :=
         set_flag (Z.to_nat signum) true (received_signal_ h);
       afd_ := Posix.EventDispatcher.pipe_write write_ret 0 (afd_ h) |}.

(** PosixSignalDispatcher: [handlers_] is a [std::map] from signal numbers
    to function pointers, kept as a list with at most one entry per signal
    number; a handler function is known by its address. *)
Definition HandlerMap : Type := list (Z * nat).

(* handlers_.find(signum) *)
Fixpoint find (signum : Z) (handlers : HandlerMap) : option nat :=
  match handlers with
  | [] => None
  | (s, f) :: r => if s =? signum then Some f else find signum r
  end.

(* handlers_.erase(signum) *)
Definition ClearHandler (signum : Z) (handlers : HandlerMap) : HandlerMap :=
  filter (fun e => negb (fst e =? signum)) handlers.

(* handlers_[signum] = handler *)
Definition SetHandler (signum : Z) (handler : nat) (handlers : HandlerMap)
    : HandlerMap :=
  (signum, handler) :: ClearHandler signum handlers.

(* !handlers_.empty() *)
Definition HasHandlers (handlers : HandlerMap) : bool :=
  match handlers with
  | [] => false
  | _ :: _ => true
  end.

Definition GetRequestedEvents {H : Headers} : Z := DE_READ.

Definition IsDescriptorClosed : bool := false.

(* read(GetDescriptor(), b, 16) *)
Definition OnPreEvent (ff : Z) (h : PosixSignalHandler) : PosixSignalHandler :=
  let '(ret, pipe) := Posix.EventDispatcher.pipe_read 16 (afd_ h) in
  {| received_signal_ := received_signal_ h; afd_ := pipe |}.

(** [OnEvent]: the loop over [count] signal numbers from [signum] on.
    The result is the handler object and the calls made, each a handler
    function with its argument. *)
Fixpoint OnEvent_loop (count : nat) (signum : Z) (handlers : HandlerMap)
    (h : PosixSignalHandler) (calls : list (nat * Z))
    : PosixSignalHandler * list (nat * Z) :=
  match count with
  | O => (h, calls)
  | S count =>
    if IsSignalSet signum h then
      let h := ClearSignal signum h in
      match find signum handlers with
      | None => OnEvent_loop count (signum + 1) handlers h calls
      | Some f =>
        OnEvent_loop count (signum + 1) handlers h (calls ++ [(f, signum)])
      end
    else OnEvent_loop count (signum + 1) handlers h calls
  end.

Definition OnEvent (ff err : Z) (handlers : HandlerMap)
    (h : PosixSignalHandler) : PosixSignalHandler * list (nat * Z) :=
  OnEvent_loop (Z.to_nat kNumPosixSignals) 0 handlers h [].

(** *** PhysicalSocketServer::SetPosixSignalHandler *)

Inductive sighandler : Type :=
| SIG_IGN
| SIG_DFL
| handler_at (f : nat).

(* The server as this function sees it: the registry, and
   [signal_dispatcher_] with the address of the dispatcher it owns. *)
Record Server : Type := {
  registry : PhysicalSocketServer.t;
  signal_dispatcher_ : option (PhysicalSocketServer.Dispatcher * HandlerMap)
}.

(** [install_ok] says whether [InstallSignal] succeeds, [new_dispatcher]
    is the address of the dispatcher created if one is.  [None] when the
    assertion of [Remove] fails in the destructor of the dispatcher. *)
Definition SetPosixSignalHandler
    (new_dispatcher : PhysicalSocketServer.Dispatcher) (install_ok : bool)
    (signum : Z) (handler : sighandler) (sv : Server)
    : option (bool * Server) :=
  match handler with
  | handler_at f =>
    let '(this, handlers, reg) :=
      match signal_dispatcher_ sv with
      | Some (this, handlers) => (this, handlers, registry sv)
      | None =>
        (new_dispatcher, [],
         PhysicalSocketServer.Add new_dispatcher (registry sv))
      end in
    let sv := {| registry := reg;
                 signal_dispatcher_ :=
                   Some (this, SetHandler signum f handlers) |} in
    if negb install_ok then Some (false, sv) else Some (true, sv)
  | _ =>
    if negb install_ok then Some (false, sv)
    else
      match signal_dispatcher_ sv with
      | Some (this, handlers) =>
        let handlers := ClearHandler signum handlers in
        if negb (HasHandlers handlers) then
          match PhysicalSocketServer.Remove this (registry sv) with
          | None => None
          | Some reg =>
            Some (true, {| registry := reg; signal_dispatcher_ := None |})
          end
        else
          Some (true, {| registry := registry sv;
                         signal_dispatcher_ := Some (this, handlers) |})
      | None => Some (true, sv)
      end
  end.

End PosixSignal.

(** ** FileDispatcher

    [flags_] is an [int] the constructor does not initialise before its
    [set_readable(true)]. *)

Module FileDispatcher.
Section WithHeaders.
Context {H : Headers}.

Definition readable (flags_ : Z) : bool := has_event flags_ DE_READ.

Definition set_readable (value : bool) (flags_ : Z) : Z :=
  if value then Z.lor flags_ DE_READ else Z.land flags_ (Z.lnot DE_READ).

Definition writable (flags_ : Z) : bool := has_event flags_ DE_WRITE.

Definition set_writable (value : bool) (flags_ : Z) : Z :=
  if value then Z.lor flags_ DE_WRITE else Z.land flags_ (Z.lnot DE_WRITE).

(* the [int] converted to [uint32] *)
Definition GetRequestedEvents (flags_ : Z) : Z :=
  PhysicalSocket.uint32 flags_.

Definition IsDescriptorClosed : bool := false.

(* FileDispatcher(fd, ss): [flags0] is what flags_ holds before *)
Definition new (flags0 : Z) : Z := set_readable true flags0.

(* the signals emitted by OnEvent, in order *)
Definition OnEvent (ff err : Z) : list Signal :=
  (if has_event ff DE_READ then [SignalReadEvent] else [])
  ++ (if has_event ff DE_WRITE then [SignalWriteEvent] else [])
  ++ (if has_event ff DE_CLOSE then [SignalCloseEvent err] else []).

End WithHeaders.
End FileDispatcher.

(** ** WIN32 SocketDispatcher: Create, Close, CheckSignalClose *)

Module Win32Socket.
Section WithHeaders.
Context {H : Headers}.
Import Win32.SocketDispatcher.

(** [do { id_ = ++next_id_; } while (id_ == 0);] on the static [int]
    [next_id_], whose increment wraps as a two's complement [int] does.
    The result is [id_] and [next_id_]; [None] when the fuel runs out. *)
Fixpoint next_id_loop (fuel : nat) (next_id_ : Z) : option (Z * Z) :=
  match fuel with
  | O => None
  | S fuel =>
    let next_id_ := PhysicalSocket.int32 (next_id_ + 1) in
    let id := next_id_ in
    if id =? 0 then next_id_loop fuel next_id_ else Some (id, next_id_)
  end.

(** [Close] of the dispatcher at address [this]; [None] when the assertion
    of [Remove] fails. *)
Definition Close (this : PhysicalSocketServer.Dispatcher)
    (closesocket_ret closesocket_errno : Z)
    (ss : PhysicalSocketServer.t) (d : t)
    : option (Z * PhysicalSocketServer.t * t) :=
  if PhysicalSocket.s_ (base d) =? INVALID_SOCKET then Some (0, ss, d)
  else
    let d := {| base := base d; id_ := 0; signal_close_ := false;
                signal_err_ := signal_err_ d |} in
    match PhysicalSocketServer.Remove this ss with
    | None => None
    | Some ss =>
      let '(r, k) :=
        PhysicalSocket.Close closesocket_ret closesocket_errno (base d) in
      Some (r, ss, set_base k d)
    end.

(** [Create]: [PhysicalSocket::Create], whose [Close] is the dispatcher's,
    then [Initialize] and the choice of a fresh [id_].  The last component
    is the static [next_id_]. *)
Definition Create (this : PhysicalSocketServer.Dispatcher)
    (os : PhysicalSocket.CreateOS) (type : Z) (next_id_ : Z)
    (ss : PhysicalSocketServer.t) (d : t)
    : option (bool * PhysicalSocketServer.t * t * Z) :=
  match Close this (PhysicalSocket.closesocket_ret os)
          (PhysicalSocket.closesocket_errno os) ss d with
  | None => None
  | Some (_, ss, d) =>
    let '(ok, k) := PhysicalSocket.Create_socket os type (base d) in
    let d := set_base k d in
    if negb ok then Some (false, ss, d, next_id_)
    else
      (* Initialize: the socket is made non-blocking; ss_->Add(this) *)
      let ss := PhysicalSocketServer.Add this ss in
      match next_id_loop 2 next_id_ with
      | None => None
      | Some (id, next_id_) =>
        Some (true, ss,
              {| base := base d; id_ := id;
                 signal_close_ := signal_close_ d;
                 signal_err_ := signal_err_ d |}, next_id_)
      end
  end.

(** [CheckSignalClose]: [peek_res] is the result of the one-byte
    [recv(MSG_PEEK)], [close_slot] what is connected to
    [SignalCloseEvent].  The result is the value returned, the
    application, the dispatcher and the signals emitted. *)
Definition CheckSignalClose {A : Type} (close_slot : Z -> A -> t -> A * t)
    (peek_res : Z) (a : A) (d : t) : bool * A * t * list Signal :=
  if negb (signal_close_ d) then (false, a, d, [])
  else if 0 <? peek_res then (false, a, d, [])
  else
    let d := {| base := PhysicalSocket.set_state CS_CLOSED (base d);
                id_ := id_ d; signal_close_ := false;
                signal_err_ := signal_err_ d |} in
    let '(a, d') := close_slot (signal_err_ d) a d in
    (true, a, d', [SignalCloseEvent (signal_err_ d)]).

End WithHeaders.
End Win32Socket.

(** ** The loops of the POSIX [Wait] over the registry, and WakeUp *)

Module PosixWait.
Section WithHeaders.
Context {H : Headers}.

(** The first loop: [ds] lists the dispatchers of the registry with what
    the loop sees of each; the result is [fdmax] and the two sets. *)
Fixpoint Wait_fd_sets_loop (process_io : bool)
    (signal_wakeup_ : PhysicalSocketServer.Dispatcher)
    (ds : list (PhysicalSocketServer.Dispatcher * Posix.Dispatcher))
    (fdmax : Z) (fdsRead fdsWrite : Posix.fd_set)
    : Z * Posix.fd_set * Posix.fd_set :=
  match ds with
  | [] => (fdmax, fdsRead, fdsWrite)
  | (pdispatcher, view) :: ds =>
    if negb process_io && negb (Nat.eqb pdispatcher signal_wakeup_)
    then Wait_fd_sets_loop process_io signal_wakeup_ ds
           fdmax fdsRead fdsWrite
    else
      let fd := Posix.GetDescriptor view in
      let fdmax := if fdmax <? fd then fd else fdmax in
      let ff := Posix.GetRequestedEvents view in
      let '(fdsRead, fdsWrite) :=
        Posix.Wait_fd_sets fd ff fdsRead fdsWrite in
      Wait_fd_sets_loop process_io signal_wakeup_ ds fdmax fdsRead fdsWrite
  end.

End WithHeaders.

(** The second loop, [for (size_t i = 0; i < dispatchers_.size(); ++i)],
    which keeps its index to itself.  As in the WIN32 loop, what the
    callbacks of a visited dispatcher do to the server is a sequence of
    [Add] and [Remove] calls. *)
Section Dispatch.
Context {A : Type}.
Variable callbacks :
  A -> PhysicalSocketServer.Dispatcher -> PhysicalSocketServer.t ->
  A * list Win32.RegistryOp.

Fixpoint Wait_dispatch_loop (fuel : nat) (i : nat) (v : Win32.Visit A)
    : Win32.Outcome (Win32.Visit A) :=
  match fuel with
  | O => Win32.Undefined
  | S fuel =>
    let ss := Win32.server v in
    if Nat.ltb i (List.length (PhysicalSocketServer.dispatchers_ ss)) then
      match nth_error (PhysicalSocketServer.dispatchers_ ss) i with
      | None => Win32.Undefined
      | Some pdispatcher =>
        let '(a, ops) := callbacks (Win32.app v) pdispatcher ss in
        match Win32.run_ops ops ss (Win32.removed v) with
        | None => Win32.AssertFailed
        | Some (ss, rem) =>
          Wait_dispatch_loop fuel (S i)
            {| Win32.app := a; Win32.server := ss;
               Win32.visited := Win32.visited v ++ [pdispatcher];
               Win32.removed := rem |}
        end
      end
    else Win32.Done v
  end.

Definition Wait_dispatch (fuel : nat) (a : A) (ss : PhysicalSocketServer.t)
    : Win32.Outcome (Win32.Visit A) :=
  Wait_dispatch_loop fuel O
    {| Win32.app := a; Win32.server := ss;
       Win32.visited := []; Win32.removed := [] |}.
End Dispatch.

(** [Signaler], the wake-up dispatcher of the server: an
    [EventDispatcher] whose [OnEvent] clears the flag [pf_] points to,
    [fWait_] of the server. *)
Section WakeUp.
Context {H : Headers}.

Record Server : Type := {
  fWait_ : bool;
  signal_wakeup_ : Posix.EventDispatcher.t
}.

(* Signaler::OnEvent, with pf_ = &fWait_ *)
Definition Signaler_OnEvent (ff err : Z) (sv : Server) : Server :=
  {| fWait_ := false; signal_wakeup_ := signal_wakeup_ sv |}.

(* PhysicalSocketServer::WakeUp *)
Definition WakeUp (write_ret : Z) (sv : Server) : Server :=
  {| fWait_ := fWait_ sv;
     signal_wakeup_ :=
       Posix.EventDispatcher.Signal write_ret (signal_wakeup_ sv) |}.

(* what the loops of Wait see of the wake-up dispatcher, whose descriptor
   is [fd] *)
Definition wakeup_view (fd : Z) : Posix.Dispatcher :=
  {| Posix.GetDescriptor := fd;
     Posix.GetRequestedEvents := DE_READ;
     Posix.IsDescriptorClosed := false |}.

(* if (ff != 0) { OnPreEvent(ff); OnEvent(ff, errcode); } on the wake-up
   dispatcher *)
Definition dispatch_wakeup (ff err : Z) (sv : Server) : Server :=
  if negb (ff =? 0) then
    let sv := {| fWait_ := fWait_ sv;
                 signal_wakeup_ :=
                   Posix.EventDispatcher.OnPreEvent ff (signal_wakeup_ sv) |} in
    Signaler_OnEvent ff err sv
  else sv.

End WakeUp.
End PosixWait.

(** ** Vocabulary of the further statements on signals *)

Module SignalVocabulary.
Import PosixSignal.

(* the signals received, each with the result of the write to the pipe *)
Definition receive_all (rs : list (Z * Z)) (h : PosixSignalHandler)
    : PosixSignalHandler :=
  fold_left (fun h r => OnPosixSignalReceived (fst r) (snd r) h) rs h.

(* signum, signum + 1, ..., signum + count - 1 *)
Definition signums_from (count : nat) (signum : Z) : list Z :=
  map (fun i => signum + Z.of_nat i) (seq 0 count).

(* the call made for [signum] when it is flagged: its handler if it has
   one *)
Definition call_for (handlers : HandlerMap) (flagged : bool) (signum : Z)
    : list (nat * Z) :=
  if flagged then
    match find signum handlers with
    | Some f => [(f, signum)]
    | None => []
    end
  else [].

(* the array is whole *)
Definition whole (h : PosixSignalHandler) : Prop :=
  List.length (received_signal_ h) = Z.to_nat kNumPosixSignals.

(* what holds of [signal_dispatcher_] between calls: a dispatcher exists
   only with a handler in its map, the map has one entry per signal
   number, and the dispatcher is registered *)
Definition dispatcher_invariant (sv : Server) : Prop :=
  match signal_dispatcher_ sv with
  | Some (this, handlers) =>
    handlers <> [] /\ NoDup (map fst handlers) /\
    In this (PhysicalSocketServer.dispatchers_ (registry sv))
  | None => True
  end.

Definition handler_of (signum : Z) (sv : Server) : option nat :=
  match signal_dispatcher_ sv with
  | Some (_, handlers) => find signum handlers
  | None => None
  end.

End SignalVocabulary.

(** ** Vocabulary of the further statements on dispatchers *)

(* what the loops of the POSIX Wait see of a FileDispatcher *)
Definition file_view (fd flags_ : Z) : Posix.Dispatcher :=
  {| Posix.GetDescriptor := fd;
     Posix.GetRequestedEvents := FileDispatcher.GetRequestedEvents flags_;
     Posix.IsDescriptorClosed := FileDispatcher.IsDescriptorClosed |}.

(** ** Vocabulary of the further statements on the WIN32 dispatcher *)

Section Win32Vocabulary.
Context {H : Headers}.
Import Win32.SocketDispatcher.

(* a slot of the read signal that closes the socket it is called for; the
   state of the application is the registry of the server *)
Definition closing_slot (this : PhysicalSocketServer.Dispatcher)
    (closesocket_ret closesocket_errno : Z)
    (ss : PhysicalSocketServer.t) (d : t) : PhysicalSocketServer.t * t :=
  match Win32Socket.Close this closesocket_ret closesocket_errno ss d with
  | Some (_, ss, d) => (ss, d)
  | None => (ss, d)
  end.

Definition with_read_slot {A : Type} (slot : A -> t -> A * t)
    (hs : Handlers A t) : Handlers A t :=
  {| read_slot := slot; write_slot := write_slot hs;
     connect_slot := connect_slot hs; close_slot := close_slot hs |}.

(* the dispatcher as [CheckSignalClose] hands it to the close signal *)
Definition closed_for_signal (d : t) : t :=
  {| base := PhysicalSocket.set_state CS_CLOSED (base d);
     id_ := id_ d; signal_close_ := false; signal_err_ := signal_err_ d |}.

End Win32Vocabulary.

(** ** Vocabulary of the further statements on the POSIX [Wait] *)

Section PosixWaitVocabulary.
Context {H : Headers}.

(* the dispatchers the first loop does not skip *)
Definition considered (process_io : bool)
    (signal_wakeup_ : PhysicalSocketServer.Dispatcher)
    (dv : PhysicalSocketServer.Dispatcher * Posix.Dispatcher) : bool :=
  process_io || Nat.eqb (fst dv) signal_wakeup_.

(* some dispatcher of [ds] that is not skipped has descriptor [fd] and
   asks for one of the events of [mask] *)
Definition requested (process_io : bool)
    (signal_wakeup_ : PhysicalSocketServer.Dispatcher) (mask fd : Z)
    (ds : list (PhysicalSocketServer.Dispatcher * Posix.Dispatcher)) : bool :=
  existsb
    (fun dv =>
       considered process_io signal_wakeup_ dv
       && (fd =? Posix.GetDescriptor (snd dv))
       && has_event (Posix.GetRequestedEvents (snd dv)) mask)
    ds.

End PosixWaitVocabulary.

(** ** The WIN32 [Wait]: network events

    The FD_ constants and their bit numbers come from winsock2.h. *)

Module Win32Wait.

Class Winsock : Type := {
  FD_READ : Z;
  FD_WRITE : Z;
  FD_ACCEPT : Z;
  FD_CONNECT : Z;
  FD_CLOSE : Z;
  FD_CONNECT_BIT : Z;
  FD_CLOSE_BIT : Z
}.

(** What the code takes for granted of them: each is one or more bits of
    a [uint32] of its own. *)
Class WinsockOk (W : Winsock) : Prop := {
  FD_READ_range : 0 < FD_READ < 2 ^ 32;
  FD_WRITE_range : 0 < FD_WRITE < 2 ^ 32;
  FD_ACCEPT_range : 0 < FD_ACCEPT < 2 ^ 32;
  FD_CONNECT_range : 0 < FD_CONNECT < 2 ^ 32;
  FD_CLOSE_range : 0 < FD_CLOSE < 2 ^ 32;
  FD_READ_WRITE : Z.land FD_READ FD_WRITE = 0;
  FD_READ_ACCEPT : Z.land FD_READ FD_ACCEPT = 0;
  FD_READ_CONNECT : Z.land FD_READ FD_CONNECT = 0;
  FD_READ_CLOSE : Z.land FD_READ FD_CLOSE = 0;
  FD_WRITE_ACCEPT : Z.land FD_WRITE FD_ACCEPT = 0;
  FD_WRITE_CONNECT : Z.land FD_WRITE FD_CONNECT = 0;
  FD_WRITE_CLOSE : Z.land FD_WRITE FD_CLOSE = 0;
  FD_ACCEPT_CONNECT : Z.land FD_ACCEPT FD_CONNECT = 0;
  FD_ACCEPT_CLOSE : Z.land FD_ACCEPT FD_CLOSE = 0;
  FD_CONNECT_CLOSE : Z.land FD_CONNECT FD_CLOSE = 0
}.

(* the values of winsock2.h *)
Definition winsock2 : Winsock := {|
  FD_READ := 1;
  FD_WRITE := 2;
  FD_ACCEPT := 8;
  FD_CONNECT := 16;
  FD_CLOSE := 32;
  FD_CONNECT_BIT := 4;
  FD_CLOSE_BIT := 5
|}.

Section WithHeaders.
Context {H : Headers} {W : Winsock}.

Definition FlagsToEvents (events : Z) : Z :=
  let ffFD := FD_CLOSE in
  let ffFD := if has_event events DE_READ
              then Z.lor ffFD FD_READ else ffFD in
  let ffFD := if has_event events DE_WRITE
              then Z.lor ffFD FD_WRITE else ffFD in
  let ffFD := if has_event events DE_CONNECT
              then Z.lor ffFD FD_CONNECT else ffFD in
  let ffFD := if has_event events DE_ACCEPT
              then Z.lor ffFD FD_ACCEPT else ffFD in
  ffFD.

Record WSANETWORKEVENTS : Type := {
  lNetworkEvents : Z;
  iErrorCode : Z -> Z
}.

(** The events handed to a dispatcher of the second loop for what
    [WSAEnumNetworkEvents] reported: [ff] and [errcode].  [OnPreEvent] and
    [OnEvent] are called with them when [ff] is not zero. *)
Definition Wait_network_events (wsaEvents : WSANETWORKEVENTS) : Z * Z :=
  let ff := 0 in
  let errcode := 0 in
  let ff := if has_event (lNetworkEvents wsaEvents) FD_READ
            then Z.lor ff DE_READ else ff in
  let ff := if has_event (lNetworkEvents wsaEvents) FD_WRITE
            then Z.lor ff DE_WRITE else ff in
  let '(ff, errcode) :=
    if has_event (lNetworkEvents wsaEvents) FD_CONNECT then
      if iErrorCode wsaEvents FD_CONNECT_BIT =? 0
      then (Z.lor ff DE_CONNECT, errcode)
      else (Z.lor ff DE_CLOSE, iErrorCode wsaEvents FD_CONNECT_BIT)
    else (ff, errcode) in
  let ff := if has_event (lNetworkEvents wsaEvents) FD_ACCEPT
            then Z.lor ff DE_ACCEPT else ff in
  let '(ff, errcode) :=
    if has_event (lNetworkEvents wsaEvents) FD_CLOSE
    then (Z.lor ff DE_CLOSE, iErrorCode wsaEvents FD_CLOSE_BIT)
    else (ff, errcode) in
  (ff, errcode).

End WithHeaders.
End Win32Wait.

(** ** Socket options (the LINUX branches)

    The enumeration [Option] is declared in talk/base/socket.h, which is
    not part of the sources at hand: the four options the code names, and
    any other.  The levels, names and values come from the system
    headers. *)

Module SocketOptions.

Inductive Option : Type :=
| OPT_DONTFRAGMENT | OPT_RCVBUF | OPT_SNDBUF | OPT_NODELAY | OPT_other.

Class SockOpts : Type := {
  IPPROTO_IP : Z;
  IP_MTU_DISCOVER : Z;
  SOL_SOCKET : Z;
  SO_RCVBUF : Z;
  SO_SNDBUF : Z;
  IPPROTO_TCP : Z;
  TCP_NODELAY : Z;
  IP_PMTUDISC_DO : Z;
  IP_PMTUDISC_DONT : Z
}.

(* the values of a Linux build *)
Definition linux_sockopts : SockOpts := {|
  IPPROTO_IP := 0;
  IP_MTU_DISCOVER := 10;
  SOL_SOCKET := 1;
  SO_RCVBUF := 8;
  SO_SNDBUF := 7;
  IPPROTO_TCP := 6;
  TCP_NODELAY := 1;
  IP_PMTUDISC_DO := 2;
  IP_PMTUDISC_DONT := 0
|}.

Section WithSockOpts.
Context {S : SockOpts}.

Definition Option_eqb (a b : Option) : bool :=
  match a, b with
  | OPT_DONTFRAGMENT, OPT_DONTFRAGMENT => true
  | OPT_RCVBUF, OPT_RCVBUF => true
  | OPT_SNDBUF, OPT_SNDBUF => true
  | OPT_NODELAY, OPT_NODELAY => true
  | OPT_other, OPT_other => true
  | _, _ => false
  end.

(** [TranslateOption]: the value returned, and [slevel] and [sopt] when
    they are set. *)
Definition TranslateOption (opt : Option) : Z * option (Z * Z) :=
  match opt with
  | OPT_DONTFRAGMENT => (0, Some (IPPROTO_IP, IP_MTU_DISCOVER))
  | OPT_RCVBUF => (0, Some (SOL_SOCKET, SO_RCVBUF))
  | OPT_SNDBUF => (0, Some (SOL_SOCKET, SO_SNDBUF))
  | OPT_NODELAY => (0, Some (IPPROTO_TCP, TCP_NODELAY))
  | OPT_other => (-1, None)     (* ASSERT(false) *)
  end.

(** [GetOption] and [SetOption] over a kernel of type [K]:
    [getsockopt slevel sopt] gives the result of the call and what it
    stores in [*value], which holds [value0] before; [setsockopt slevel
    sopt value] gives the result of the call and the kernel after it. *)
Section Kernel.
Context {K : Type}.
Variable getsockopt : Z -> Z -> K -> Z * Z.
Variable setsockopt : Z -> Z -> Z -> K -> Z * K.

(* the value returned, and [*value] *)
Definition GetOption (opt : Option) (value0 : Z) (k : K) : Z * Z :=
  match TranslateOption opt with
  | (r, None) => (-1, value0)
  | (r, Some (slevel, sopt)) =>
    if r =? -1 then (-1, value0)
    else
      let '(ret, value) := getsockopt slevel sopt k in
      if negb (ret =? -1) && Option_eqb opt OPT_DONTFRAGMENT
      then (ret, if negb (value =? IP_PMTUDISC_DONT) then 1 else 0)
      else (ret, value)
  end.

Definition SetOption (opt : Option) (value : Z) (k : K) : Z * K :=
  match TranslateOption opt with
  | (r, None) => (-1, k)
  | (r, Some (slevel, sopt)) =>
    if r =? -1 then (-1, k)
    else
      let value :=
        if Option_eqb opt OPT_DONTFRAGMENT
        then if negb (value =? 0) then IP_PMTUDISC_DO else IP_PMTUDISC_DONT
        else value in
      setsockopt slevel sopt value k
  end.
End Kernel.

End WithSockOpts.
End SocketOptions.

(** ** Vocabulary of the further statements on socket options *)

(* a kernel that keeps the value last set for each level and name, and
   whose calls succeed *)
Definition StoringKernel : Type := Z -> Z -> Z.

Definition storing_getsockopt (slevel sopt : Z) (k : StoringKernel)
    : Z * Z :=
  (0, k slevel sopt).

Definition storing_setsockopt (slevel sopt value : Z) (k : StoringKernel)
    : Z * StoringKernel :=
  (0, fun l n => if (l =? slevel) && (n =? sopt) then value else k l n).

(** ** Vocabulary of the statements on removal during a scan *)

(* the callbacks of a scan in which dispatcher [x], when it is visited,
   removes itself from the registry, as a socket closed from its own
   callback does, and no other dispatcher touches the registry *)
Definition self_removing (x : PhysicalSocketServer.Dispatcher)
    (a : unit) (d : PhysicalSocketServer.Dispatcher)
    (ss : PhysicalSocketServer.t) : unit * list Win32.RegistryOp :=
  (a, if Nat.eqb d x then [Win32.op_Remove x] else []).

(** ** Vocabulary of the statements *)

Section Vocabulary.
Context {H : Headers}.

(* the event bit tested by a branch of [OnEvent] *)
Definition branch_event (b : Branch) : Z :=
  match b with
  | on_DE_READ => DE_READ
  | on_DE_WRITE => DE_WRITE
  | on_DE_CONNECT => DE_CONNECT
  | on_DE_ACCEPT => DE_ACCEPT
  | on_DE_CLOSE => DE_CLOSE
  end.

(* The bit of the branch was cleared when the signal was emitted; for
   DE_CLOSE, every bit was. *)
Definition cleared_before (e : Emission) : Prop :=
  match branch e with
  | on_DE_CLOSE => enabled_at_emission e = 0
  | b => has_event (enabled_at_emission e) (branch_event b) = false
  end.

(* the payload pinged for the ladder entry at [level], and what the ping
   reports *)
Definition payload (level : nat) : Z :=
  PhysicalSocket.packet_maximum level - PhysicalSocket.IP_HEADER_SIZE
  - PhysicalSocket.ICMP_HEADER_SIZE.

Definition ping_at (ping : PhysicalSocket.WinPing) (addr : SocketAddress)
    (level : nat) : PhysicalSocket.PingResult :=
  PhysicalSocket.Ping ping (ip addr) (payload level) 0 1 false.
End Vocabulary.

(* the signal a branch of [OnEvent] emits *)
Definition signal_of_branch (err : Z) (b : Branch) : Signal :=
  match b with
  | on_DE_READ => SignalReadEvent
  | on_DE_WRITE => SignalWriteEvent
  | on_DE_CONNECT => SignalConnectEvent
  | on_DE_ACCEPT => SignalReadEvent
  | on_DE_CLOSE => SignalCloseEvent err
  end.

(* the branches in the order of the text of [OnEvent] *)
Definition branches_in_order : list Branch :=
  [on_DE_READ; on_DE_WRITE; on_DE_CONNECT; on_DE_ACCEPT; on_DE_CLOSE].

(* emitted in the order of the text: ranks strictly increase *)
Definition in_code_order (l : list Branch) : Prop :=
  StronglySorted Nat.lt (map branch_rank l).

(** The order as the specification words it: READ and ACCEPT first, then
    WRITE, then CONNECT, then CLOSE. *)
Definition spec_rank (b : Branch) : nat :=
  match b with
  | on_DE_READ => 0
  | on_DE_ACCEPT => 0
  | on_DE_WRITE => 1
  | on_DE_CONNECT => 2
  | on_DE_CLOSE => 3
  end%nat.

Definition in_spec_order (l : list Branch) : Prop :=
  StronglySorted Nat.le (map spec_rank l).



(* one optional emission *)
Definition opt (c : bool) (e : Emission) : list Emission :=
  if c then [e] else [].

(* slots that do nothing *)
Definition idle_handlers (O : Type) : Handlers unit O :=
  {| read_slot := fun a o => (a, o);
     write_slot := fun a o => (a, o);
     connect_slot := fun a o => (a, o);
     close_slot := fun _ a o => (a, o) |}.

(** * Properties *)

(** ** Event masks *)

Lemma testbit_uint8 (x n : Z) :
  Z.testbit (uint8 x) n = (n <? 8) && Z.testbit x n.
Proof. unfold uint8. apply Z.testbit_mod_pow2. lia. Qed.

Lemma testbit_below_256 (x n : Z) :
  0 <= x < 256 -> Z.testbit x n = true -> (n <? 8) = true.
Proof.
  intros Hx Hb. destruct (Z.ltb_spec n 8) as [|Hn]; [reflexivity|].
  rewrite <- (Z.mod_small x (2 ^ 8)) in Hb by (change (2 ^ 8) with 256; lia).
  rewrite Z.mod_pow2_bits_high in Hb by lia. discriminate.
Qed.

Lemma uint8_small (x : Z) : 0 <= x < 256 -> uint8 x = x.
Proof. intros Hx. unfold uint8. apply Z.mod_small. change (2 ^ 8) with 256. lia. Qed.

Lemma uint8_lor (a b : Z) :
  0 <= a < 256 -> 0 <= b < 256 -> uint8 (Z.lor a b) = Z.lor a b.
Proof.
  intros Ha Hb. apply Z.bits_inj'. intros n _.
  rewrite testbit_uint8, Z.lor_spec.
  destruct (Z.testbit a n) eqn:Ea; destruct (Z.testbit b n) eqn:Eb; simpl;
    try apply andb_false_r.
  all: try (rewrite (testbit_below_256 a n Ha Ea); reflexivity).
  rewrite (testbit_below_256 b n Hb Eb); reflexivity.
Qed.

Lemma has_event_0_l (de : Z) : has_event 0 de = false.
Proof. unfold has_event. rewrite Z.land_0_l. reflexivity. Qed.

Lemma has_event_lor (a b de : Z) :
  has_event (Z.lor a b) de = has_event a de || has_event b de.
Proof.
  unfold has_event. rewrite Z.land_lor_distr_l.
  destruct (Z.eqb_spec (Z.land a de) 0) as [Ea|Ea];
    destruct (Z.eqb_spec (Z.land b de) 0) as [Eb|Eb];
    destruct (Z.eqb_spec (Z.lor (Z.land a de) (Z.land b de)) 0) as [E|E];
    simpl; try reflexivity; exfalso.
  - apply E. rewrite Ea, Eb. reflexivity.
  - apply Z.lor_eq_0_iff in E. tauto.
  - apply Z.lor_eq_0_iff in E. tauto.
  - apply Z.lor_eq_0_iff in E. tauto.
Qed.

Lemma has_event_lor_r (ff a b : Z) :
  has_event ff (Z.lor a b) = has_event ff a || has_event ff b.
Proof.
  unfold has_event.
  rewrite (Z.land_comm ff (Z.lor a b)), (Z.land_comm ff a), (Z.land_comm ff b).
  apply (has_event_lor a b ff).
Qed.

Lemma has_event_self (de : Z) : 0 < de -> has_event de de = true.
Proof.
  intros Hd. unfold has_event. rewrite Z.land_diag.
  destruct (Z.eqb_spec de 0); [lia | reflexivity].
Qed.

Lemma has_event_disjoint (a b : Z) : Z.land a b = 0 -> has_event a b = false.
Proof. intros E. unfold has_event. rewrite E. reflexivity. Qed.

Lemma has_event_disjoint_sym (a b : Z) :
  Z.land a b = 0 -> has_event b a = false.
Proof. intros E. apply has_event_disjoint. rewrite Z.land_comm. exact E. Qed.

(* Once a bit is enabled the test for it succeeds. *)
Lemma has_event_enable (de ff : Z) :
  0 < de < 256 -> has_event (enable_event de ff) de = true.
Proof.
  intros Hd. unfold has_event, enable_event.
  replace (Z.land (uint8 (Z.lor ff de)) de) with de.
  - destruct (Z.eqb_spec de 0); [lia | reflexivity].
  - apply Z.bits_inj'. intros n _.
    rewrite Z.land_spec, testbit_uint8, Z.lor_spec.
    destruct (Z.testbit de n) eqn:Ed.
    + rewrite (testbit_below_256 de n) by (lia || assumption).
      rewrite orb_true_r. reflexivity.
    + rewrite andb_false_r. reflexivity.
Qed.

(* Once a bit is disabled the test for it fails. *)
Lemma has_event_disable (de ff : Z) :
  has_event (disable_event de ff) de = false.
Proof.
  unfold has_event, disable_event.
  replace (Z.land (uint8 (Z.land ff (Z.lnot de))) de) with 0; [reflexivity|].
  apply Z.bits_inj'. intros n Hn.
  rewrite Z.bits_0, Z.land_spec, testbit_uint8, Z.land_spec, Z.lnot_spec by lia.
  destruct (Z.testbit de n), (n <? 8), (Z.testbit ff n); reflexivity.
Qed.

(* Enabling a bit keeps the bits already enabled. *)
Lemma has_event_enable_keeps (de ff x : Z) :
  0 <= x < 256 -> has_event ff x = true ->
  has_event (enable_event de ff) x = true.
Proof.
  intros Hx. unfold has_event, enable_event. intros Hf.
  replace (Z.land (uint8 (Z.lor ff de)) x) with (Z.land (Z.lor ff de) x).
  - rewrite Z.land_lor_distr_l.
    destruct (Z.eqb_spec (Z.land ff x) 0) as [E|E]; [discriminate|].
    destruct (Z.eqb_spec (Z.lor (Z.land ff x) (Z.land de x)) 0) as [E'|E'];
      [|reflexivity].
    apply Z.lor_eq_0_iff in E'. tauto.
  - apply Z.bits_inj'. intros n _.
    rewrite !Z.land_spec, testbit_uint8.
    destruct (Z.testbit x n) eqn:Ex.
    + rewrite (testbit_below_256 x n Hx Ex). reflexivity.
    + rewrite !andb_false_r. reflexivity.
Qed.

Section DispatcherEvents.
Context {H : Headers} {Hok : HeadersOk H}.

Lemma DE_READ_nonneg : 0 <= DE_READ < 256.
Proof. pose proof DE_READ_range. lia. Qed.
Lemma DE_WRITE_nonneg : 0 <= DE_WRITE < 256.
Proof. pose proof DE_WRITE_range. lia. Qed.
Lemma DE_CONNECT_nonneg : 0 <= DE_CONNECT < 256.
Proof. pose proof DE_CONNECT_range. lia. Qed.
Lemma DE_CLOSE_nonneg : 0 <= DE_CLOSE < 256.
Proof. pose proof DE_CLOSE_range. lia. Qed.
Lemma DE_ACCEPT_nonneg : 0 <= DE_ACCEPT < 256.
Proof. pose proof DE_ACCEPT_range. lia. Qed.

Lemma uint8_READ_WRITE :
  uint8 (Z.lor DE_READ DE_WRITE) = Z.lor DE_READ DE_WRITE.
Proof. apply uint8_lor; [apply DE_READ_nonneg | apply DE_WRITE_nonneg]. Qed.
End DispatcherEvents.

(* Decides every test of one event constant, or a union of them, against
   another. *)
Ltac de_simpl :=
  repeat first
    [ rewrite has_event_lor
    | rewrite has_event_0_l
    | rewrite (has_event_self DE_READ) by apply DE_READ_range
    | rewrite (has_event_self DE_WRITE) by apply DE_WRITE_range
    | rewrite (has_event_self DE_CONNECT) by apply DE_CONNECT_range
    | rewrite (has_event_self DE_CLOSE) by apply DE_CLOSE_range
    | rewrite (has_event_self DE_ACCEPT) by apply DE_ACCEPT_range
    | rewrite (has_event_disjoint _ _ DE_READ_WRITE)
    | rewrite (has_event_disjoint _ _ DE_READ_CONNECT)
    | rewrite (has_event_disjoint _ _ DE_READ_CLOSE)
    | rewrite (has_event_disjoint _ _ DE_READ_ACCEPT)
    | rewrite (has_event_disjoint _ _ DE_WRITE_CONNECT)
    | rewrite (has_event_disjoint _ _ DE_WRITE_CLOSE)
    | rewrite (has_event_disjoint _ _ DE_WRITE_ACCEPT)
    | rewrite (has_event_disjoint _ _ DE_CONNECT_CLOSE)
    | rewrite (has_event_disjoint _ _ DE_CONNECT_ACCEPT)
    | rewrite (has_event_disjoint _ _ DE_CLOSE_ACCEPT)
    | rewrite (has_event_disjoint_sym _ _ DE_READ_WRITE)
    | rewrite (has_event_disjoint_sym _ _ DE_READ_CONNECT)
    | rewrite (has_event_disjoint_sym _ _ DE_READ_CLOSE)
    | rewrite (has_event_disjoint_sym _ _ DE_READ_ACCEPT)
    | rewrite (has_event_disjoint_sym _ _ DE_WRITE_CONNECT)
    | rewrite (has_event_disjoint_sym _ _ DE_WRITE_CLOSE)
    | rewrite (has_event_disjoint_sym _ _ DE_WRITE_ACCEPT)
    | rewrite (has_event_disjoint_sym _ _ DE_CONNECT_CLOSE)
    | rewrite (has_event_disjoint_sym _ _ DE_CONNECT_ACCEPT)
    | rewrite (has_event_disjoint_sym _ _ DE_CLOSE_ACCEPT) ].

Lemma linux_headers_ok : HeadersOk linux_headers.
Proof. constructor; simpl; (reflexivity || lia). Defined.

(** ** The constructor and [WrapSocket] *)

Section Construction.
Context {H : Headers} {Hok : HeadersOk H}.
Import PhysicalSocket.

Lemma has_event_READ_WRITE (de : Z) :
  has_event (Z.lor DE_READ DE_WRITE) de
  = has_event DE_READ de || has_event DE_WRITE de.
Proof. apply has_event_lor. Qed.

Lemma Add_In (d : PhysicalSocketServer.Dispatcher)
    (ss : PhysicalSocketServer.t) :
  In d (PhysicalSocketServer.dispatchers_ (PhysicalSocketServer.Add d ss)).
Proof.
  unfold PhysicalSocketServer.Add.
  destruct (Nat.eqb_spec
              (PhysicalSocketServer.find d (PhysicalSocketServer.dispatchers_ ss))
              (List.length (PhysicalSocketServer.dispatchers_ ss))) as [E|E];
    simpl.
  - apply in_or_app. right. left. reflexivity.
  - revert E. induction (PhysicalSocketServer.dispatchers_ ss) as [|x l IH];
      simpl; intros E.
    + congruence.
    + destruct (Nat.eqb_spec x d) as [->|Hx]; [left; reflexivity|].
      right. apply IH. intros E'. apply E. rewrite E'. reflexivity.
Qed.

(** C10: a PhysicalSocket constructed around a valid OS handle [s] (as
    [WrapSocket] does for an adopted or accepted handle) starts in state
    CS_CONNECTED with [enabled_events_] equal to DE_READ | DE_WRITE, that
    is with the READ and WRITE bits and no other; one constructed without a
    handle starts in state CS_CLOSED with no enabled event. *)
Theorem new_initial_state (s so_type : Z) (udp0 : bool)
    (this : PhysicalSocketServer.Dispatcher)
    (ss : PhysicalSocketServer.t) :
  s <> INVALID_SOCKET ->
  (let k := new s so_type udp0 in
   s_ k = s /\ state_ k = CS_CONNECTED
   /\ enabled_events_ k = Z.lor DE_READ DE_WRITE
   /\ has_event (enabled_events_ k) DE_READ = true
   /\ has_event (enabled_events_ k) DE_WRITE = true
   /\ has_event (enabled_events_ k) DE_CONNECT = false
   /\ has_event (enabled_events_ k) DE_ACCEPT = false
   /\ has_event (enabled_events_ k) DE_CLOSE = false)
  /\ (let '(ss', k) := Posix.WrapSocket this s so_type udp0 ss in
      k = new s so_type udp0
      /\ In this (PhysicalSocketServer.dispatchers_ ss'))
  /\ (let k := new INVALID_SOCKET so_type udp0 in
      s_ k = INVALID_SOCKET /\ state_ k = CS_CLOSED
      /\ enabled_events_ k = 0
      /\ forall de, has_event (enabled_events_ k) de = false).
Proof.
  intros Hs. split; [|split].
  - unfold new. simpl.
    destruct (Z.eqb_spec s INVALID_SOCKET) as [E|_]; [contradiction|].
    simpl. rewrite uint8_READ_WRITE.
    repeat match goal with |- _ /\ _ => split end;
      try reflexivity; de_simpl; reflexivity.
  - unfold Posix.WrapSocket, Posix.SocketDispatcher.Initialize.
    split; [reflexivity | apply Add_In].
  - unfold new. simpl. rewrite Z.eqb_refl. simpl.
    split; [reflexivity|]. split; [reflexivity|]. split; [reflexivity|].
    intros de. apply has_event_0_l.
Qed.
End Construction.

Lemma new_initial_state_witness :
  5 <> @INVALID_SOCKET linux_headers
  /\ (let k := @PhysicalSocket.new linux_headers 5 1 false in
      PhysicalSocket.state_ k = CS_CONNECTED
      /\ PhysicalSocket.enabled_events_ k = 3).
Proof.
  assert (Hs : 5 <> @INVALID_SOCKET linux_headers) by discriminate.
  split; [exact Hs|].
  destruct (@new_initial_state linux_headers linux_headers_ok 5 1 false 7%nat
              {| PhysicalSocketServer.dispatchers_ := [];
                 PhysicalSocketServer.iterators_ := [] |} Hs)
    as [(_ & Hst & Hen & _) _].
  split; [exact Hst | exact Hen].
Defined.

(** ** Recv and the deferred close *)

Section DeferredClose.
Context {H : Headers} {Hok : HeadersOk H}.
Import PhysicalSocket.

Lemma FD_ISSET_FD_SET (fd : Z) (s : Posix.fd_set) :
  Posix.FD_ISSET fd (Posix.FD_SET fd s) = true.
Proof. unfold Posix.FD_ISSET, Posix.FD_SET. simpl. rewrite Z.eqb_refl. reflexivity. Qed.

Lemma Recv_nonzero (received recv_errno length : Z) (k : t) :
  length <> 0 -> fst (Recv received recv_errno length k) <> 0.
Proof.
  intros Hl. unfold Recv.
  destruct (Z.eqb_spec received 0) as [->|Hr];
    destruct (Z.eqb_spec length 0) as [?|_]; try contradiction; simpl.
  - pose proof SOCKET_ERROR_neg. lia.
  - exact Hr.
Qed.

Lemma Recv_zero_eq (recv_errno length : Z) (k : t) :
  length <> 0 ->
  Recv 0 recv_errno length k
  = (SOCKET_ERROR,
     set_error EWOULDBLOCK
       (set_enabled_events (enable_event DE_READ (enabled_events_ k)) k)).
Proof.
  intros Hl. unfold Recv.
  destruct (Z.eqb_spec length 0) as [?|_]; [contradiction|]. reflexivity.
Qed.

(** C1: on a stream socket, when the OS-level recv returns zero bytes for
    a non-empty capacity, [Recv] returns SOCKET_ERROR, leaves EWOULDBLOCK
    in [error_] and re-arms DE_READ in [enabled_events_] (keeping the bits
    already armed and every other field).  No call of [Recv] with a
    non-empty capacity returns zero.  On the next turn of [Wait] the
    descriptor is put in the read set, and when it is found readable with
    end of stream at the peek, the event derived for the socket is
    DE_CLOSE, not DE_READ. *)
Theorem Recv_zero_defers_close (recv_errno length : Z) (k : t) :
  udp_ k = false ->
  length <> 0 ->
  let '(r, k') := Recv 0 recv_errno length k in
  r = SOCKET_ERROR /\ r <> 0
  /\ error_ k' = EWOULDBLOCK
  /\ has_event (enabled_events_ k') DE_READ = true
  /\ (forall de, 0 <= de < 256 -> has_event (enabled_events_ k) de = true ->
                 has_event (enabled_events_ k') de = true)
  /\ s_ k' = s_ k /\ state_ k' = state_ k /\ udp_ k' = udp_ k
  /\ resolver_ k' = resolver_ k
  /\ (forall received errno', fst (Recv received errno' length k) <> 0)
  /\ (forall fdsRead fdsWrite,
        Posix.FD_ISSET (s_ k')
          (fst (Posix.Wait_fd_sets (s_ k')
                  (Posix.SocketDispatcher.GetRequestedEvents k')
                  fdsRead fdsWrite)) = true)
  /\ (forall so_error peek_errno fdsRead fdsWrite,
        has_event (enabled_events_ k') DE_ACCEPT = false ->
        Posix.FD_ISSET (s_ k') fdsRead = true ->
        Posix.FD_ISSET (s_ k') fdsWrite = false ->
        let c := Posix.Wait_events (Posix.as_Dispatcher 0 peek_errno k')
                   so_error fdsRead fdsWrite in
        Posix.ff_of c = DE_CLOSE
        /\ has_event (Posix.ff_of c) DE_CLOSE = true
        /\ has_event (Posix.ff_of c) DE_READ = false).
Proof.
  intros Hudp Hl. rewrite (Recv_zero_eq recv_errno length k Hl).
  set (k' := set_error EWOULDBLOCK
               (set_enabled_events
                  (enable_event DE_READ (enabled_events_ k)) k)).
  assert (Hrd : has_event (enabled_events_ k') DE_READ = true)
    by (apply has_event_enable, DE_READ_range).
  assert (Hclose : forall so_error peek_errno fdsRead fdsWrite,
             has_event (enabled_events_ k') DE_ACCEPT = false ->
             Posix.FD_ISSET (s_ k') fdsRead = true ->
             Posix.FD_ISSET (s_ k') fdsWrite = false ->
             Posix.ff_of
               (Posix.Wait_events (Posix.as_Dispatcher 0 peek_errno k')
                  so_error fdsRead fdsWrite) = DE_CLOSE).
  { intros so_error peek_errno fdsRead fdsWrite Hacc Hr Hw.
    unfold Posix.Wait_events, Posix.as_Dispatcher,
      Posix.SocketDispatcher.GetDescriptor,
      Posix.SocketDispatcher.GetRequestedEvents.
    cbn [Posix.GetDescriptor Posix.GetRequestedEvents
         Posix.IsDescriptorClosed].
    rewrite Hr, Hw, Hacc.
    change (Posix.SocketDispatcher.IsDescriptorClosed 0 peek_errno)
      with true.
    rewrite orb_true_r. reflexivity. }
  repeat match goal with |- _ /\ _ => split end; try reflexivity.
  - pose proof SOCKET_ERROR_neg. lia.
  - exact Hrd.
  - intros de Hde Hhas. apply has_event_enable_keeps; assumption.
  - intros received errno'. apply Recv_nonzero. exact Hl.
  - intros fdsRead fdsWrite.
    unfold Posix.Wait_fd_sets, Posix.SocketDispatcher.GetRequestedEvents.
    rewrite has_event_lor_r, Hrd. simpl. apply FD_ISSET_FD_SET.
  - intros so_error peek_errno fdsRead fdsWrite Hacc Hr Hw.
    cbv zeta. rewrite (Hclose _ _ _ _ Hacc Hr Hw).
    split; [reflexivity|]. split.
    + apply has_event_self, DE_CLOSE_range.
    + apply (has_event_disjoint_sym _ _ DE_READ_CLOSE).
Qed.
End DeferredClose.

Lemma Recv_zero_defers_close_witness :
  let k := {| PhysicalSocket.s_ := 5;
              PhysicalSocket.enabled_events_ := 0;
              PhysicalSocket.udp_ := false;
              PhysicalSocket.error_ := 0;
              PhysicalSocket.state_ := CS_CONNECTED;
              PhysicalSocket.resolver_ := None |} in
  PhysicalSocket.udp_ k = false /\ 16 <> 0
  /\ fst (@PhysicalSocket.Recv linux_headers 0 0 16 k) = -1
  /\ PhysicalSocket.error_ (snd (@PhysicalSocket.Recv linux_headers 0 0 16 k))
     = 11.
Proof.
  intros k.
  assert (Hudp : PhysicalSocket.udp_ k = false) by reflexivity.
  assert (Hl : 16 <> 0) by discriminate.
  pose proof (@Recv_zero_defers_close linux_headers linux_headers_ok
                0 16 k Hudp Hl) as W.
  destruct (@PhysicalSocket.Recv linux_headers 0 0 16 k) as [r k'].
  destruct W as (Hr & _ & He & _).
  repeat split; [exact Hl | exact Hr | exact He].
Defined.

(** ** The events derived by the POSIX [Wait] *)

Section WaitEvents.
Context {H : Headers} {Hok : HeadersOk H}.
Import Posix.

(** C2: in the dispatch loop of the POSIX [Wait], the mask derived for a
    dispatcher is the union of a read part and a write part.  If its
    descriptor is read-ready the read part is DE_ACCEPT when the dispatcher
    requested DE_ACCEPT, else DE_CLOSE when the harvested SO_ERROR is not
    zero or [IsDescriptorClosed] holds, else DE_READ.  If it is write-ready
    the write part is DE_CONNECT when DE_CONNECT was requested and SO_ERROR
    is zero, DE_CLOSE when DE_CONNECT was requested and SO_ERROR is not
    zero, else DE_WRITE.  The error passed on is the harvested SO_ERROR.
    Bit by bit, this decides each of the five events of the mask. *)
Theorem Wait_events_classification (d : Dispatcher) (so_error : Z)
    (fdsRead fdsWrite : fd_set) :
  let rd := FD_ISSET (GetDescriptor d) fdsRead in
  let wr := FD_ISSET (GetDescriptor d) fdsWrite in
  let accept := has_event (GetRequestedEvents d) DE_ACCEPT in
  let connect := has_event (GetRequestedEvents d) DE_CONNECT in
  let failed := negb (so_error =? 0) in
  let c := Wait_events d so_error fdsRead fdsWrite in
  ff_of c
  = Z.lor (if rd
           then if accept then DE_ACCEPT
                else if failed || IsDescriptorClosed d then DE_CLOSE
                     else DE_READ
           else 0)
          (if wr
           then if connect
                then if failed then DE_CLOSE else DE_CONNECT
                else DE_WRITE
           else 0)
  /\ (rd || wr = true -> errcode_of c = so_error)
  /\ has_event (ff_of c) DE_ACCEPT = rd && accept
  /\ has_event (ff_of c) DE_READ
     = rd && negb accept && negb (failed || IsDescriptorClosed d)
  /\ has_event (ff_of c) DE_CONNECT = wr && connect && negb failed
  /\ has_event (ff_of c) DE_WRITE = wr && negb connect
  /\ has_event (ff_of c) DE_CLOSE
     = (rd && negb accept && (failed || IsDescriptorClosed d))
       || (wr && connect && failed).
Proof.
  cbv zeta.
  assert (Hbits :
    forall (rd wr accept connect ok closed : bool) (ff : Z),
      ff = Z.lor (if rd
                  then if accept then DE_ACCEPT
                       else if negb ok || closed then DE_CLOSE else DE_READ
                  else 0)
                 (if wr
                  then if connect
                       then if negb ok then DE_CLOSE else DE_CONNECT
                       else DE_WRITE
                  else 0) ->
      has_event ff DE_ACCEPT = rd && accept
      /\ has_event ff DE_READ
         = rd && negb accept && negb (negb ok || closed)
      /\ has_event ff DE_CONNECT = wr && connect && negb (negb ok)
      /\ has_event ff DE_WRITE = wr && negb connect
      /\ has_event ff DE_CLOSE
         = (rd && negb accept && (negb ok || closed))
           || (wr && connect && negb ok)).
  { intros rd wr accept connect ok closed ff ->.
    destruct rd, wr, accept, connect, ok, closed; simpl;
      repeat match goal with |- _ /\ _ => split end;
      de_simpl; reflexivity. }
  assert (Hff : ff_of (Wait_events d so_error fdsRead fdsWrite)
    = Z.lor (if FD_ISSET (GetDescriptor d) fdsRead
             then if has_event (GetRequestedEvents d) DE_ACCEPT
                  then DE_ACCEPT
                  else if negb (so_error =? 0) || IsDescriptorClosed d
                       then DE_CLOSE else DE_READ
             else 0)
            (if FD_ISSET (GetDescriptor d) fdsWrite
             then if has_event (GetRequestedEvents d) DE_CONNECT
                  then if negb (so_error =? 0) then DE_CLOSE else DE_CONNECT
                  else DE_WRITE
             else 0)).
  { unfold Wait_events.
    destruct (FD_ISSET (GetDescriptor d) fdsRead),
      (FD_ISSET (GetDescriptor d) fdsWrite); simpl;
      destruct (has_event (GetRequestedEvents d) DE_ACCEPT),
        (has_event (GetRequestedEvents d) DE_CONNECT),
        (so_error =? 0), (IsDescriptorClosed d); simpl;
      rewrite ?Z.lor_0_r; reflexivity. }
  split; [exact Hff|]. split.
  - unfold Wait_events. intros ->.
    destruct (FD_ISSET (GetDescriptor d) fdsRead),
      (FD_ISSET (GetDescriptor d) fdsWrite); simpl;
      destruct (has_event (GetRequestedEvents d) DE_ACCEPT),
        (has_event (GetRequestedEvents d) DE_CONNECT),
        (so_error =? 0), (IsDescriptorClosed d); reflexivity.
  - apply (Hbits _ _ _ _ (so_error =? 0) _ _ Hff).
Qed.
End WaitEvents.

Lemma Wait_events_classification_witness :
  Posix.ff_of
    (@Posix.Wait_events linux_headers
       {| Posix.GetDescriptor := 5; Posix.GetRequestedEvents := 3;
          Posix.IsDescriptorClosed := true |} 0 [5] [5]) = 10.
Proof.
  exact (proj1 (@Wait_events_classification linux_headers linux_headers_ok
                  {| Posix.GetDescriptor := 5; Posix.GetRequestedEvents := 3;
                     Posix.IsDescriptorClosed := true |} 0 [5] [5])).
Defined.

(** ** The signals of [OnEvent] *)

Section PosixOnEvent.
Context {H : Headers} {A : Type} (hs : Handlers A PhysicalSocket.t).
Import PhysicalSocket Posix.SocketDispatcher.

Lemma step_trace (c : bool) (b : Branch) (sg : Signal)
    (slot : A -> t -> A * t) (de : Z) (st : A * t * list Emission) :
  exists e,
    snd (if c then emit b sg slot (update (clear de) st) else st)
    = snd st ++ opt c e
    /\ branch e = b /\ signal e = sg
    /\ has_event (enabled_at_emission e) de = false.
Proof.
  destruct st as [[a k] tr]. destruct c.
  - unfold emit, update, clear. simpl.
    destruct (slot a _) as [a' k']. simpl.
    eexists. split; [reflexivity|]. simpl.
    split; [reflexivity|]. split; [reflexivity|]. apply has_event_disable.
  - exists {| branch := b; signal := sg; enabled_at_emission := 0 |}.
    simpl. rewrite app_nil_r.
    split; [reflexivity|]. split; [reflexivity|]. split; [reflexivity|].
    apply has_event_0_l.
Qed.

Lemma close_trace (c : bool) (err : Z) (st : A * t * list Emission) :
  exists e,
    snd (if c then emit on_DE_CLOSE (SignalCloseEvent err)
                     (close_slot hs err) (update (set_enabled_events 0) st)
         else st)
    = snd st ++ opt c e
    /\ branch e = on_DE_CLOSE /\ signal e = SignalCloseEvent err
    /\ enabled_at_emission e = 0.
Proof.
  destruct st as [[a k] tr]. destruct c.
  - unfold emit, update. simpl.
    destruct (close_slot hs err a _) as [a' k']. simpl.
    eexists. split; [reflexivity|]. simpl. repeat split.
  - exists {| branch := on_DE_CLOSE; signal := SignalCloseEvent err;
              enabled_at_emission := 0 |}.
    simpl. rewrite app_nil_r. repeat split.
Qed.

(* The trace of [OnEvent]: one optional emission per branch, in the order
   of the text. *)
Lemma OnEvent_trace (ff err : Z) (a : A) (k : t) :
  exists e1 e2 e3 e4 e5,
    snd (OnEvent hs ff err a k)
    = opt (has_event ff DE_READ) e1 ++ opt (has_event ff DE_WRITE) e2
      ++ opt (has_event ff DE_CONNECT) e3 ++ opt (has_event ff DE_ACCEPT) e4
      ++ opt (has_event ff DE_CLOSE) e5
    /\ (branch e1 = on_DE_READ /\ signal e1 = SignalReadEvent
        /\ has_event (enabled_at_emission e1) DE_READ = false)
    /\ (branch e2 = on_DE_WRITE /\ signal e2 = SignalWriteEvent
        /\ has_event (enabled_at_emission e2) DE_WRITE = false)
    /\ (branch e3 = on_DE_CONNECT /\ signal e3 = SignalConnectEvent
        /\ has_event (enabled_at_emission e3) DE_CONNECT = false)
    /\ (branch e4 = on_DE_ACCEPT /\ signal e4 = SignalReadEvent
        /\ has_event (enabled_at_emission e4) DE_ACCEPT = false)
    /\ (branch e5 = on_DE_CLOSE /\ signal e5 = SignalCloseEvent err
        /\ enabled_at_emission e5 = 0).
Proof.
  unfold OnEvent. cbv zeta.
  destruct (step_trace (has_event ff DE_READ) on_DE_READ SignalReadEvent
              (read_slot hs) DE_READ (a, k, [])) as (e1 & T1 & P1).
  set (st1 := if has_event ff DE_READ then _ else _) in *.
  destruct (step_trace (has_event ff DE_WRITE) on_DE_WRITE SignalWriteEvent
              (write_slot hs) DE_WRITE st1) as (e2 & T2 & P2).
  set (st2 := if has_event ff DE_WRITE then _ else _) in *.
  destruct (step_trace (has_event ff DE_CONNECT) on_DE_CONNECT
              SignalConnectEvent (connect_slot hs) DE_CONNECT st2)
    as (e3 & T3 & P3).
  set (st3 := if has_event ff DE_CONNECT then _ else _) in *.
  destruct (step_trace (has_event ff DE_ACCEPT) on_DE_ACCEPT
              SignalReadEvent (read_slot hs) DE_ACCEPT st3)
    as (e4 & T4 & P4).
  set (st4 := if has_event ff DE_ACCEPT then _ else _) in *.
  destruct (close_trace (has_event ff DE_CLOSE) err st4) as (e5 & T5 & P5).
  exists e1, e2, e3, e4, e5.
  split; [|repeat split; tauto].
  rewrite T5, T4, T3, T2, T1. simpl. rewrite <- !app_assoc. reflexivity.
Qed.
End PosixOnEvent.

Lemma filter_in_code_order (f : Branch -> bool) :
  in_code_order (filter f branches_in_order).
Proof.
  unfold in_code_order, branches_in_order. simpl.
  destruct (f on_DE_READ), (f on_DE_WRITE), (f on_DE_CONNECT),
    (f on_DE_ACCEPT), (f on_DE_CLOSE); simpl; repeat constructor.
Qed.

Lemma filter_socket_events_in_code_order (f : Branch -> bool) :
  in_code_order
    (filter f [on_DE_READ; on_DE_WRITE; on_DE_CONNECT; on_DE_ACCEPT]).
Proof.
  unfold in_code_order. simpl.
  destruct (f on_DE_READ), (f on_DE_WRITE), (f on_DE_CONNECT),
    (f on_DE_ACCEPT); simpl; repeat constructor.
Qed.

Section PosixOnEventOrder.
Context {H : Headers} {A : Type} (hs : Handlers A PhysicalSocket.t).
Import PhysicalSocket Posix.SocketDispatcher.

(* Which branches emit, and what. *)
Lemma OnEvent_branches (ff err : Z) (a : A) (k : t) :
  map (fun e => (branch e, signal e)) (snd (OnEvent hs ff err a k))
  = map (fun b => (b, signal_of_branch err b))
      (filter (fun b => has_event ff (branch_event b)) branches_in_order).
Proof.
  destruct (OnEvent_trace hs ff err a k)
    as (e1 & e2 & e3 & e4 & e5 & T & (B1 & S1 & _) & (B2 & S2 & _)
        & (B3 & S3 & _) & (B4 & S4 & _) & (B5 & S5 & _)).
  rewrite T. unfold branches_in_order.
  cbn [filter branch_event].
  destruct (has_event ff DE_READ), (has_event ff DE_WRITE),
    (has_event ff DE_CONNECT), (has_event ff DE_ACCEPT),
    (has_event ff DE_CLOSE); simpl;
    rewrite ?B1, ?S1, ?B2, ?S2, ?B3, ?S3, ?B4, ?S4, ?B5, ?S5; reflexivity.
Qed.

Lemma OnEvent_branch_list (ff err : Z) (a : A) (k : t) :
  map branch (snd (OnEvent hs ff err a k))
  = filter (fun b => has_event ff (branch_event b)) branches_in_order.
Proof.
  pose proof (f_equal (map fst) (OnEvent_branches ff err a k)) as E.
  rewrite !map_map in E. simpl in E. rewrite map_id in E. exact E.
Qed.
End PosixOnEventOrder.

(** C3: for every SocketDispatcher, whatever the connected slots do, and
    every event mask passed to [OnEvent]: each bit of the mask is delivered
    by its own branch; the signal of the DE_READ, DE_WRITE, DE_CONNECT or
    DE_ACCEPT branch is emitted with that bit already cleared from
    [enabled_events_]; the close signal is emitted with [enabled_events_]
    already zero. *)
Theorem OnEvent_clears_before_emitting {H : Headers} {A : Type}
    (hs : Handlers A PhysicalSocket.t) (ff err : Z) (a : A)
    (k : PhysicalSocket.t) :
  let tr := snd (Posix.SocketDispatcher.OnEvent hs ff err a k) in
  Forall cleared_before tr
  /\ (forall b, In b (map branch tr)
                <-> has_event ff (branch_event b) = true)
  /\ Forall (fun e => signal e = signal_of_branch err (branch e)) tr.
Proof.
  intros tr. split; [|split].
  - subst tr.
    destruct (OnEvent_trace hs ff err a k)
      as (e1 & e2 & e3 & e4 & e5 & T & (B1 & _ & C1) & (B2 & _ & C2)
          & (B3 & _ & C3) & (B4 & _ & C4) & (B5 & _ & C5)).
    rewrite T.
    assert (K1 : cleared_before e1) by (unfold cleared_before; rewrite B1; exact C1).
    assert (K2 : cleared_before e2) by (unfold cleared_before; rewrite B2; exact C2).
    assert (K3 : cleared_before e3) by (unfold cleared_before; rewrite B3; exact C3).
    assert (K4 : cleared_before e4) by (unfold cleared_before; rewrite B4; exact C4).
    assert (K5 : cleared_before e5) by (unfold cleared_before; rewrite B5; exact C5).
    repeat (apply Forall_app; split);
      match goal with |- Forall _ (opt ?c _) => destruct c end;
      simpl; auto.
  - intros b. subst tr. rewrite OnEvent_branch_list, filter_In.
    split; [tauto|]. intros Hb. split; [|exact Hb].
    unfold branches_in_order. destruct b; simpl; tauto.
  - subst tr. pose proof (OnEvent_branches hs ff err a k) as E.
    remember (snd (Posix.SocketDispatcher.OnEvent hs ff err a k)) as tr.
    clear Heqtr.
    remember (filter (fun b => has_event ff (branch_event b))
                branches_in_order) as bs.
    clear Heqbs. revert bs E.
    induction tr as [|e tr IH]; intros bs E; [constructor|].
    destruct bs as [|b bs]; [discriminate|].
    simpl in E. injection E as Eb Es E.
    constructor; [|exact (IH bs E)].
    rewrite Es, Eb. reflexivity.
Qed.

Section Win32OnEvent.
Context {H : Headers} {A : Type}
        (hs : Handlers A Win32.SocketDispatcher.t).
Import Win32.SocketDispatcher.

Lemma deliver_trace (guard : t -> bool) (de : Z) (b : Branch) (sg : Signal)
    (slot : A -> t -> A * t) (st : A * t * list Emission) :
  exists e,
    snd (deliver guard de b sg slot st)
    = snd st ++ opt (guard (snd (fst st))) e
    /\ branch e = b /\ signal e = sg.
Proof.
  destruct st as [[a d] tr]. unfold deliver. simpl.
  destruct (guard d).
  - unfold emit. destruct (slot a (clear de d)) as [a' d']. simpl.
    eexists. split; [reflexivity|]. split; reflexivity.
  - exists {| branch := b; signal := sg; enabled_at_emission := 0 |}.
    simpl. rewrite app_nil_r. split; [reflexivity|]. split; reflexivity.
Qed.

(* The trace of the WIN32 [OnEvent]: the branches that fire are among
   those whose bit is in the mask, in the order of the text; the DE_CLOSE
   branch emits nothing. *)
Lemma Win32_OnEvent_branches (ff err : Z) (a : A) (d : t) :
  exists fired : Branch -> bool,
    map (fun e => (branch e, signal e)) (snd (OnEvent hs ff err a d))
    = map (fun b => (b, signal_of_branch err b))
        (filter fired
           [on_DE_READ; on_DE_WRITE; on_DE_CONNECT; on_DE_ACCEPT])
    /\ (forall b, fired b = true -> has_event ff (branch_event b) = true)
    /\ fired on_DE_READ = has_event ff DE_READ.
Proof.
  unfold OnEvent. cbv zeta.
  destruct (deliver_trace (fun _ => has_event ff DE_READ) DE_READ
              on_DE_READ SignalReadEvent (read_slot hs) (a, d, []))
    as (e1 & T1 & B1 & S1).
  set (st1 := deliver _ DE_READ _ _ _ _) in *.
  destruct (deliver_trace
              (fun d' => has_event ff DE_WRITE && (id_ d' =? id_ d))
              DE_WRITE on_DE_WRITE SignalWriteEvent (write_slot hs) st1)
    as (e2 & T2 & B2 & S2).
  set (st2 := deliver _ DE_WRITE _ _ _ _) in *.
  destruct (deliver_trace
              (fun d' => has_event ff DE_CONNECT && (id_ d' =? id_ d))
              DE_CONNECT on_DE_CONNECT SignalConnectEvent
              (connect_slot hs) st2)
    as (e3 & T3 & B3 & S3).
  set (st3 := deliver _ DE_CONNECT _ _ _ _) in *.
  destruct (deliver_trace
              (fun d' => has_event ff DE_ACCEPT && (id_ d' =? id_ d))
              DE_ACCEPT on_DE_ACCEPT SignalReadEvent (read_slot hs) st3)
    as (e4 & T4 & B4 & S4).
  set (st4 := deliver _ DE_ACCEPT _ _ _ _) in *.
  cbv beta in T1, T2, T3, T4.
  set (c2 := has_event ff DE_WRITE && (id_ (snd (fst st1)) =? id_ d)) in *.
  set (c3 := has_event ff DE_CONNECT && (id_ (snd (fst st2)) =? id_ d)) in *.
  set (c4 := has_event ff DE_ACCEPT && (id_ (snd (fst st3)) =? id_ d)) in *.
  exists (fun b => match b with
                   | on_DE_READ => has_event ff DE_READ
                   | on_DE_WRITE => c2
                   | on_DE_CONNECT => c3
                   | on_DE_ACCEPT => c4
                   | on_DE_CLOSE => false
                   end).
  split; [|split].
  - assert (E : snd (let '(a0, d0, tr) := st4 in
                     if has_event ff DE_CLOSE && (id_ d0 =? id_ d)
                     then (a0, {| base := base d0; id_ := id_ d0;
                                  signal_close_ := true;
                                  signal_err_ := err |}, tr)
                     else st4) = snd st4).
    { destruct st4 as [[a0 d0] tr0].
      destruct (has_event ff DE_CLOSE && (id_ d0 =? id_ d)); reflexivity. }
    rewrite E, T4, T3, T2, T1. simpl.
    destruct (has_event ff DE_READ), c2, c3, c4; simpl;
      rewrite ?B1, ?S1, ?B2, ?S2, ?B3, ?S3, ?B4, ?S4; reflexivity.
  - intros b Hb. destruct b; simpl; try discriminate.
    + exact Hb.
    + subst c2. apply andb_true_iff in Hb. tauto.
    + subst c3. apply andb_true_iff in Hb. tauto.
    + subst c4. apply andb_true_iff in Hb. tauto.
  - reflexivity.
Qed.
End Win32OnEvent.

(** C4, as the code has it: in one call of [OnEvent] the signals are
    emitted in the order of the branches DE_READ, DE_WRITE, DE_CONNECT,
    DE_ACCEPT, DE_CLOSE, the DE_ACCEPT branch emitting the read signal: an
    ACCEPT-derived read signal comes after any write or connect signal of
    the batch.  The POSIX dispatcher emits one signal for each bit of the
    mask.  The WIN32 dispatcher emits signals for DE_READ and for those of
    DE_WRITE, DE_CONNECT and DE_ACCEPT that pass the identity check, in the
    same order, and no close signal inside [OnEvent]. *)
Theorem OnEvent_signal_order {H : Headers} {A : Type}
    (hs : Handlers A PhysicalSocket.t)
    (hsw : Handlers A Win32.SocketDispatcher.t)
    (ff err : Z) (a : A) (k : PhysicalSocket.t)
    (d : Win32.SocketDispatcher.t) :
  let tr := snd (Posix.SocketDispatcher.OnEvent hs ff err a k) in
  let trw := snd (Win32.SocketDispatcher.OnEvent hsw ff err a d) in
  map (fun e => (branch e, signal e)) tr
  = map (fun b => (b, signal_of_branch err b))
      (filter (fun b => has_event ff (branch_event b)) branches_in_order)
  /\ in_code_order (map branch tr)
  /\ (exists fired : Branch -> bool,
        map (fun e => (branch e, signal e)) trw
        = map (fun b => (b, signal_of_branch err b))
            (filter fired
               [on_DE_READ; on_DE_WRITE; on_DE_CONNECT; on_DE_ACCEPT])
        /\ (forall b, fired b = true -> has_event ff (branch_event b) = true)
        /\ fired on_DE_READ = has_event ff DE_READ)
  /\ in_code_order (map branch trw).
Proof.
  intros tr trw. split; [|split; [|split]].
  - apply OnEvent_branches.
  - subst tr. rewrite OnEvent_branch_list. apply filter_in_code_order.
  - apply Win32_OnEvent_branches.
  - destruct (Win32_OnEvent_branches hsw ff err a d) as (fired & E & _).
    apply (f_equal (map fst)) in E. rewrite !map_map in E. simpl in E.
    rewrite map_id in E.
    assert (E' : map branch trw
                 = filter fired
                     [on_DE_READ; on_DE_WRITE; on_DE_CONNECT; on_DE_ACCEPT])
      by exact E.
    rewrite E'. apply filter_socket_events_in_code_order.
Qed.

(** C4, as stated, fails: a mask with DE_ACCEPT and DE_WRITE makes the POSIX
    [OnEvent] emit the write signal first and the ACCEPT-derived read signal
    after it. *)
Lemma OnEvent_accept_after_write :
  let k := @PhysicalSocket.new linux_headers 5 1 false in
  let tr := snd (@Posix.SocketDispatcher.OnEvent linux_headers unit
                   (idle_handlers _) 18 0 tt k) in
  map (fun e => (branch e, signal e)) tr
  = [(on_DE_WRITE, SignalWriteEvent); (on_DE_ACCEPT, SignalReadEvent)]
  /\ ~ in_spec_order (map branch tr).
Proof.
  split; [reflexivity|].
  intros Hs. unfold in_spec_order in Hs. simpl in Hs.
  inversion Hs as [|x l _ Hall]; subst.
  inversion Hall as [|y l' Hle _]; subst.
  unfold spec_rank in Hle. inversion Hle.
Qed.

(** ** The registry: [find], [erase], [Add], [Remove] *)

Section Registry.
Import PhysicalSocketServer.

Lemma find_le (d : Dispatcher) (l : list Dispatcher) :
  (find d l <= List.length l)%nat.
Proof.
  induction l as [|x l IH]; simpl; [lia|].
  destruct (Nat.eqb x d); lia.
Qed.

Lemma find_In (d : Dispatcher) (l : list Dispatcher) :
  In d l <-> (find d l < List.length l)%nat.
Proof.
  induction l as [|x l IH]; simpl.
  - split; [tauto | lia].
  - destruct (Nat.eqb_spec x d) as [->|Hx].
    + split; [lia | auto].
    + rewrite <- Nat.succ_lt_mono, <- IH. split; [|tauto].
      intros [E|E]; [contradiction | exact E].
Qed.


Lemma Remove_Some (d : Dispatcher) (ss : t) :
  In d (dispatchers_ ss) ->
  Remove d ss
  = Some {| dispatchers_ := erase (find d (dispatchers_ ss))
                              (dispatchers_ ss);
            iterators_ :=
              map (fun it => if Nat.ltb (find d (dispatchers_ ss)) it
                             then Nat.pred it else it)
                  (iterators_ ss) |}.
Proof.
  intros Hin. unfold Remove. apply find_In in Hin.
  destruct (Nat.eqb_spec (find d (dispatchers_ ss))
              (List.length (dispatchers_ ss))); [lia | reflexivity].
Qed.

Lemma Remove_None (d : Dispatcher) (ss : t) :
  ~ In d (dispatchers_ ss) -> Remove d ss = None.
Proof.
  intros Hin. unfold Remove. rewrite find_In in Hin.
  pose proof (find_le d (dispatchers_ ss)).
  destruct (Nat.eqb_spec (find d (dispatchers_ ss))
              (List.length (dispatchers_ ss))); [reflexivity | lia].
Qed.
End Registry.

(** ** Close *)

Section CloseTwice.
Context {H : Headers}.
Import PhysicalSocket.

Lemma Create_valid (os : CreateOS) (type : Z) (k0 : t) :
  fst (Create os type k0) = true ->
  s_ (snd (Create os type k0)) <> INVALID_SOCKET.
Proof.
  unfold Create, Create_socket. simpl.
  destruct (SOCK_DGRAM =? type); simpl;
    destruct (Z.eqb_spec (socket_ret os) INVALID_SOCKET);
    simpl; congruence.
Qed.

Lemma SocketDispatcher_Create_registers
    (this : PhysicalSocketServer.Dispatcher) (os : CreateOS) (type : Z)
    (ss0 : PhysicalSocketServer.t) (k0 : t)
    (ss' : PhysicalSocketServer.t) (k' : t) :
  Posix.SocketDispatcher.Create this os type ss0 k0 = Some (true, ss', k') ->
  s_ k' <> INVALID_SOCKET
  /\ In this (PhysicalSocketServer.dispatchers_ ss').
Proof.
  unfold Posix.SocketDispatcher.Create.
  destruct (Posix.SocketDispatcher.Close this _ _ ss0 k0)
    as [[[r ss1] k1]|]; [|discriminate].
  destruct (Create_socket os type k1) as [ok k2] eqn:Ec.
  destruct ok; simpl; [|discriminate].
  intros E. injection E as <- <-. split.
  - unfold Create_socket in Ec. injection Ec as Eok <-. simpl in *.
    destruct (SOCK_DGRAM =? type); simpl in *;
      destruct (Z.eqb_spec (socket_ret os) INVALID_SOCKET);
      simpl in *; congruence.
  - apply Add_In.
Qed.

(** C6, as the code has it: for every socket that holds a handle, as it
    does after a successful create, the first close returns what the
    operating system's close of the handle returned (zero when that
    succeeded) and leaves the socket without handle, in state CS_CLOSED,
    with no enabled event and no resolver; a second close returns zero and
    changes nothing.  The same holds of the close of a registered POSIX
    SocketDispatcher, whose first close also removes it from the registry
    and whose second close leaves the registry alone. *)
Theorem Close_twice (k : t) (r1 e1 r2 e2 : Z)
    (this : PhysicalSocketServer.Dispatcher)
    (ss : PhysicalSocketServer.t) :
  s_ k <> INVALID_SOCKET ->
  In this (PhysicalSocketServer.dispatchers_ ss) ->
  let '(ret1, k1) := Close r1 e1 k in
  let '(ret2, k2) := Close r2 e2 k1 in
  ret1 = r1 /\ (r1 = 0 -> ret1 = 0) /\ ret2 = 0
  /\ s_ k1 = INVALID_SOCKET /\ state_ k1 = CS_CLOSED
  /\ enabled_events_ k1 = 0
  /\ (forall de, has_event (enabled_events_ k1) de = false)
  /\ resolver_ k1 = None
  /\ k2 = k1
  /\ (exists ss1,
        PhysicalSocketServer.Remove this ss = Some ss1
        /\ Posix.SocketDispatcher.Close this r1 e1 ss k = Some (r1, ss1, k1)
        /\ Posix.SocketDispatcher.Close this r2 e2 ss1 k1
           = Some (0, ss1, k1))
  /\ (forall os type k0,
        fst (Create os type k0) = true ->
        s_ (snd (Create os type k0)) <> INVALID_SOCKET)
  /\ (forall os type ss0 k0 ss' k',
        Posix.SocketDispatcher.Create this os type ss0 k0
        = Some (true, ss', k') ->
        s_ k' <> INVALID_SOCKET
        /\ In this (PhysicalSocketServer.dispatchers_ ss')).
Proof.
  intros Hs Hin.
  assert (E1 : Close r1 e1 k
               = (r1, {| s_ := INVALID_SOCKET; enabled_events_ := 0;
                         udp_ := udp_ k; error_ := e1;
                         state_ := CS_CLOSED; resolver_ := None |})).
  { unfold Close. destruct (Z.eqb_spec (s_ k) INVALID_SOCKET) as [E|_];
      [contradiction|].
    destruct k as [s en udp er st [rs|]]; reflexivity. }
  rewrite E1.
  set (k1 := {| s_ := INVALID_SOCKET; enabled_events_ := 0; udp_ := udp_ k;
                error_ := e1; state_ := CS_CLOSED; resolver_ := None |}).
  assert (E2 : Close r2 e2 k1 = (0, k1)).
  { unfold Close. simpl. rewrite Z.eqb_refl. reflexivity. }
  rewrite E2.
  repeat match goal with |- _ /\ _ => split end;
    try reflexivity; try (intros de; apply has_event_0_l);
    try (intros E0; exact E0).
  - eexists. split; [exact (Remove_Some this ss Hin)|].
    unfold Posix.SocketDispatcher.Close.
    destruct (Z.eqb_spec (s_ k) INVALID_SOCKET) as [E|_]; [contradiction|].
    rewrite (Remove_Some this ss Hin), E1. simpl. rewrite Z.eqb_refl.
    split; reflexivity.
  - apply Create_valid.
  - apply SocketDispatcher_Create_registers.
Qed.
End CloseTwice.

Lemma Close_twice_witness :
  let k := snd (@PhysicalSocket.Create linux_headers
                  {| PhysicalSocket.closesocket_ret := 0;
                     PhysicalSocket.closesocket_errno := 0;
                     PhysicalSocket.socket_ret := 5;
                     PhysicalSocket.socket_errno := 0 |} 1
                  (@PhysicalSocket.new linux_headers (-1) 0 false)) in
  let ss := {| PhysicalSocketServer.dispatchers_ := [7%nat];
               PhysicalSocketServer.iterators_ := [] |} in
  PhysicalSocket.s_ k <> @INVALID_SOCKET linux_headers
  /\ In 7%nat (PhysicalSocketServer.dispatchers_ ss)
  /\ fst (PhysicalSocket.Close 0 0 k) = 0
  /\ PhysicalSocket.state_ (snd (PhysicalSocket.Close 0 0 k)) = CS_CLOSED.
Proof.
  intros k ss.
  assert (Hs : PhysicalSocket.s_ k <> @INVALID_SOCKET linux_headers)
    by discriminate.
  assert (Hin : In 7%nat (PhysicalSocketServer.dispatchers_ ss))
    by (left; reflexivity).
  pose proof (@Close_twice linux_headers k 0 0 0 0 7%nat ss Hs Hin) as W.
  destruct (PhysicalSocket.Close 0 0 k) as [ret1 k1].
  destruct (PhysicalSocket.Close 0 0 k1) as [ret2 k2].
  destruct W as (Hr & _ & _ & _ & Hst & _).
  repeat split; [exact Hs | exact Hin | exact Hr | exact Hst].
Defined.

(** C6, as stated, fails: after a successful create, a close whose
    operating-system call reports an error returns that error, not zero. *)
Lemma Close_returns_os_error :
  let created := @PhysicalSocket.Create linux_headers
                   {| PhysicalSocket.closesocket_ret := 0;
                      PhysicalSocket.closesocket_errno := 0;
                      PhysicalSocket.socket_ret := 5;
                      PhysicalSocket.socket_errno := 0 |} 1
                   (@PhysicalSocket.new linux_headers (-1) 0 false) in
  fst created = true
  /\ fst (PhysicalSocket.Close (-1) 5 (snd created)) = -1
  /\ fst (PhysicalSocket.Close (-1) 5 (snd created)) <> 0.
Proof. repeat split. discriminate. Qed.

(** ** Connect with an unresolved address *)

Section ConnectUnresolved.
Context {H : Headers}.
Import PhysicalSocket.

Lemma ConnState_eqb_eq (a b : ConnState) :
  ConnState_eqb a b = true <-> a = b.
Proof. destruct a, b; simpl; split; congruence. Qed.

(** C7, as the code has it: [Connect] with an unresolved address first
    makes sure the socket holds a handle, creating a stream socket when it
    holds none.  When that creation fails, [Connect] returns SOCKET_ERROR
    and starts no resolver.  Otherwise it fails with error EALREADY when
    the state is not CS_CLOSED, leaving state and resolver as they were;
    and when the state is CS_CLOSED it returns 0, the socket then owning a
    started resolver for the address, wired to [OnResolveResult], and
    being in state CS_CONNECTING. *)
Theorem Connect_unresolved (os : CreateOS) (connect_ret connect_errno : Z)
    (addr : SocketAddress) (k : t) :
  IsUnresolved addr = true ->
  let '(r, k') := Connect os connect_ret connect_errno addr k in
  let has_handle :=
    negb (s_ k =? INVALID_SOCKET)
    || negb (socket_ret os =? INVALID_SOCKET) in
  (has_handle = false ->
     r = SOCKET_ERROR /\ state_ k' = state_ k
     /\ resolver_ k' = resolver_ k /\ s_ k' = INVALID_SOCKET)
  /\ (has_handle = true -> state_ k <> CS_CLOSED ->
        r = SOCKET_ERROR /\ error_ k' = EALREADY
        /\ state_ k' = state_ k /\ resolver_ k' = resolver_ k)
  /\ (has_handle = true -> state_ k = CS_CLOSED ->
        r = 0 /\ state_ k' = CS_CONNECTING
        /\ resolver_ k'
           = Some {| address := addr;
                     SignalWorkDone := Some OnResolveResult_slot;
                     started := true |}
        /\ s_ k' <> INVALID_SOCKET).
Proof.
  intros Hu. unfold Connect.
  destruct (Z.eqb_spec (s_ k) INVALID_SOCKET) as [Es|Es].
  - (* no handle: the implicit Create *)
    unfold Create, Close. rewrite (proj2 (Z.eqb_eq _ _) Es).
    unfold Create_socket. cbn [snd].
    assert (Eu : (SOCK_DGRAM =? SOCK_STREAM) = false \/
                 (SOCK_DGRAM =? SOCK_STREAM) = true)
      by (destruct (SOCK_DGRAM =? SOCK_STREAM); auto).
    destruct k as [s en udp er st rs]. simpl in *.
    destruct (SOCK_DGRAM =? SOCK_STREAM); simpl;
      destruct (Z.eqb_spec (socket_ret os) INVALID_SOCKET) as [Er|Er];
      simpl; rewrite ?Hu; simpl.
    all: try (split; [intros _; repeat split; assumption
                     | split; intros; discriminate]).
    all: destruct st; simpl;
      (split; [intros; discriminate|]);
      split; intros _ Hst; try congruence; repeat split; assumption.
  - (* the socket holds a handle *)
    rewrite Hu. simpl.
    destruct k as [s en udp er st rs]. simpl in *.
    destruct st; simpl;
      (split; [intros; discriminate|]);
      split; intros _ Hst; try congruence; repeat split; assumption.
Qed.
End ConnectUnresolved.

Lemma Connect_unresolved_witness :
  let addr : @SocketAddress linux_headers := (true, 0) in
  let os := {| PhysicalSocket.closesocket_ret := 0;
               PhysicalSocket.closesocket_errno := 0;
               PhysicalSocket.socket_ret := 5;
               PhysicalSocket.socket_errno := 0 |} in
  let k := @PhysicalSocket.new linux_headers (-1) 0 false in
  @IsUnresolved linux_headers addr = true
  /\ fst (PhysicalSocket.Connect os 0 0 addr k) = 0
  /\ PhysicalSocket.state_ (snd (PhysicalSocket.Connect os 0 0 addr k))
     = CS_CONNECTING.
Proof.
  intros addr os k.
  assert (Hu : @IsUnresolved linux_headers addr = true) by reflexivity.
  pose proof (@Connect_unresolved linux_headers os 0 0 addr k Hu) as W.
  destruct (PhysicalSocket.Connect os 0 0 addr k) as [r k'].
  destruct W as (_ & _ & W).
  destruct (W eq_refl eq_refl) as (Hr & Hst & _).
  repeat split; [exact Hr | exact Hst].
Defined.

(** C7, as stated, fails: a socket in state CS_CLOSED that holds no handle,
    when the operating system refuses to create one, returns SOCKET_ERROR
    from [Connect] with an unresolved address, starts no resolver and stays
    in state CS_CLOSED. *)
Lemma Connect_unresolved_create_fails :
  let addr : @SocketAddress linux_headers := (true, 0) in
  let os := {| PhysicalSocket.closesocket_ret := 0;
               PhysicalSocket.closesocket_errno := 0;
               PhysicalSocket.socket_ret := -1;
               PhysicalSocket.socket_errno := 24 |} in
  let k := @PhysicalSocket.new linux_headers (-1) 0 false in
  let '(r, k') := PhysicalSocket.Connect os 0 0 addr k in
  @IsUnresolved linux_headers addr = true
  /\ PhysicalSocket.state_ k = CS_CLOSED
  /\ r = -1 /\ r <> 0
  /\ PhysicalSocket.resolver_ k' = None
  /\ PhysicalSocket.state_ k' = CS_CLOSED
  /\ PhysicalSocket.state_ k' <> CS_CONNECTING.
Proof. simpl. repeat split; discriminate. Qed.

(** ** EstimateMTU on WIN32 *)

Section EstimateMTU.
Context {H : Headers}.
Import PhysicalSocket.

Lemma probe_size (level : nat) :
  (level <= 10)%nat ->
  int32 (uint32 (uint32 (packet_maximum level - IP_HEADER_SIZE)
                 - ICMP_HEADER_SIZE)) = payload level.
Proof.
  intros Hl. unfold payload.
  do 11 (destruct level as [|level]; [reflexivity|]). lia.
Qed.

Lemma ladder_continues (level : nat) :
  (level <= 9)%nat -> (0 <? packet_maximum (level + 1)) = true.
Proof.
  intros Hl.
  do 10 (destruct level as [|level]; [reflexivity|]). lia.
Qed.

(* The loop from [level], all probes from there up to [level + n]
   exclusive reporting too-large. *)
Lemma EstimateMTU_loop_skips (ping : WinPing) (addr : SocketAddress)
    (k : t) (n : nat) :
  forall fuel level probes,
    (level + n <= 10)%nat ->
    (forall j, (level <= j < level + n)%nat ->
               ping_at ping addr j = PING_TOO_LARGE) ->
    EstimateMTU_loop (n + fuel) ping addr level probes k
    = EstimateMTU_loop fuel ping addr (level + n)
        (probes ++ map payload (seq level n)) k.
Proof.
  induction n as [|n IH]; intros fuel level probes Hl Hp.
  - simpl. rewrite Nat.add_0_r, app_nil_r. reflexivity.
  - cbn [Nat.add EstimateMTU_loop].
    rewrite ladder_continues by lia.
    rewrite probe_size by lia.
    pose proof (Hp level ltac:(lia)) as Hlevel. unfold ping_at in Hlevel.
    rewrite Hlevel.
    rewrite IH by (try lia; intros j Hj; apply Hp; lia).
    replace (level + 1 + n)%nat with (level + S n)%nat by lia.
    rewrite <- app_assoc. simpl.
    replace (level + 1)%nat with (S level) by lia. reflexivity.
Qed.

(** C8, as the code has it: on WIN32, for a connected socket and a valid
    pinger, [EstimateMTU] pings the ladder entries from 65535 downwards in
    order, the payload of a ping being the entry minus the 20-byte IP
    header and the 8-byte ICMP header, and stops at the first ping that
    does not report too-large.  Stated for each of the entries 65535,
    32000, 17914, 8166, 4352, 2002, 1492, 1006, 508 and 296: when that
    ping reports failure the call returns -1 with error EINVAL and stores
    nothing; on any other report it returns 0 with the output set to that
    entry. *)
Theorem EstimateMTU_ladder (ping : WinPing) (addr : SocketAddress) (k : t)
    (level : nat) :
  IsAny addr = false ->
  IsValid ping = true ->
  (level <= 9)%nat ->
  (forall j, (j < level)%nat -> ping_at ping addr j = PING_TOO_LARGE) ->
  ping_at ping addr level <> PING_TOO_LARGE ->
  PACKET_MAXIMUMS
  = [65535; 32000; 17914; 8166; 4352; 2002; 1492; 1006; 508; 296; 68; 0]
  /\ payload level = packet_maximum level - 20 - 8
  /\ EstimateMTU addr ping k
     = Some
         (match ping_at ping addr level with
          | PING_FAIL =>
            {| mtu_ret := -1; mtu_out := None;
               mtu_sock := set_error EINVAL k;
               mtu_probes := map payload (seq 0 (S level));
               mtu_assert_false := false |}
          | _ =>
            {| mtu_ret := 0; mtu_out := Some (packet_maximum level);
               mtu_sock := k;
               mtu_probes := map payload (seq 0 (S level));
               mtu_assert_false := false |}
          end).
Proof.
  intros Hany Hvalid Hl Hbig Hhere.
  split; [reflexivity|]. split; [reflexivity|].
  unfold EstimateMTU. rewrite Hany, Hvalid. cbn [negb].
  change (List.length PACKET_MAXIMUMS) with 12%nat.
  replace 12%nat with (level + (12 - level))%nat by lia.
  rewrite (EstimateMTU_loop_skips ping addr k level (12 - level) 0 [])
    by (try lia; intros j Hj; apply Hbig; lia).
  cbn [Nat.add app].
  destruct (12 - level)%nat as [|fuel] eqn:Ef; [lia|].
  cbn [EstimateMTU_loop].
  rewrite ladder_continues by lia.
  rewrite probe_size by lia.
  fold (ping_at ping addr level).
  rewrite seq_S, map_app. cbn [Nat.add map].
  destruct (ping_at ping addr level); try reflexivity.
  contradiction Hhere. reflexivity.
Qed.

(* Whatever the pings report, the call returns: the fuel of the loop is
   never used up. *)
Lemma EstimateMTU_returns (ping : WinPing) (addr : SocketAddress) (k : t) :
  exists res, EstimateMTU addr ping k = Some res.
Proof.
  unfold EstimateMTU.
  destruct (IsAny addr); [eexists; reflexivity|].
  destruct (IsValid ping); [|eexists; reflexivity]. cbn [negb].
  change (List.length PACKET_MAXIMUMS) with 12%nat.
  cbn [EstimateMTU_loop].
  repeat
    (match goal with
     | |- context [if 0 <? packet_maximum ?n then _ else _] =>
       change (0 <? packet_maximum n) with true; cbv iota
     end;
     match goal with
     | |- context [match Ping ?p ?a ?s ?x ?y ?z with _ => _ end] =>
       destruct (Ping p a s x y z); try (eexists; reflexivity)
     end).
Qed.
End EstimateMTU.

Lemma EstimateMTU_ladder_witness :
  let ping := {| PhysicalSocket.IsValid := true;
                 PhysicalSocket.Ping := fun _ size _ _ _ =>
                   if 1464 <? size then PhysicalSocket.PING_TOO_LARGE
                   else PhysicalSocket.PING_other 0 |} in
  let addr : @SocketAddress linux_headers := (false, 167772161) in
  let k := @PhysicalSocket.new linux_headers 5 1 false in
  @IsAny linux_headers addr = false
  /\ PhysicalSocket.IsValid ping = true
  /\ (6 <= 9)%nat
  /\ (forall j, (j < 6)%nat ->
        @ping_at linux_headers ping addr j = PhysicalSocket.PING_TOO_LARGE)
  /\ @ping_at linux_headers ping addr 6 <> PhysicalSocket.PING_TOO_LARGE
  /\ option_map PhysicalSocket.mtu_out (PhysicalSocket.EstimateMTU addr ping k)
     = Some (Some 1492)
  /\ option_map PhysicalSocket.mtu_probes
       (PhysicalSocket.EstimateMTU addr ping k)
     = Some [65507; 31972; 17886; 8138; 4324; 1974; 1464].
Proof.
  intros ping addr k.
  assert (Hany : @IsAny linux_headers addr = false) by reflexivity.
  assert (Hvalid : PhysicalSocket.IsValid ping = true) by reflexivity.
  assert (Hl : (6 <= 9)%nat) by lia.
  assert (Hbig : forall j, (j < 6)%nat ->
            @ping_at linux_headers ping addr j = PhysicalSocket.PING_TOO_LARGE).
  { intros j Hj. do 6 (destruct j as [|j]; [reflexivity|]). lia. }
  assert (Hhere : @ping_at linux_headers ping addr 6
                  <> PhysicalSocket.PING_TOO_LARGE) by discriminate.
  destruct (@EstimateMTU_ladder linux_headers ping addr k 6
              Hany Hvalid Hl Hbig Hhere) as (_ & _ & W).
  rewrite W.
  repeat split; assumption.
Defined.

(** C8, as stated, fails: when the ping for the first entry reports failure,
    a report that is not too-large, the call returns -1 and stores no MTU. *)
Lemma EstimateMTU_ping_fail :
  let ping := {| PhysicalSocket.IsValid := true;
                 PhysicalSocket.Ping := fun _ _ _ _ _ =>
                   PhysicalSocket.PING_FAIL |} in
  let addr : @SocketAddress linux_headers := (false, 167772161) in
  let k := @PhysicalSocket.new linux_headers 5 1 false in
  @ping_at linux_headers ping addr 0 <> PhysicalSocket.PING_TOO_LARGE
  /\ option_map PhysicalSocket.mtu_ret (PhysicalSocket.EstimateMTU addr ping k)
     = Some (-1)
  /\ option_map PhysicalSocket.mtu_out (PhysicalSocket.EstimateMTU addr ping k)
     = Some None
  /\ option_map PhysicalSocket.mtu_probes
       (PhysicalSocket.EstimateMTU addr ping k)
     = Some [65507].
Proof. repeat split. discriminate. Qed.

(* When every ping reports too-large, the loop ends after the entry 296:
   the payload 40 of the entry 68 is not pinged, and the call reaches the
   ASSERT(false) behind the loop. *)
Lemma EstimateMTU_all_too_large :
  let ping := {| PhysicalSocket.IsValid := true;
                 PhysicalSocket.Ping := fun _ _ _ _ _ =>
                   PhysicalSocket.PING_TOO_LARGE |} in
  let addr : @SocketAddress linux_headers := (false, 167772161) in
  let k := @PhysicalSocket.new linux_headers 5 1 false in
  PhysicalSocket.EstimateMTU addr ping k
  = Some {| PhysicalSocket.mtu_ret := -1;
            PhysicalSocket.mtu_out := None;
            PhysicalSocket.mtu_sock := k;
            PhysicalSocket.mtu_probes :=
              [65507; 31972; 17886; 8138; 4324; 1974; 1464; 978; 480; 268];
            PhysicalSocket.mtu_assert_false := true |}.
Proof. reflexivity. Qed.

(** ** The wake-up pipe *)

Section SelfPipe.
Context {H : Headers} {Hok : HeadersOk H}.
Import Posix.EventDispatcher.

Lemma Signal_signaled (r : Z) (e : t) :
  fSignaled_ e = true -> Signal r e = e.
Proof. intros Hf. unfold Signal. rewrite Hf. reflexivity. Qed.

Lemma Signals_signaled (rets : list Z) (e : t) :
  fSignaled_ e = true -> Signals rets e = e.
Proof.
  revert e. induction rets as [|r rets IH]; intros e Hf; [reflexivity|].
  unfold Signals. simpl. rewrite (Signal_signaled r e Hf).
  apply IH. exact Hf.
Qed.

Lemma Signal_keeps_invariant (r : Z) (e : t) :
  at_most_one_pending e -> at_most_one_pending (Signal r e).
Proof.
  destruct e as [f [p n]].
  unfold at_most_one_pending, Signal, pipe_write.
  rewrite VERIFY_value.
  cbn [fSignaled_ afd_ pending written negb].
  destruct f; intros Hp; [exact Hp|]. cbn [negb].
  rewrite (Z.eqb_sym 1 r). destruct (r =? 1);
    cbn [fSignaled_ afd_ pending written].
  - rewrite Hp. reflexivity.
  - exact Hp.
Qed.

Lemma OnPreEvent_keeps_invariant (ff : Z) (e : t) :
  at_most_one_pending e -> at_most_one_pending (OnPreEvent ff e).
Proof.
  destruct e as [f [p n]].
  unfold at_most_one_pending, OnPreEvent, pipe_read. simpl.
  destruct f; simpl; intros Hp; [|exact Hp].
  destruct p as [|b [|b' p]]; simpl in *; try discriminate; reflexivity.
Qed.

(** C9: take the POSIX wake-up dispatcher with its flag clear and any run
    of one or more [Signal] calls with no [OnPreEvent] in between, the
    write of the first call succeeding as its VERIFY asserts.  The first
    call writes one byte and sets the flag; every call made while the flag
    is set writes nothing and changes nothing; so the run writes exactly
    one byte.  [OnPreEvent] then reads that byte and clears the flag.
    Both operations keep the invariant that at most one byte is pending,
    and that one is pending exactly when the flag is set. *)
Theorem Signal_writes_one_byte (e : t) (w : Z) (rets : list Z) (ff : Z) :
  fSignaled_ e = false ->
  VERIFY (1 =? w) = true ->
  let e1 := Signal w e in
  let en := Signals (w :: rets) e in
  (fSignaled_ e1 = true
   /\ written (afd_ e1) = S (written (afd_ e))
   /\ pending (afd_ e1) = pending (afd_ e) ++ [0])
  /\ (forall r e', fSignaled_ e' = true -> Signal r e' = e')
  /\ (en = e1 /\ written (afd_ en) = S (written (afd_ e)))
  /\ (at_most_one_pending e ->
      at_most_one_pending en
      /\ pending (afd_ en) = [0]
      /\ fSignaled_ (OnPreEvent ff en) = false
      /\ pending (afd_ (OnPreEvent ff en)) = []
      /\ written (afd_ (OnPreEvent ff en)) = written (afd_ en)
      /\ at_most_one_pending (OnPreEvent ff en))
  /\ (forall r e', at_most_one_pending e' ->
                   at_most_one_pending (Signal r e'))
  /\ (forall ff' e', at_most_one_pending e' ->
                     at_most_one_pending (OnPreEvent ff' e')).
Proof.
  intros Hf Hw e1 en.
  assert (E1 : e1 = {| fSignaled_ := true;
                       afd_ := {| pending := pending (afd_ e) ++ [0];
                                  written := S (written (afd_ e)) |} |}).
  { subst e1. unfold Signal, pipe_write. rewrite Hf, Hw. simpl.
    rewrite VERIFY_value, Z.eqb_sym in Hw. rewrite Hw. reflexivity. }
  assert (En : en = e1).
  { subst en. unfold Signals. simpl. fold e1.
    apply (Signals_signaled rets e1). rewrite E1. reflexivity. }
  split; [rewrite E1; repeat split|].
  split; [exact Signal_signaled|].
  split; [split; [exact En | rewrite En, E1; reflexivity]|].
  split; [|split; [exact Signal_keeps_invariant
                  | exact OnPreEvent_keeps_invariant]].
  intros Hinv. unfold at_most_one_pending in Hinv. rewrite Hf in Hinv.
  rewrite En, E1. unfold at_most_one_pending, OnPreEvent, pipe_read.
  simpl. rewrite Hinv. simpl. repeat split.
Qed.
End SelfPipe.

Lemma Signal_writes_one_byte_witness :
  let e := Posix.EventDispatcher.new in
  Posix.EventDispatcher.fSignaled_ e = false
  /\ @VERIFY linux_headers (1 =? 1) = true
  /\ Posix.EventDispatcher.written
       (Posix.EventDispatcher.afd_
          (@Posix.EventDispatcher.Signals linux_headers [1; 1; -1; 1] e))
     = 1%nat.
Proof.
  intros e.
  assert (Hf : Posix.EventDispatcher.fSignaled_ e = false) by reflexivity.
  assert (Hw : @VERIFY linux_headers (1 =? 1) = true) by reflexivity.
  destruct (@Signal_writes_one_byte linux_headers linux_headers_ok
              e 1 [1; -1; 1] 1 Hf Hw)
    as (_ & _ & (_ & W) & _).
  split; [exact Hf | split; [exact Hw | exact W]].
Defined.

(** ** Removal during a scan of the registry *)

Section Cursors.
Import PhysicalSocketServer.

Lemma find_middle (d : Dispatcher) (a r : list Dispatcher) :
  ~ In d a -> find d (a ++ d :: r) = List.length a.
Proof.
  induction a as [|x a IH]; simpl; intros Hn.
  - rewrite Nat.eqb_refl. reflexivity.
  - destruct (Nat.eqb_spec x d) as [E|E]; [tauto|].
    rewrite IH by tauto. reflexivity.
Qed.

Lemma erase_middle (d : Dispatcher) (a r : list Dispatcher) :
  erase (List.length a) (a ++ d :: r) = a ++ r.
Proof.
  unfold erase. induction a as [|x a IH]; [reflexivity|].
  cbn [List.length app firstn]. rewrite skipn_cons.
  cbn [app]. f_equal. exact IH.
Qed.

(* [Remove] of a dispatcher at a known place of a registry without
   duplicates. *)
Lemma Remove_at (d : Dispatcher) (a r : list Dispatcher) (ss : t) :
  dispatchers_ ss = a ++ d :: r ->
  NoDup (dispatchers_ ss) ->
  Remove d ss
  = Some {| dispatchers_ := a ++ r;
            iterators_ :=
              map (fun it => if Nat.ltb (List.length a) it
                             then Nat.pred it else it)
                  (iterators_ ss) |}.
Proof.
  intros El Hnd.
  assert (Hin : In d (dispatchers_ ss))
    by (rewrite El; apply in_elt).
  rewrite (Remove_Some d ss Hin), El.
  rewrite El in Hnd. apply NoDup_remove_2 in Hnd.
  rewrite find_middle by (intros Ha; apply Hnd, in_or_app; auto).
  rewrite erase_middle. reflexivity.
Qed.

Lemma Add_NoDup (d : Dispatcher) (ss : t) :
  NoDup (dispatchers_ ss) -> NoDup (dispatchers_ (Add d ss)).
Proof.
  intros Hnd. unfold Add.
  destruct (Nat.eqb_spec (find d (dispatchers_ ss))
              (List.length (dispatchers_ ss))) as [E|E]; simpl;
    [|exact Hnd].
  assert (Hn : ~ In d (dispatchers_ ss)) by (rewrite find_In; lia).
  apply NoDup_app; [exact Hnd | repeat constructor; simpl; tauto |].
  intros x Hx [<-|[]]. exact (Hn Hx).
Qed.





End Cursors.

Section DispatchScan.
Import PhysicalSocketServer Win32.
Context {A : Type}.
Variable callbacks : A -> Dispatcher -> t -> A * list RegistryOp.







End DispatchScan.



(* Dispatcher 10, visited first, removes itself and dispatcher 30; the
   scan goes on with 20 and does not visit 30. *)
Example Wait_dispatch_removal_in_callback :
  Win32.Wait_dispatch
    (fun (a : unit) d _ =>
       (a, if Nat.eqb d 10
           then [Win32.op_Remove 10%nat; Win32.op_Remove 30%nat]
           else []))
    tt
    {| PhysicalSocketServer.dispatchers_ := [10; 20; 30]%nat;
       PhysicalSocketServer.iterators_ := [] |}
  = Win32.Done
      {| Win32.app := tt;
         Win32.server :=
           {| PhysicalSocketServer.dispatchers_ := [20%nat];
              PhysicalSocketServer.iterators_ := [] |};
         Win32.visited := [10; 20]%nat;
         Win32.removed := [10; 30]%nat |}.
Proof. reflexivity. Qed.

(** C5, on a POSIX build: the second loop of the POSIX [Wait] scans
    [dispatchers_] with an index of its own that it does not keep in
    [iterators_], so that [Remove] has no cursor to adjust.  With the
    dispatchers 10, 20, 30 and 40 registered and 20 removing itself when
    it is visited, as a socket closed from its own callback does, the
    loop visits 10, 20 and 40: dispatcher 30, which moved to the place of
    20, stays registered and is not visited in this iteration.  The
    dispatch loop of the WIN32 [Wait], which keeps its cursors in
    [iterators_], visits 10, 20, 30 and 40 on the same input. *)
Theorem Posix_Wait_skips_after_Remove :
  PosixWait.Wait_dispatch (self_removing 20%nat) 5 tt
    {| PhysicalSocketServer.dispatchers_ := [10; 20; 30; 40]%nat;
       PhysicalSocketServer.iterators_ := [] |}
  = Win32.Done
      {| Win32.app := tt;
         Win32.server :=
           {| PhysicalSocketServer.dispatchers_ := [10; 30; 40]%nat;
              PhysicalSocketServer.iterators_ := [] |};
         Win32.visited := [10; 20; 40]%nat;
         Win32.removed := [20%nat] |}
  /\ Win32.Wait_dispatch (self_removing 20%nat) tt
       {| PhysicalSocketServer.dispatchers_ := [10; 20; 30; 40]%nat;
          PhysicalSocketServer.iterators_ := [] |}
     = Win32.Done
         {| Win32.app := tt;
            Win32.server :=
              {| PhysicalSocketServer.dispatchers_ := [10; 30; 40]%nat;
                 PhysicalSocketServer.iterators_ := [] |};
            Win32.visited := [10; 20; 30; 40]%nat;
            Win32.removed := [20%nat] |}.
Proof. split; reflexivity. Qed.

(** * Further properties *)

(** ** What the calls on a socket keep *)

Lemma uint8_range (x : Z) : 0 <= uint8 x < 256.
Proof. unfold uint8. change (2 ^ 8) with 256. apply Z.mod_pos_bound. lia. Qed.

Section SocketInvariant.
Context {H : Headers} {Hok : HeadersOk H}.
Import PhysicalSocket PhysicalSocketOps.

Lemma enable_event_range (de ff : Z) : 0 <= enable_event de ff < 256.
Proof. apply uint8_range. Qed.

Lemma SOCK_DGRAM_STREAM_eqb : (SOCK_DGRAM =? SOCK_STREAM) = false.
Proof.
  apply Z.eqb_neq. intros E. apply SOCK_STREAM_DGRAM. symmetry. exact E.
Qed.

Lemma Close_keeps_invariant (r e : Z) (k : t) :
  handle_invariant k -> handle_invariant (snd (Close r e k)).
Proof.
  intros [Hh Hr]. unfold Close.
  destruct (Z.eqb_spec (s_ k) INVALID_SOCKET) as [E|E]; [split; assumption|].
  destruct k as [s en udp er st [rs|]]; simpl; split; simpl; try lia;
    intros _; split; reflexivity.
Qed.

Lemma Close_closed (r e : Z) (k : t) :
  handle_invariant k ->
  state_ (snd (Close r e k)) = CS_CLOSED
  /\ resolver_ (snd (Close r e k)) = None
  /\ s_ (snd (Close r e k)) = INVALID_SOCKET.
Proof.
  intros [Hh Hr]. unfold Close.
  destruct (Z.eqb_spec (s_ k) INVALID_SOCKET) as [E|E].
  - simpl. destruct (Hh E) as [H1 H2]. repeat split; assumption.
  - destruct k as [s en udp er st [rs|]]; simpl; repeat split.
Qed.

Lemma Create_keeps_invariant (os : CreateOS) (type : Z) (k : t) :
  handle_invariant k -> handle_invariant (snd (Create os type k)).
Proof.
  intros Hk. unfold Create.
  destruct (Close_closed (closesocket_ret os) (closesocket_errno os) k Hk)
    as (Hst & Hrs & _).
  pose proof (Close_keeps_invariant (closesocket_ret os)
                (closesocket_errno os) k Hk) as [_ Hr].
  remember (snd (Close (closesocket_ret os) (closesocket_errno os) k)) as k1.
  clear Heqk1. destruct k1 as [s en udp er st rs]. simpl in *. subst st rs.
  unfold Create_socket. simpl.
  destruct (SOCK_DGRAM =? type); simpl; split; simpl;
    try (intros _; split; reflexivity); try apply uint8_range; exact Hr.
Qed.

Lemma DoConnect_keeps_invariant (cr ce : Z) (k : t) :
  s_ k <> INVALID_SOCKET -> handle_invariant k ->
  handle_invariant (snd (DoConnect cr ce k))
  /\ s_ (snd (DoConnect cr ce k)) = s_ k
  /\ resolver_ (snd (DoConnect cr ce k)) = resolver_ k.
Proof.
  intros Hs [Hh Hr]. unfold DoConnect.
  destruct k as [s en udp er st rs]. simpl in *.
  destruct (cr =? 0); simpl;
    [|destruct (IsBlockingError ce); simpl];
    (split; [split; simpl; [intros E; contradiction|]|split; reflexivity]);
    try apply enable_event_range; exact Hr.
Qed.

Lemma Connect_keeps_invariant (os : CreateOS) (cr ce : Z)
    (addr : SocketAddress) (k : t) :
  handle_invariant k -> handle_invariant (snd (Connect os cr ce addr k)).
Proof.
  intros Hk. unfold Connect.
  assert (Hstep : forall k1 : t, handle_invariant k1 ->
            s_ k1 <> INVALID_SOCKET ->
            handle_invariant
              (snd (if IsUnresolved addr
                    then if negb (ConnState_eqb (state_ k1) CS_CLOSED)
                         then (SOCKET_ERROR, SetError EALREADY k1)
                         else (0, set_state CS_CONNECTING
                                    (set_resolver
                                       (Some {| address := addr;
                                                SignalWorkDone :=
                                                  Some OnResolveResult_slot;
                                                started := true |}) k1))
                    else DoConnect cr ce k1))).
  { intros k1 Hk1 Hs1. destruct (IsUnresolved addr).
    - destruct Hk1 as [Hh Hr].
      destruct (negb (ConnState_eqb (state_ k1) CS_CLOSED)); simpl;
        (split; simpl; [intros E; contradiction | exact Hr]).
    - apply DoConnect_keeps_invariant; assumption. }
  destruct (Z.eqb_spec (s_ k) INVALID_SOCKET) as [E|E].
  - pose proof (Create_keeps_invariant os SOCK_STREAM k Hk) as Hc.
    destruct (Create os SOCK_STREAM k) as [created k1] eqn:Ec.
    simpl in Hc. destruct created; simpl; [|exact Hc].
    apply Hstep; [exact Hc|].
    pose proof (f_equal fst Ec) as Ef. pose proof (f_equal snd Ec) as Es.
    simpl in Ef, Es. rewrite <- Es.
    unfold Create, Create_socket in Ef |- *. simpl in Ef |- *.
    destruct (SOCK_DGRAM =? SOCK_STREAM); simpl in Ef |- *;
      destruct (Z.eqb_spec (socket_ret os) INVALID_SOCKET);
      simpl in Ef; congruence.
  - simpl. apply Hstep; assumption.
Qed.

Lemma OnResolveResult_keeps_invariant (th : SignalThread) (re : Z)
    (ra : SocketAddress) (cr ce clr cle : Z) (k : t) :
  handle_invariant k ->
  handle_invariant
    (snd (fst (OnResolveResult (fun _ (a : unit) k => (a, k))
                 th re ra cr ce clr cle tt k))).
Proof.
  intros Hk. unfold OnResolveResult.
  destruct (thread_is_not_resolver th (resolver_ k)) eqn:Et; [exact Hk|].
  assert (Hs : s_ k <> INVALID_SOCKET).
  { intros E. destruct Hk as [Hh _]. destruct (Hh E) as [_ Hrs].
    rewrite Hrs in Et. destruct th; discriminate. }
  destruct (re =? 0).
  - destruct (DoConnect_keeps_invariant cr ce k Hs Hk) as ([Hh Hr] & Es & _).
    destruct (DoConnect cr ce k) as [error k1]. simpl in *.
    destruct (error =? 0); simpl; [split; assumption|].
    split; simpl; [|exact Hr]. intros E. apply Hh. exact E.
  - pose proof (Close_keeps_invariant clr cle k Hk) as [Hh Hr].
    destruct (Close clr cle k) as [r k1]. simpl in *.
    destruct (re =? 0); simpl; split; simpl; assumption.
Qed.

Lemma run_keeps_invariant (c : Call) (k : t) :
  handle_invariant k -> listen_refused_without_handle c k ->
  handle_invariant (run c k).
Proof.
  intros Hk Hl. destruct c; simpl.
  - apply Create_keeps_invariant. exact Hk.
  - apply Close_keeps_invariant. exact Hk.
  - exact Hk.
  - apply Connect_keeps_invariant. exact Hk.
  - destruct Hk as [Hh Hr]. unfold Send. simpl.
    destruct ((sent <? 0) && IsBlockingError send_errno); simpl;
      split; simpl; try assumption. apply enable_event_range.
  - destruct Hk as [Hh Hr]. unfold SendTo. simpl.
    destruct ((sent <? 0) && IsBlockingError send_errno); simpl;
      split; simpl; try assumption. apply enable_event_range.
  - destruct Hk as [Hh Hr]. unfold Recv.
    destruct ((received =? 0) && negb (length =? 0)); simpl.
    + split; simpl; [assumption | apply enable_event_range].
    + destruct (udp_ k || ((0 <=? received) || IsBlockingError recv_errno));
        simpl; split; simpl; try assumption. apply enable_event_range.
  - destruct Hk as [Hh Hr]. unfold RecvFrom. simpl.
    destruct (udp_ k || ((0 <=? received) || IsBlockingError recv_errno));
      simpl; split; simpl; try assumption. apply enable_event_range.
  - destruct Hk as [Hh Hr]. unfold Listen. simpl in *.
    destruct (Z.eqb_spec listen_ret 0) as [E|E]; simpl;
      split; simpl; try assumption; [|apply enable_event_range].
    intros Es. exfalso. exact (Hl Es E).
  - exact Hk.
  - apply OnResolveResult_keeps_invariant. exact Hk.
Qed.

(** X1: from its construction, with or without handle, and through any
    sequence of Create, Close, Bind, Connect, Send, SendTo, Recv, RecvFrom,
    Listen, SetError and resolver notifications, whatever the operating
    system answers (provided it refuses to listen on a socket without
    handle), a socket without handle is in state CS_CLOSED and owns no
    resolver, and [enabled_events_] stays within a [uint8].  Hence on such
    a socket a Connect with an unresolved address never fails with
    EALREADY: it returns 0 whenever the implicit creation succeeds. *)
Theorem calls_keep_handle_invariant (s so_type : Z) (udp0 : bool)
    (cs : list Call) :
  all_listen_refused cs (new s so_type udp0) ->
  let k := run_all cs (new s so_type udp0) in
  handle_invariant k
  /\ (forall os cr ce addr,
        s_ k = INVALID_SOCKET -> IsUnresolved addr = true ->
        socket_ret os <> INVALID_SOCKET ->
        fst (Connect os cr ce addr k) = 0
        /\ state_ (snd (Connect os cr ce addr k)) = CS_CONNECTING).
Proof.
  intros Hl. cbv zeta.
  assert (Hinv : handle_invariant (run_all cs (new s so_type udp0))).
  { assert (H0 : handle_invariant (new s so_type udp0)).
    { unfold new. simpl.
      destruct (Z.eqb_spec s INVALID_SOCKET) as [E|E]; simpl; split; simpl;
        try lia; try apply uint8_range; try contradiction.
      intros _. split; reflexivity. }
    revert Hl H0. generalize (new s so_type udp0).
    induction cs as [|c cs IH]; intros k [] Hk; [exact Hk|].
    unfold run_all. simpl. apply IH; [assumption|].
    apply run_keeps_invariant; assumption. }
  split; [exact Hinv|].
  intros os cr ce addr Es Hu Hos.
  destruct Hinv as [Hh _]. destruct (Hh Es) as [Hst Hrs].
  remember (run_all cs (new s so_type udp0)) as k. clear Heqk.
  unfold Connect, Create, Close, Create_socket.
  rewrite (proj2 (Z.eqb_eq _ _) Es). simpl.
  rewrite SOCK_DGRAM_STREAM_eqb. simpl.
  destruct (Z.eqb_spec (socket_ret os) INVALID_SOCKET); [contradiction|].
  simpl. rewrite Hu, Hst. simpl. split; reflexivity.
Qed.
End SocketInvariant.

Lemma calls_keep_handle_invariant_witness :
  let os := {| PhysicalSocket.closesocket_ret := 0;
               PhysicalSocket.closesocket_errno := 0;
               PhysicalSocket.socket_ret := 5;
               PhysicalSocket.socket_errno := 0 |} in
  let cs := [@PhysicalSocketOps.call_Connect linux_headers os 0 0 (true, 0);
             PhysicalSocketOps.call_Close 0 0;
             PhysicalSocketOps.call_Listen (-1) 9] in
  let k0 := @PhysicalSocket.new linux_headers (-1) 0 false in
  PhysicalSocketOps.all_listen_refused cs k0
  /\ handle_invariant (PhysicalSocketOps.run_all cs k0).
Proof.
  intros os cs k0.
  assert (Hl : PhysicalSocketOps.all_listen_refused cs k0).
  { simpl. repeat split. intros _. discriminate. }
  split; [exact Hl|].
  exact (proj1 (@calls_keep_handle_invariant linux_headers linux_headers_ok
                  (-1) 0 false cs Hl)).
Defined.

Section EnabledEventsKept.
Context {H : Headers} {Hok : HeadersOk H}.
Import PhysicalSocket PhysicalSocketOps.

Lemma DoConnect_keeps_events (cr ce : Z) (k : t) (de : Z) :
  0 <= de < 256 ->
  has_event (enabled_events_ k) de = true ->
  has_event (enabled_events_ (snd (DoConnect cr ce k))) de = true.
Proof.
  intros Hde Hhas. unfold DoConnect.
  destruct (cr =? 0); simpl;
    [apply has_event_enable_keeps; assumption|].
  destruct (IsBlockingError ce); simpl; [|exact Hhas].
  apply has_event_enable_keeps; [assumption|].
  apply has_event_enable_keeps; assumption.
Qed.

(** X2: no call other than Create, Close and a resolver notification ever
    clears an enabled event: Bind, Connect, Send, SendTo, Recv, RecvFrom,
    Listen and SetError, and also DoConnect and Accept, leave armed every
    event that was armed, whatever the operating system answers.  A Close
    of a socket that holds a handle clears them all. *)
Theorem calls_keep_enabled_events (c : Call) (k : t) (de : Z) :
  0 <= de < 256 ->
  has_event (enabled_events_ k) de = true ->
  (may_clear_events c = false ->
   has_event (enabled_events_ (run c k)) de = true)
  /\ (forall cr ce,
        has_event (enabled_events_ (snd (DoConnect cr ce k))) de = true)
  /\ (forall this_new s e so_type udp0 ss,
        has_event
          (enabled_events_ (snd (Accept this_new s e so_type udp0 ss k))) de
        = true)
  /\ (forall r e x,
        s_ k <> INVALID_SOCKET ->
        has_event (enabled_events_ (snd (Close r e k))) x = false).
Proof.
  intros Hde Hhas. split; [|split; [|split]].
  - intros Hc. destruct c; simpl in Hc; try discriminate; simpl.
    + exact Hhas.
    + (* Connect *)
      unfold Connect.
      assert (Hstep : forall k1 : t,
                has_event (enabled_events_ k1) de = true ->
                has_event
                  (enabled_events_
                     (snd (if IsUnresolved addr
                           then if negb (ConnState_eqb (state_ k1) CS_CLOSED)
                                then (SOCKET_ERROR, SetError EALREADY k1)
                                else (0, set_state CS_CONNECTING
                                           (set_resolver
                                              (Some {| address := addr;
                                                       SignalWorkDone :=
                                                         Some OnResolveResult_slot;
                                                       started := true |})
                                              k1))
                           else DoConnect connect_ret connect_errno k1)))
                  de = true).
      { intros k1 Hk1. destruct (IsUnresolved addr).
        - destruct (negb (ConnState_eqb (state_ k1) CS_CLOSED)); exact Hk1.
        - apply DoConnect_keeps_events; assumption. }
      destruct (Z.eqb_spec (s_ k) INVALID_SOCKET) as [E|E];
        [|simpl; apply Hstep; exact Hhas].
      unfold Create, Close, Create_socket.
      rewrite (proj2 (Z.eqb_eq _ _) E). simpl.
      rewrite SOCK_DGRAM_STREAM_eqb. simpl.
      destruct (socket_ret os =? INVALID_SOCKET); simpl;
        [exact Hhas
        |exact (Hstep (UpdateLastError (socket_errno os)
                         (set_udp false (set_s (socket_ret os) k))) Hhas)].
    + unfold Send. simpl.
      destruct ((sent <? 0) && IsBlockingError send_errno); simpl;
        [apply has_event_enable_keeps; assumption | exact Hhas].
    + unfold SendTo. simpl.
      destruct ((sent <? 0) && IsBlockingError send_errno); simpl;
        [apply has_event_enable_keeps; assumption | exact Hhas].
    + unfold Recv.
      destruct ((received =? 0) && negb (length =? 0)); simpl;
        [apply has_event_enable_keeps; assumption|].
      destruct (udp_ k || ((0 <=? received) || IsBlockingError recv_errno));
        simpl; [apply has_event_enable_keeps; assumption | exact Hhas].
    + unfold RecvFrom. simpl.
      destruct (udp_ k || ((0 <=? received) || IsBlockingError recv_errno));
        simpl; [apply has_event_enable_keeps; assumption | exact Hhas].
    + unfold Listen. simpl.
      destruct (listen_ret =? 0); simpl;
        [apply has_event_enable_keeps; assumption | exact Hhas].
    + exact Hhas.
  - intros cr ce. apply DoConnect_keeps_events; assumption.
  - intros this_new s e so_type udp0 ss. unfold Accept.
    destruct (s =? INVALID_SOCKET); simpl; [exact Hhas|].
    apply has_event_enable_keeps; assumption.
  - intros r e x Hs. unfold Close.
    destruct (Z.eqb_spec (s_ k) INVALID_SOCKET) as [E|_]; [contradiction|].
    destruct k as [s0 en udp er st [rs|]]; simpl; apply has_event_0_l.
Qed.
End EnabledEventsKept.

Lemma calls_keep_enabled_events_witness :
  let k := @PhysicalSocket.new linux_headers 5 1 false in
  0 <= 2 < 256
  /\ has_event (PhysicalSocket.enabled_events_ k) 2 = true
  /\ has_event
       (PhysicalSocket.enabled_events_
          (@PhysicalSocketOps.run linux_headers
             (PhysicalSocketOps.call_Recv (-1) 104 16) k)) 2 = true.
Proof.
  intros k.
  assert (Hde : 0 <= 2 < 256) by lia.
  assert (Hhas : has_event (PhysicalSocket.enabled_events_ k) 2 = true)
    by reflexivity.
  split; [exact Hde|]. split; [exact Hhas|].
  exact (proj1 (@calls_keep_enabled_events linux_headers linux_headers_ok
                  (PhysicalSocketOps.call_Recv (-1) 104 16) k 2 Hde Hhas)
               eq_refl).
Defined.

(** ** Write readiness, connection establishment, listening *)

Lemma has_event_enable_event (x ff de : Z) :
  0 <= de < 256 ->
  has_event (enable_event x ff) de = has_event ff de || has_event x de.
Proof.
  intros Hde. rewrite <- has_event_lor. unfold has_event, enable_event.
  replace (Z.land (uint8 (Z.lor ff x)) de) with (Z.land (Z.lor ff x) de);
    [reflexivity|].
  apply Z.bits_inj'. intros n _.
  rewrite !Z.land_spec, testbit_uint8.
  destruct (Z.testbit de n) eqn:Ed.
  - rewrite (testbit_below_256 de n Hde Ed). reflexivity.
  - rewrite !andb_false_r. reflexivity.
Qed.

Section Readiness.
Context {H : Headers} {Hok : HeadersOk H}.
Import PhysicalSocket PhysicalSocketOps.

Lemma Wait_events_socket (peek_res peek_errno so_error : Z) (k : t)
    (fdsRead fdsWrite : Posix.fd_set) :
  Posix.ff_of (Posix.Wait_events (Posix.as_Dispatcher peek_res peek_errno k)
                 so_error fdsRead fdsWrite)
  = Z.lor (if Posix.FD_ISSET (s_ k) fdsRead
           then if has_event (enabled_events_ k) DE_ACCEPT then DE_ACCEPT
                else if negb (so_error =? 0)
                        || Posix.SocketDispatcher.IsDescriptorClosed
                             peek_res peek_errno
                     then DE_CLOSE else DE_READ
           else 0)
          (if Posix.FD_ISSET (s_ k) fdsWrite
           then if has_event (enabled_events_ k) DE_CONNECT
                then if so_error =? 0 then DE_CONNECT else DE_CLOSE
                else DE_WRITE
           else 0)
  /\ (Posix.FD_ISSET (s_ k) fdsRead || Posix.FD_ISSET (s_ k) fdsWrite = true ->
      Posix.errcode_of
        (Posix.Wait_events (Posix.as_Dispatcher peek_res peek_errno k)
           so_error fdsRead fdsWrite) = so_error).
Proof.
  unfold Posix.Wait_events, Posix.as_Dispatcher,
    Posix.SocketDispatcher.GetDescriptor,
    Posix.SocketDispatcher.GetRequestedEvents.
  cbn [Posix.GetDescriptor Posix.GetRequestedEvents Posix.IsDescriptorClosed].
  destruct (Posix.FD_ISSET (s_ k) fdsRead),
    (Posix.FD_ISSET (s_ k) fdsWrite); simpl;
    destruct (has_event (enabled_events_ k) DE_ACCEPT),
      (has_event (enabled_events_ k) DE_CONNECT), (so_error =? 0),
      (Posix.SocketDispatcher.IsDescriptorClosed peek_res peek_errno);
    simpl; rewrite ?Z.lor_0_r; split; try reflexivity; discriminate.
Qed.

(** X3: a Send that the operating system refuses with a blocking error
    returns the failure and arms DE_WRITE; the next turn of [Wait] then
    puts the descriptor in the write set, and once it is found writable
    (no connect pending) the mask derived for the socket has DE_WRITE.  A
    Send that succeeds, or fails otherwise, returns what the operating
    system returned and leaves [enabled_events_] as it was. *)
Theorem Send_would_block (sent send_errno cb : Z) (k : t) :
  sent < 0 ->
  IsBlockingError send_errno = true ->
  let '(r, k1) := Send sent send_errno cb k in
  r = sent /\ error_ k1 = send_errno
  /\ has_event (enabled_events_ k1) DE_WRITE = true
  /\ (forall fdsRead fdsWrite,
        Posix.FD_ISSET (s_ k1)
          (snd (Posix.Wait_fd_sets (s_ k1)
                  (Posix.SocketDispatcher.GetRequestedEvents k1)
                  fdsRead fdsWrite)) = true)
  /\ (forall peek_res peek_errno so_error fdsRead fdsWrite,
        has_event (enabled_events_ k1) DE_CONNECT = false ->
        Posix.FD_ISSET (s_ k1) fdsWrite = true ->
        has_event
          (Posix.ff_of
             (Posix.Wait_events (Posix.as_Dispatcher peek_res peek_errno k1)
                so_error fdsRead fdsWrite)) DE_WRITE = true)
  /\ (forall sent' errno',
        (0 <= sent' \/ IsBlockingError errno' = false) ->
        fst (Send sent' errno' cb k) = sent'
        /\ enabled_events_ (snd (Send sent' errno' cb k))
           = enabled_events_ k).
Proof.
  intros Hs Hb. unfold Send at 1. simpl. rewrite Hb.
  replace (sent <? 0) with true by (symmetry; apply Z.ltb_lt; exact Hs).
  simpl.
  assert (Hw : has_event (enable_event DE_WRITE (enabled_events_ k)) DE_WRITE
               = true) by (apply has_event_enable, DE_WRITE_range).
  split; [reflexivity|]. split; [reflexivity|]. split; [exact Hw|].
  split; [|split].
  - intros fdsRead fdsWrite.
    unfold Posix.Wait_fd_sets, Posix.SocketDispatcher.GetRequestedEvents.
    simpl. rewrite (has_event_lor_r _ DE_WRITE DE_CONNECT), Hw. simpl.
    unfold Posix.FD_ISSET, Posix.FD_SET. simpl. rewrite Z.eqb_refl.
    reflexivity.
  - intros peek_res peek_errno so_error fdsRead fdsWrite Hc Hf.
    rewrite (proj1 (Wait_events_socket _ _ _ _ _ _)). simpl in *.
    rewrite Hf, Hc, has_event_lor.
    rewrite (has_event_self DE_WRITE) by apply DE_WRITE_range.
    apply orb_true_r.
  - intros sent' errno' Hok'. unfold Send. simpl.
    split; [reflexivity|].
    destruct Hok' as [Hp|Hn].
    + replace (sent' <? 0) with false by (symmetry; apply Z.ltb_ge; lia).
      reflexivity.
    + rewrite Hn, andb_false_r. reflexivity.
Qed.

(** X4: a DoConnect that the operating system leaves in progress returns
    0 with the socket in state CS_CONNECTING and DE_CONNECT, DE_READ and
    DE_WRITE armed, so that the descriptor is put in the write set.  When
    it is then found writable: with SO_ERROR zero (and the descriptor not
    readable) the mask is DE_CONNECT, [OnPreEvent] moves the socket to
    CS_CONNECTED and [OnEvent] emits the connect signal only; with SO_ERROR
    not zero the mask is DE_CLOSE with that error, [OnPreEvent] moves the
    socket to CS_CLOSED and [OnEvent] emits the close signal only, carrying
    the error. *)
Theorem DoConnect_in_progress {A : Type} (hs : Handlers A t) (a : A)
    (connect_ret connect_errno : Z) (k : t) :
  connect_ret <> 0 ->
  IsBlockingError connect_errno = true ->
  has_event (enabled_events_ k) DE_ACCEPT = false ->
  let '(r, k1) := DoConnect connect_ret connect_errno k in
  r = 0 /\ state_ k1 = CS_CONNECTING
  /\ has_event (enabled_events_ k1) DE_CONNECT = true
  /\ has_event (enabled_events_ k1) DE_READ = true
  /\ has_event (enabled_events_ k1) DE_WRITE = true
  /\ (forall fdsRead fdsWrite,
        Posix.FD_ISSET (s_ k1)
          (snd (Posix.Wait_fd_sets (s_ k1)
                  (Posix.SocketDispatcher.GetRequestedEvents k1)
                  fdsRead fdsWrite)) = true)
  /\ (forall peek_res peek_errno so_error fdsRead fdsWrite,
        Posix.FD_ISSET (s_ k1) fdsWrite = true ->
        let c := Posix.Wait_events (Posix.as_Dispatcher peek_res peek_errno k1)
                   so_error fdsRead fdsWrite in
        let k2 := Posix.SocketDispatcher.OnPreEvent (Posix.ff_of c) k1 in
        let tr := snd (Posix.SocketDispatcher.OnEvent hs (Posix.ff_of c)
                         (Posix.errcode_of c) a k2) in
        (so_error = 0 -> Posix.FD_ISSET (s_ k1) fdsRead = false ->
           Posix.ff_of c = DE_CONNECT /\ state_ k2 = CS_CONNECTED
           /\ map (fun e => (branch e, signal e)) tr
              = [(on_DE_CONNECT, SignalConnectEvent)])
        /\ (so_error <> 0 ->
              Posix.ff_of c = DE_CLOSE /\ Posix.errcode_of c = so_error
              /\ state_ k2 = CS_CLOSED
              /\ map (fun e => (branch e, signal e)) tr
                 = [(on_DE_CLOSE, SignalCloseEvent so_error)])).
Proof.
  intros Hr Hb Hacc.
  pose (k1 := snd (DoConnect connect_ret connect_errno k)).
  assert (Ek : DoConnect connect_ret connect_errno k = (0, k1)).
  { unfold k1, DoConnect. simpl. rewrite Hb.
    destruct (Z.eqb_spec connect_ret 0) as [E|_]; [contradiction|].
    reflexivity. }
  assert (Hst : state_ k1 = CS_CONNECTING).
  { unfold k1, DoConnect. simpl. rewrite Hb.
    destruct (Z.eqb_spec connect_ret 0) as [E|_]; [contradiction|].
    reflexivity. }
  assert (Hen : forall de, 0 <= de < 256 ->
            has_event (enabled_events_ k1) de
            = has_event (enabled_events_ k) de || has_event DE_CONNECT de
              || (has_event DE_READ de || has_event DE_WRITE de)).
  { intros de Hde. unfold k1, DoConnect. simpl. rewrite Hb.
    destruct (Z.eqb_spec connect_ret 0) as [E|_]; [contradiction|]. simpl.
    rewrite !has_event_enable_event by assumption.
    rewrite has_event_lor. reflexivity. }
  rewrite Ek. clearbody k1.
  assert (Hc : has_event (enabled_events_ k1) DE_CONNECT = true).
  { rewrite Hen by apply DE_CONNECT_nonneg. de_simpl.
    rewrite orb_true_r. reflexivity. }
  assert (Hrd : has_event (enabled_events_ k1) DE_READ = true).
  { rewrite Hen by apply DE_READ_nonneg. de_simpl.
    rewrite !orb_true_r. reflexivity. }
  assert (Hw : has_event (enabled_events_ k1) DE_WRITE = true).
  { rewrite Hen by apply DE_WRITE_nonneg. de_simpl.
    rewrite !orb_true_r. reflexivity. }
  assert (Ha : has_event (enabled_events_ k1) DE_ACCEPT = false).
  { rewrite Hen by apply DE_ACCEPT_nonneg. rewrite Hacc. de_simpl.
    reflexivity. }
  split; [reflexivity|]. split; [exact Hst|].
  split; [exact Hc|]. split; [exact Hrd|]. split; [exact Hw|].
  split.
  - intros fdsRead fdsWrite.
    unfold Posix.Wait_fd_sets, Posix.SocketDispatcher.GetRequestedEvents.
    rewrite (has_event_lor_r _ DE_WRITE DE_CONNECT), Hw. simpl.
    unfold Posix.FD_ISSET, Posix.FD_SET. simpl. rewrite Z.eqb_refl.
    reflexivity.
  - intros peek_res peek_errno so_error fdsRead fdsWrite Hf. cbv zeta.
    destruct (Wait_events_socket peek_res peek_errno so_error k1
                fdsRead fdsWrite) as [Eff Eerr].
    rewrite Hf, Hc, Ha in Eff.
    rewrite Hf, orb_true_r in Eerr. specialize (Eerr eq_refl).
    split.
    + intros E0 Hnr. subst so_error. rewrite Hnr in Eff. simpl in Eff.
      rewrite Eff. split; [reflexivity|]. split.
      * unfold Posix.SocketDispatcher.OnPreEvent. de_simpl. reflexivity.
      * rewrite OnEvent_branches. unfold branches_in_order.
        cbn [filter branch_event]. de_simpl. reflexivity.
    + intros Hne.
      assert (Eff' : Posix.ff_of
                (Posix.Wait_events
                   (Posix.as_Dispatcher peek_res peek_errno k1)
                   so_error fdsRead fdsWrite) = DE_CLOSE).
      { rewrite Eff.
        destruct (Z.eqb_spec so_error 0) as [E0|_]; [contradiction|].
        simpl. destruct (Posix.FD_ISSET _ fdsRead); simpl;
          [apply Z.lor_diag | reflexivity]. }
      rewrite Eff', Eerr. split; [reflexivity|]. split; [reflexivity|].
      split.
      * unfold Posix.SocketDispatcher.OnPreEvent. de_simpl. reflexivity.
      * rewrite OnEvent_branches. unfold branches_in_order.
        cbn [filter branch_event]. de_simpl. reflexivity.
Qed.
End Readiness.

Lemma Send_would_block_witness :
  let k := @PhysicalSocket.new linux_headers 5 1 false in
  -1 < 0
  /\ @IsBlockingError linux_headers 11 = true
  /\ fst (@PhysicalSocketOps.Send linux_headers (-1) 11 100 k) = -1
  /\ has_event
       (PhysicalSocket.enabled_events_
          (snd (@PhysicalSocketOps.Send linux_headers (-1) 11 100 k))) 2
     = true.
Proof.
  intros k.
  assert (Hs : -1 < 0) by lia.
  assert (Hb : @IsBlockingError linux_headers 11 = true) by reflexivity.
  pose proof (@Send_would_block linux_headers linux_headers_ok
                (-1) 11 100 k Hs Hb) as W.
  destruct (@PhysicalSocketOps.Send linux_headers (-1) 11 100 k) as [r k1].
  destruct W as (Hr & _ & Hw & _).
  split; [exact Hs|]. split; [exact Hb|]. split; [exact Hr | exact Hw].
Defined.

Lemma DoConnect_in_progress_witness :
  let k := snd (@PhysicalSocket.Create linux_headers
                  {| PhysicalSocket.closesocket_ret := 0;
                     PhysicalSocket.closesocket_errno := 0;
                     PhysicalSocket.socket_ret := 5;
                     PhysicalSocket.socket_errno := 0 |} 1
                  (@PhysicalSocket.new linux_headers (-1) 0 false)) in
  -1 <> 0
  /\ @IsBlockingError linux_headers 115 = true
  /\ has_event (PhysicalSocket.enabled_events_ k) 16 = false
  /\ fst (PhysicalSocket.DoConnect (-1) 115 k) = 0
  /\ PhysicalSocket.state_ (snd (PhysicalSocket.DoConnect (-1) 115 k))
     = CS_CONNECTING.
Proof.
  intros k.
  assert (Hr : -1 <> 0) by discriminate.
  assert (Hb : @IsBlockingError linux_headers 115 = true) by reflexivity.
  assert (Ha : has_event (PhysicalSocket.enabled_events_ k) 16 = false)
    by reflexivity.
  pose proof (@DoConnect_in_progress linux_headers linux_headers_ok unit
                (idle_handlers _) tt (-1) 115 k Hr Hb Ha) as W.
  destruct (PhysicalSocket.DoConnect (-1) 115 k) as [r k1].
  destruct W as (Hr0 & Hst & _).
  split; [exact Hr|]. split; [exact Hb|]. split; [exact Ha|].
  split; [exact Hr0 | exact Hst].
Defined.

(** ** Resolver notifications *)

Section ResolveResult.
Context {H : Headers} {A : Type}.
Variable close_slot : Z -> A -> PhysicalSocket.t -> A * PhysicalSocket.t.
Import PhysicalSocket PhysicalSocketOps.

(** X5: a notification that does not come from the resolver the socket
    owns changes nothing and emits nothing; that is so of every
    notification arriving after a Close, which drops the resolver.  A
    notification of the owned resolver that reports an error closes the
    socket, stores the error in [error_] and emits the close signal with
    it.  One that reports success calls DoConnect: nothing is emitted when
    that returns 0; when it fails the close signal is emitted with
    SOCKET_ERROR, which also replaces [error_], and the socket keeps its
    handle and its state. *)
Theorem OnResolveResult_cases (thread : SignalThread) (resolver_error : Z)
    (resolved : SocketAddress) (cr ce clr cle : Z) (a : A) (k : t) :
  (thread_is_not_resolver thread (resolver_ k) = true ->
   OnResolveResult close_slot thread resolver_error resolved cr ce clr cle a k
   = (a, k, []))
  /\ (forall r e,
        s_ k <> INVALID_SOCKET ->
        OnResolveResult close_slot thread resolver_error resolved
          cr ce clr cle a (snd (Close r e k))
        = (a, snd (Close r e k), []))
  /\ (thread_is_not_resolver thread (resolver_ k) = false ->
      s_ k <> INVALID_SOCKET ->
      resolver_error <> 0 ->
      let k1 := set_error resolver_error (snd (Close clr cle k)) in
      OnResolveResult close_slot thread resolver_error resolved
        cr ce clr cle a k
      = (fst (close_slot resolver_error a k1),
         snd (close_slot resolver_error a k1),
         [SignalCloseEvent resolver_error])
      /\ s_ k1 = INVALID_SOCKET /\ state_ k1 = CS_CLOSED
      /\ enabled_events_ k1 = 0 /\ resolver_ k1 = None
      /\ error_ k1 = resolver_error)
  /\ (thread_is_not_resolver thread (resolver_ k) = false ->
      resolver_error = 0 ->
      (fst (DoConnect cr ce k) = 0 ->
       OnResolveResult close_slot thread resolver_error resolved
         cr ce clr cle a k
       = (a, snd (DoConnect cr ce k), []))
      /\ (fst (DoConnect cr ce k) <> 0 ->
          let k1 := set_error SOCKET_ERROR (UpdateLastError ce k) in
          OnResolveResult close_slot thread resolver_error resolved
            cr ce clr cle a k
          = (fst (close_slot SOCKET_ERROR a k1),
             snd (close_slot SOCKET_ERROR a k1),
             [SignalCloseEvent SOCKET_ERROR])
          /\ s_ k1 = s_ k /\ state_ k1 = state_ k
          /\ enabled_events_ k1 = enabled_events_ k)).
Proof.
  split; [|split; [|split]].
  - intros Ht. unfold OnResolveResult. rewrite Ht. reflexivity.
  - intros r e Hs. unfold OnResolveResult.
    assert (Hn : resolver_ (snd (Close r e k)) = None).
    { unfold Close.
      destruct (Z.eqb_spec (s_ k) INVALID_SOCKET) as [E|_]; [contradiction|].
      destruct k as [s en udp er st [rs|]]; reflexivity. }
    rewrite Hn. destruct thread; reflexivity.
  - intros Ht Hs Hne. cbv zeta. unfold OnResolveResult. rewrite Ht.
    assert (En : (resolver_error =? 0) = false)
      by (apply Z.eqb_neq; exact Hne).
    rewrite En. cbv beta iota. rewrite En. simpl.
    destruct (close_slot resolver_error a
                (set_error resolver_error (snd (Close clr cle k))))
      as [a' k'] eqn:Ec.
    simpl. split; [reflexivity|].
    unfold Close.
    destruct (Z.eqb_spec (s_ k) INVALID_SOCKET) as [E|_]; [contradiction|].
    destruct k as [s en udp er st [rs|]]; simpl; repeat split.
  - intros Ht E0. subst resolver_error. unfold OnResolveResult. rewrite Ht.
    simpl. split.
    + intros Hd. destruct (DoConnect cr ce k) as [error k1]. simpl in *.
      subst error. reflexivity.
    + intros Hd. cbv zeta.
      assert (Ed : DoConnect cr ce k = (SOCKET_ERROR, UpdateLastError ce k)).
      { revert Hd. unfold DoConnect. simpl.
        destruct (cr =? 0); simpl; [intros Hd; contradiction Hd; reflexivity|].
        destruct (IsBlockingError ce); simpl;
          [intros Hd; contradiction Hd; reflexivity | reflexivity]. }
      rewrite Ed.
      assert (En : (SOCKET_ERROR =? 0) = false)
        by (apply Z.eqb_neq; rewrite Ed in Hd; exact Hd).
      cbv beta iota. rewrite En. simpl.
      destruct (close_slot SOCKET_ERROR a
                  (set_error SOCKET_ERROR (UpdateLastError ce k)))
        as [a' k'].
      simpl. repeat split.
Qed.
End ResolveResult.

Lemma OnResolveResult_cases_witness :
  let k := @PhysicalSocket.new linux_headers 5 1 false in
  PhysicalSocket.s_ k <> @INVALID_SOCKET linux_headers
  /\ @PhysicalSocketOps.OnResolveResult linux_headers unit
       (fun _ a k => (a, k)) PhysicalSocketOps.the_resolver 0 (false, 1)
       0 0 0 0 tt (snd (PhysicalSocket.Close 0 0 k))
     = (tt, snd (PhysicalSocket.Close 0 0 k), []).
Proof.
  intros k.
  assert (Hs : PhysicalSocket.s_ k <> @INVALID_SOCKET linux_headers)
    by discriminate.
  split; [exact Hs|].
  exact (proj1 (proj2 (@OnResolveResult_cases linux_headers unit
                         (fun _ a k => (a, k)) PhysicalSocketOps.the_resolver
                         0 (false, 1) 0 0 0 0 tt k)) 0 0 Hs).
Defined.

(** ** Listening and accepting *)

Section ListenAccept.
Context {H : Headers} {Hok : HeadersOk H}.
Import PhysicalSocket PhysicalSocketOps.

(** X6: a Listen that succeeds puts the socket in state CS_CONNECTING and
    arms DE_ACCEPT; a readable descriptor then yields DE_ACCEPT and neither
    DE_READ nor DE_CLOSE, whatever SO_ERROR and the peek say.  An Accept
    that obtains a handle re-arms DE_ACCEPT and returns a socket around
    that handle, in state CS_CONNECTED with DE_READ and DE_WRITE armed,
    registered with the server.  An Accept that obtains none returns NULL,
    records the error, leaves the registry alone and does not re-arm
    DE_ACCEPT: if DE_ACCEPT and DE_READ were cleared, the next [Wait] does
    not put the descriptor in the read set. *)
Theorem Listen_then_Accept (listen_errno : Z) (k : t) :
  let '(r, k1) := Listen 0 listen_errno k in
  r = 0 /\ state_ k1 = CS_CONNECTING
  /\ has_event (enabled_events_ k1) DE_ACCEPT = true
  /\ (forall peek_res peek_errno so_error fdsRead fdsWrite,
        Posix.FD_ISSET (s_ k1) fdsRead = true ->
        Posix.FD_ISSET (s_ k1) fdsWrite = false ->
        Posix.ff_of
          (Posix.Wait_events (Posix.as_Dispatcher peek_res peek_errno k1)
             so_error fdsRead fdsWrite) = DE_ACCEPT)
  /\ (forall this_new s e so_type udp0 ss k2,
        s <> INVALID_SOCKET ->
        let '(accepted, ss', k3) := Accept this_new s e so_type udp0 ss k2 in
        has_event (enabled_events_ k3) DE_ACCEPT = true
        /\ In this_new (PhysicalSocketServer.dispatchers_ ss')
        /\ exists d, accepted = Some d /\ s_ d = s
                     /\ state_ d = CS_CONNECTED
                     /\ enabled_events_ d = Z.lor DE_READ DE_WRITE)
  /\ (forall this_new e so_type udp0 ss k2 fdsRead fdsWrite,
        let '(accepted, ss', k3) :=
          Accept this_new INVALID_SOCKET e so_type udp0 ss k2 in
        accepted = None /\ ss' = ss /\ error_ k3 = e
        /\ enabled_events_ k3 = enabled_events_ k2
        /\ (has_event (enabled_events_ k2) DE_ACCEPT = false ->
            has_event (enabled_events_ k2) DE_READ = false ->
            fst (Posix.Wait_fd_sets (s_ k3)
                   (Posix.SocketDispatcher.GetRequestedEvents k3)
                   fdsRead fdsWrite) = fdsRead)).
Proof.
  unfold Listen. simpl.
  assert (Ha : has_event (enable_event DE_ACCEPT (enabled_events_ k)) DE_ACCEPT
               = true) by (apply has_event_enable, DE_ACCEPT_range).
  split; [reflexivity|]. split; [reflexivity|]. split; [exact Ha|].
  split; [|split].
  - intros peek_res peek_errno so_error fdsRead fdsWrite Hr Hw.
    match goal with
    | |- context [Posix.as_Dispatcher _ _ ?k1] =>
      rewrite (proj1 (Wait_events_socket peek_res peek_errno so_error k1
                        fdsRead fdsWrite))
    end.
    simpl. rewrite Hr, Hw, Ha. apply Z.lor_0_r.
  - intros this_new s e so_type udp0 ss k2 Hs. unfold Accept.
    destruct (Z.eqb_spec s INVALID_SOCKET) as [E|_]; [contradiction|].
    unfold Posix.WrapSocket, Posix.SocketDispatcher.Initialize. simpl.
    split; [apply has_event_enable, DE_ACCEPT_range|].
    split; [apply Add_In|].
    eexists. split; [reflexivity|]. unfold new. simpl.
    destruct (Z.eqb_spec s INVALID_SOCKET) as [E|_]; [contradiction|].
    simpl. rewrite uint8_READ_WRITE. repeat split.
  - intros this_new e so_type udp0 ss k2 fdsRead fdsWrite. unfold Accept.
    rewrite Z.eqb_refl. simpl.
    split; [reflexivity|]. split; [reflexivity|]. split; [reflexivity|].
    split; [reflexivity|].
    intros Hna Hnr.
    unfold Posix.Wait_fd_sets, Posix.SocketDispatcher.GetRequestedEvents.
    simpl. rewrite has_event_lor_r, Hna, Hnr. reflexivity.
Qed.
End ListenAccept.

Lemma Listen_then_Accept_witness :
  let k := snd (@PhysicalSocket.Create linux_headers
                  {| PhysicalSocket.closesocket_ret := 0;
                     PhysicalSocket.closesocket_errno := 0;
                     PhysicalSocket.socket_ret := 5;
                     PhysicalSocket.socket_errno := 0 |} 1
                  (@PhysicalSocket.new linux_headers (-1) 0 false)) in
  PhysicalSocket.state_ (snd (PhysicalSocketOps.Listen 0 0 k))
  = CS_CONNECTING
  /\ has_event
       (PhysicalSocket.enabled_events_ (snd (PhysicalSocketOps.Listen 0 0 k)))
       16 = true.
Proof.
  intros k.
  pose proof (@Listen_then_Accept linux_headers linux_headers_ok 0 k) as W.
  destruct (PhysicalSocketOps.Listen 0 0 k) as [r k1].
  destruct W as (_ & Hst & Ha & _).
  split; [exact Hst | exact Ha].
Defined.

(** ** The timing of [Wait] *)

Section Timing.
Import WaitTiming.

Lemma remaining_spec (tvStop tvT : timeval) :
  normalized tvStop -> normalized tvT ->
  normalized (fst (remaining tvStop tvT))
  /\ 0 <= tv_sec (fst (remaining tvStop tvT))
  /\ to_us (fst (remaining tvStop tvT))
     = Z.max 0 (to_us tvStop - to_us tvT)
  /\ snd (remaining tvStop tvT) = true.
Proof.
  unfold normalized, to_us, remaining.
  destruct tvStop as [ss su], tvT as [ts tu]. simpl. intros Hs Ht.
  destruct (Z.ltb_spec ts ss) as [H1|H1]; simpl.
  - destruct (Z.ltb_spec (su - tu) 0) as [H2|H2]; simpl;
      repeat split; lia.
  - destruct (Z.eqb_spec ss ts) as [H2|H2]; simpl.
    + destruct (Z.ltb_spec tu su) as [H3|H3]; simpl.
      * destruct (Z.ltb_spec (su - tu) 0) as [H4|H4]; simpl;
          repeat split; try lia.
      * repeat split; try lia.
    + repeat split; try lia.
Qed.

(** X7: for a wait of [cmsWait] >= 0 milliseconds and normalised readings
    of the clock, the timeval computed for the wait is normalised and
    amounts to [cmsWait] milliseconds; the stop time is normalised and is
    the start time plus the wait; and the time recomputed at the end of a
    turn of the loop is normalised, not negative, and is exactly the time
    left until the stop time, or zero once it is reached; the assertion in
    the borrow branch always holds. *)
Theorem Wait_timing (cmsWait : Z) (now tvT : timeval) :
  0 <= cmsWait ->
  normalized now -> normalized tvT ->
  let tvWait := tvWait_of cmsWait in
  let tvStop := tvStop_of now tvWait in
  normalized tvWait /\ 0 <= tv_sec tvWait
  /\ to_us tvWait = cmsWait * 1000
  /\ normalized tvStop
  /\ to_us tvStop = to_us now + cmsWait * 1000
  /\ normalized (fst (remaining tvStop tvT))
  /\ 0 <= tv_sec (fst (remaining tvStop tvT))
  /\ to_us (fst (remaining tvStop tvT))
     = Z.max 0 (to_us now + cmsWait * 1000 - to_us tvT)
  /\ snd (remaining tvStop tvT) = true.
Proof.
  intros Hc Hn Ht tvWait tvStop.
  pose proof (Z.quot_rem' cmsWait 1000) as Hqr.
  pose proof (Z.rem_bound_pos cmsWait 1000 Hc ltac:(lia)) as Hrb.
  pose proof (Z.quot_pos cmsWait 1000 Hc ltac:(lia)) as Hqp.
  assert (Hw : normalized tvWait /\ 0 <= tv_sec tvWait
               /\ to_us tvWait = cmsWait * 1000).
  { unfold normalized, to_us, tvWait, tvWait_of. simpl.
    repeat split; lia. }
  destruct Hw as (Hw1 & Hw2 & Hw3).
  assert (Hs : normalized tvStop
               /\ to_us tvStop = to_us now + cmsWait * 1000).
  { rewrite <- Hw3. revert Hw1. unfold normalized, to_us, tvStop, tvStop_of.
    generalize tvWait. intros [ws wu]. destruct now as [ns nu].
    unfold normalized in Hn. simpl in *. intros Hwu.
    destruct (Z.leb_spec 1000000 (nu + wu)); simpl; split; lia. }
  destruct Hs as (Hs1 & Hs2).
  destruct (remaining_spec tvStop tvT Hs1 Ht) as (R1 & R2 & R3 & R4).
  rewrite Hs2 in R3.
  repeat match goal with |- _ /\ _ => split end; assumption.
Qed.
End Timing.

Lemma Wait_timing_witness :
  let now := {| WaitTiming.tv_sec := 100; WaitTiming.tv_usec := 900000 |} in
  let tvT := {| WaitTiming.tv_sec := 101; WaitTiming.tv_usec := 100000 |} in
  0 <= 2500 /\ normalized now /\ normalized tvT
  /\ to_us (fst (WaitTiming.remaining
                   (WaitTiming.tvStop_of now (WaitTiming.tvWait_of 2500))
                   tvT)) = 2300000.
Proof.
  intros now tvT.
  assert (Hc : 0 <= 2500) by lia.
  assert (Hn : normalized now) by (unfold normalized; simpl; lia).
  assert (Ht : normalized tvT) by (unfold normalized; simpl; lia).
  destruct (Wait_timing 2500 now tvT Hc Hn Ht)
    as (_ & _ & _ & _ & _ & _ & _ & W & _).
  split; [exact Hc|]. split; [exact Hn|]. split; [exact Ht|]. exact W.
Defined.

(** ** EstimateMTU on LINUX *)

Section EstimateMTULinux.
Context {H : Headers}.
Import PhysicalSocket PhysicalSocketOps.

(** X8: on LINUX, EstimateMTU of a socket whose remote address is the
    "any" address returns -1 with error ENOTCONN, stores nothing and asks
    the operating system nothing; when getsockopt(IP_MTU) fails it returns
    that failure with the system error; otherwise it returns 0.  The value
    stored through the 16-bit output is the path MTU when that is below
    65536; a path MTU of 65536, which the assertion of the function admits,
    is stored as 0. *)
Theorem EstimateMTU_linux_cases (addr : SocketAddress)
    (getsockopt_ret getsockopt_errno value : Z) (k : t) :
  (IsAny addr = true ->
   EstimateMTU_linux addr getsockopt_ret getsockopt_errno value k
   = (-1, None, set_error ENOTCONN k))
  /\ (IsAny addr = false -> getsockopt_ret < 0 ->
      EstimateMTU_linux addr getsockopt_ret getsockopt_errno value k
      = (getsockopt_ret, None, UpdateLastError getsockopt_errno k))
  /\ (IsAny addr = false -> 0 <= getsockopt_ret ->
      EstimateMTU_linux_assertion value = true ->
      EstimateMTU_linux addr getsockopt_ret getsockopt_errno value k
      = (0, Some (if value =? 65536 then 0 else value), k)).
Proof.
  unfold EstimateMTU_linux. split; [|split].
  - intros ->. reflexivity.
  - intros -> Hr.
    replace (getsockopt_ret <? 0) with true
      by (symmetry; apply Z.ltb_lt; exact Hr).
    reflexivity.
  - intros -> Hr Ha.
    replace (getsockopt_ret <? 0) with false
      by (symmetry; apply Z.ltb_ge; exact Hr).
    unfold EstimateMTU_linux_assertion in Ha.
    apply andb_true_iff in Ha. destruct Ha as [H0 H1].
    apply Z.leb_le in H0. apply Z.leb_le in H1.
    f_equal. f_equal. f_equal. unfold uint16. change (2 ^ 16) with 65536.
    destruct (Z.eqb_spec value 65536) as [->|Hne]; [reflexivity|].
    apply Z.mod_small. lia.
Qed.
End EstimateMTULinux.

Lemma EstimateMTU_linux_cases_witness :
  let k := @PhysicalSocket.new linux_headers 5 1 false in
  @PhysicalSocketOps.EstimateMTU_linux linux_headers (false, 1) 0 0 65536 k
  = (0, Some 0, k).
Proof.
  intros k.
  exact (proj2 (proj2 (@EstimateMTU_linux_cases linux_headers (false, 1)
                         0 0 65536 k)) eq_refl ltac:(lia) eq_refl).
Defined.

(** ** POSIX signals *)

Section PosixSignalProperties.
Import PosixSignal SignalVocabulary.

Lemma flat_map_ext_in {X Y : Type} (f g : X -> list Y) (l : list X) :
  (forall x, In x l -> f x = g x) -> flat_map f l = flat_map g l.
Proof.
  induction l as [|x l IH]; intros E; simpl; [reflexivity|].
  rewrite (E x) by (now left). f_equal. apply IH. intros y Hy.
  apply E. now right.
Qed.

Lemma set_flag_length (i : nat) (v : bool) (l : list bool) :
  List.length (set_flag i v l) = List.length l.
Proof.
  revert i. induction l as [|x r IH]; intros [|i]; simpl; auto.
Qed.

Lemma nth_set_flag_same (i : nat) (v : bool) (l : list bool) :
  (i < List.length l)%nat -> nth i (set_flag i v l) false = v.
Proof.
  revert i. induction l as [|x r IH]; intros [|i] Hi; simpl in *;
    try lia; auto.
  apply IH. lia.
Qed.

Lemma nth_set_flag_other (i j : nat) (v : bool) (l : list bool) :
  i <> j -> nth j (set_flag i v l) false = nth j l false.
Proof.
  revert i j. induction l as [|x r IH]; intros [|i] [|j] Hij; simpl;
    try reflexivity; try congruence.
  apply IH. congruence.
Qed.

Lemma ClearSignal_whole (signum : Z) (h : PosixSignalHandler) :
  whole h -> whole (ClearSignal signum h).
Proof.
  unfold whole, ClearSignal. intros W.
  destruct (signum <? kNumPosixSignals); simpl; auto.
  now rewrite set_flag_length.
Qed.

Lemma OnPosixSignalReceived_whole (w signum : Z) (h : PosixSignalHandler) :
  whole h -> whole (OnPosixSignalReceived w signum h).
Proof.
  unfold whole, OnPosixSignalReceived. intros W.
  destruct (kNumPosixSignals <=? signum); simpl; auto.
  now rewrite set_flag_length.
Qed.

Lemma IsSignalSet_ClearSignal_same (signum : Z) (h : PosixSignalHandler) :
  whole h -> 0 <= signum ->
  IsSignalSet signum (ClearSignal signum h) = false.
Proof.
  unfold whole, IsSignalSet, ClearSignal, kNumPosixSignals. intros W Hs.
  destruct (Z.ltb_spec signum 128) as [L|L]; [|reflexivity].
  simpl. apply nth_set_flag_same. rewrite W. lia.
Qed.

Lemma IsSignalSet_ClearSignal_other (s signum : Z) (h : PosixSignalHandler) :
  0 <= signum -> 0 <= s -> s <> signum ->
  IsSignalSet s (ClearSignal signum h) = IsSignalSet s h.
Proof.
  unfold IsSignalSet, ClearSignal. intros H1 H2 Hne.
  destruct (signum <? kNumPosixSignals); [|reflexivity].
  simpl. destruct (s <? kNumPosixSignals); [|reflexivity].
  apply nth_set_flag_other. lia.
Qed.

Lemma IsSignalSet_received (w s signum : Z) (h : PosixSignalHandler) :
  whole h -> 0 <= signum -> 0 <= s < kNumPosixSignals ->
  IsSignalSet s (OnPosixSignalReceived w signum h)
  = (s =? signum) || IsSignalSet s h.
Proof.
  unfold whole, IsSignalSet, OnPosixSignalReceived, kNumPosixSignals.
  intros W H1 [H2 H3].
  rewrite (proj2 (Z.ltb_lt s 128) H3).
  destruct (Z.leb_spec 128 signum) as [L|L].
  - destruct (Z.eqb_spec s signum); [lia|]. reflexivity.
  - simpl. destruct (Z.eqb_spec s signum) as [->|Hne]; simpl.
    + apply nth_set_flag_same. rewrite W. lia.
    + apply nth_set_flag_other. lia.
Qed.

Lemma IsSignalSet_receive_all (rs : list (Z * Z)) (s : Z)
    (h : PosixSignalHandler) :
  whole h -> Forall (fun r => 0 <= snd r) rs -> 0 <= s < kNumPosixSignals ->
  IsSignalSet s (receive_all rs h)
  = existsb (Z.eqb s) (map snd rs) || IsSignalSet s h.
Proof.
  revert h. induction rs as [|[w signum] rs IH]; intros h W F Hs; simpl.
  - reflexivity.
  - inversion F as [|? ? F1 F2]; subst. simpl in F1.
    unfold receive_all in *. simpl.
    rewrite IH; auto using OnPosixSignalReceived_whole.
    rewrite IsSignalSet_received by auto.
    destruct (s =? signum), (existsb (Z.eqb s) (map snd rs)); reflexivity.
Qed.

Lemma IsSignalSet_new (s : Z) : IsSignalSet s new = false.
Proof.
  unfold IsSignalSet, new. cbn [received_signal_].
  destruct (s <? kNumPosixSignals); [|reflexivity].
  generalize (Z.to_nat s). generalize (Z.to_nat kNumPosixSignals).
  intros n. induction n as [|n IHn]; intros [|m]; simpl; auto.
Qed.

Lemma receive_all_whole (rs : list (Z * Z)) (h : PosixSignalHandler) :
  whole h -> whole (receive_all rs h).
Proof.
  revert h. induction rs as [|r rs IH]; intros h W; simpl; auto.
  apply IH. now apply OnPosixSignalReceived_whole.
Qed.

Lemma signums_from_S (count : nat) (signum : Z) :
  signums_from (S count) signum = signum :: signums_from count (signum + 1).
Proof.
  unfold signums_from. simpl. f_equal; [lia|].
  rewrite <- seq_shift, map_map. apply map_ext. intros i. lia.
Qed.

Lemma In_signums_from (count : nat) (signum s : Z) :
  In s (signums_from count signum) <->
  signum <= s < signum + Z.of_nat count.
Proof.
  unfold signums_from. rewrite in_map_iff. split.
  - intros (i & <- & Hi). apply in_seq in Hi. lia.
  - intros Hs. exists (Z.to_nat (s - signum)). split; [lia|].
    apply in_seq. lia.
Qed.

(* the loop: the calls it makes and the flags it leaves *)
Lemma OnEvent_loop_spec (handlers : HandlerMap) (count : nat) :
  forall (signum : Z) (h : PosixSignalHandler) (calls : list (nat * Z)),
  whole h -> 0 <= signum ->
  let r := OnEvent_loop count signum handlers h calls in
  snd r = calls ++ flat_map (fun s => call_for handlers (IsSignalSet s h) s)
                     (signums_from count signum)
  /\ whole (fst r)
  /\ afd_ (fst r) = afd_ h
  /\ forall s, 0 <= s ->
       IsSignalSet s (fst r)
       = if (signum <=? s) && (s <? signum + Z.of_nat count) then false
         else IsSignalSet s h.
Proof.
  induction count as [|count IH]; intros signum h calls W Hs; cbv zeta.
  - simpl. rewrite app_nil_r. repeat split; auto.
    intros s _. destruct (Z.leb_spec signum s), (Z.ltb_spec s (signum + 0));
      simpl; try reflexivity; lia.
  - rewrite signums_from_S.
    assert (Hflat : forall h',
      (forall s, 0 <= s -> s <> signum ->
                 IsSignalSet s h' = IsSignalSet s h) ->
      flat_map (fun s => call_for handlers (IsSignalSet s h') s)
        (signums_from count (signum + 1))
      = flat_map (fun s => call_for handlers (IsSignalSet s h) s)
          (signums_from count (signum + 1))).
    { intros h' E. apply flat_map_ext_in.
      intros s Hin. apply In_signums_from in Hin.
      rewrite E by lia. reflexivity. }
    assert (Hr1 : forall s, s <> signum ->
      (signum + 1 <=? s) && (s <? signum + 1 + Z.of_nat count)
      = (signum <=? s) && (s <? signum + Z.of_nat (S count))).
    { intros s Hne.
      destruct (Z.leb_spec (signum + 1) s), (Z.leb_spec signum s),
        (Z.ltb_spec s (signum + 1 + Z.of_nat count)),
        (Z.ltb_spec s (signum + Z.of_nat (S count)));
        cbn [andb]; try reflexivity; lia. }
    assert (Hr2 :
      (signum + 1 <=? signum) && (signum <? signum + 1 + Z.of_nat count)
      = false).
    { destruct (Z.leb_spec (signum + 1) signum); [lia|reflexivity]. }
    assert (Hr3 :
      (signum <=? signum) && (signum <? signum + Z.of_nat (S count)) = true).
    { destruct (Z.leb_spec signum signum),
        (Z.ltb_spec signum (signum + Z.of_nat (S count)));
        cbn [andb]; try reflexivity; lia. }
    simpl OnEvent_loop. cbn [flat_map].
    destruct (IsSignalSet signum h) eqn:Eset.
    + pose proof (ClearSignal_whole signum h W) as W'.
      assert (Eo : forall s, 0 <= s -> s <> signum ->
                IsSignalSet s (ClearSignal signum h) = IsSignalSet s h)
        by (intros; now apply IsSignalSet_ClearSignal_other).
      assert (Ea : afd_ (ClearSignal signum h) = afd_ h)
        by (unfold ClearSignal; now destruct (signum <? kNumPosixSignals)).
      change (call_for handlers true signum)
        with (match find signum handlers with
              | Some f => [(f, signum)]
              | None => []
              end).
      destruct (find signum handlers) as [f|].
      * destruct (IH (signum + 1) (ClearSignal signum h)
                    (calls ++ [(f, signum)]) W' ltac:(lia))
          as (C1 & C2 & C3 & C4).
        rewrite C1, (Hflat _ Eo), <- app_assoc.
        repeat match goal with |- _ /\ _ => split end;
          [reflexivity|exact C2|congruence|].
        intros s Hs0. rewrite C4 by auto.
        destruct (Z.eq_dec s signum) as [->|Hne].
        -- rewrite Hr2, Hr3. now apply IsSignalSet_ClearSignal_same.
        -- rewrite (Hr1 s Hne), (Eo s Hs0 Hne). reflexivity.
      * destruct (IH (signum + 1) (ClearSignal signum h) calls W'
                    ltac:(lia)) as (C1 & C2 & C3 & C4).
        rewrite C1, (Hflat _ Eo).
        repeat match goal with |- _ /\ _ => split end;
          [reflexivity|exact C2|congruence|].
        intros s Hs0. rewrite C4 by auto.
        destruct (Z.eq_dec s signum) as [->|Hne].
        -- rewrite Hr2, Hr3. now apply IsSignalSet_ClearSignal_same.
        -- rewrite (Hr1 s Hne), (Eo s Hs0 Hne). reflexivity.
    + destruct (IH (signum + 1) h calls W ltac:(lia))
        as (C1 & C2 & C3 & C4).
      rewrite C1.
      change (call_for handlers false signum) with (@nil (nat * Z)).
      repeat match goal with |- _ /\ _ => split end;
        [reflexivity|exact C2|exact C3|].
      intros s Hs0. rewrite C4 by auto.
      destruct (Z.eq_dec s signum) as [->|Hne].
      -- rewrite Hr2, Hr3. exact Eset.
      -- rewrite (Hr1 s Hne). reflexivity.
Qed.

(** X9 (PosixSignalHandler, PosixSignalDispatcher::OnEvent).  After any
    run of signals received since the handler object was created,
    whatever the writes to the pipe returned, [OnEvent] calls the
    registered handler of each signal number below 128 that was received,
    once however often it was received, in increasing order of the signal
    numbers, and calls nothing else; signal numbers from 128 on are
    dropped on receipt.  Afterwards no flag is set. *)
Theorem OnEvent_delivers_received_signals
    (handlers : HandlerMap) (rs : list (Z * Z)) (ff err : Z) :
  Forall (fun r => 0 <= snd r) rs ->
  let r := OnEvent ff err handlers (receive_all rs new) in
  snd r
  = flat_map
      (fun s => call_for handlers (existsb (Z.eqb s) (map snd rs)) s)
      (signums_from 128 0)
  /\ (forall s, 0 <= s -> IsSignalSet s (fst r) = false)
  /\ (forall w signum h,
        kNumPosixSignals <= signum ->
        OnPosixSignalReceived w signum h = h).
Proof.
  intros F. cbv zeta.
  assert (W0 : whole new) by reflexivity.
  pose proof (receive_all_whole rs new W0) as W.
  destruct (OnEvent_loop_spec handlers (Z.to_nat kNumPosixSignals) 0
              (receive_all rs new) [] W ltac:(lia)) as (C1 & _ & _ & C4).
  unfold OnEvent.
  repeat match goal with |- _ /\ _ => split end.
  - rewrite C1, app_nil_l.
    change (Z.to_nat kNumPosixSignals) with 128%nat.
    apply flat_map_ext_in. intros s Hin. apply In_signums_from in Hin.
    rewrite IsSignalSet_receive_all
      by (auto; unfold kNumPosixSignals; lia).
    rewrite IsSignalSet_new, orb_false_r. reflexivity.
  - intros s Hs. rewrite C4 by auto.
    change (Z.of_nat (Z.to_nat kNumPosixSignals)) with 128.
    destruct (Z.leb_spec 0 s); [|lia]. simpl.
    destruct (Z.ltb_spec s 128); [reflexivity|].
    unfold IsSignalSet, kNumPosixSignals.
    now rewrite (proj2 (Z.ltb_ge s 128)).
  - intros w signum h L. unfold OnPosixSignalReceived.
    now rewrite (proj2 (Z.leb_le _ _) L).
Qed.

Lemma OnEvent_delivers_received_signals_witness :
  Forall (fun r => 0 <= snd r) [(1, 15); (-1, 2); (1, 15); (1, 200)]
  /\ snd (OnEvent 1 0 [(15, 7%nat); (2, 9%nat)]
            (receive_all [(1, 15); (-1, 2); (1, 15); (1, 200)] new))
     = [(9%nat, 2); (7%nat, 15)].
Proof.
  assert (F : Forall (fun r : Z * Z => 0 <= snd r)
                [(1, 15); (-1, 2); (1, 15); (1, 200)])
    by (repeat constructor; simpl; lia).
  split; [exact F|].
  rewrite (proj1 (OnEvent_delivers_received_signals
                    [(15, 7%nat); (2, 9%nat)] _ 1 0 F)).
  reflexivity.
Defined.

End PosixSignalProperties.

Section SetPosixSignalHandlerProperties.
Import PosixSignal SignalVocabulary.

Lemma find_ClearHandler_same (signum : Z) (handlers : HandlerMap) :
  find signum (ClearHandler signum handlers) = None.
Proof.
  induction handlers as [|[s f] r IH]; simpl; [reflexivity|].
  destruct (Z.eqb_spec s signum); simpl; auto.
  destruct (Z.eqb_spec s signum); [contradiction|auto].
Qed.

Lemma find_ClearHandler_other (s signum : Z) (handlers : HandlerMap) :
  s <> signum ->
  find s (ClearHandler signum handlers) = find s handlers.
Proof.
  intros Hne. induction handlers as [|[s' f] r IH]; simpl; [reflexivity|].
  destruct (Z.eqb_spec s' signum) as [->|Hs']; simpl.
  - destruct (Z.eqb_spec signum s); [congruence|auto].
  - destruct (Z.eqb_spec s' s); auto.
Qed.

Lemma ClearHandler_keys (signum : Z) (handlers : HandlerMap) :
  NoDup (map fst handlers) ->
  NoDup (map fst (ClearHandler signum handlers))
  /\ ~ In signum (map fst (ClearHandler signum handlers)).
Proof.
  induction handlers as [|[s f] r IH]; simpl; intros ND.
  - split; [constructor|tauto].
  - inversion ND as [|? ? Hnin ND']; subst.
    destruct (IH ND') as [I1 I2].
    destruct (Z.eqb_spec s signum) as [->|Hs]; simpl; [now split|].
    split.
    + constructor; [|exact I1]. intros Hin. apply Hnin.
      apply in_map_iff in Hin. destruct Hin as (e & <- & He).
      apply filter_In in He. apply in_map. tauto.
    + intros [E|Hin]; [congruence|tauto].
Qed.

(** X10 (SetPosixSignalHandler).  Between calls the server owns a signal
    dispatcher only while some signal has a user handler, and the
    dispatcher is then registered.  A call keeps this, never fails the
    assertion of [Remove], and returns what installing the handler
    returned.  Setting a handler records it even when installing fails;
    setting SIG_IGN or SIG_DFL forgets the handler of that signal when
    installing succeeds and forgets nothing when it fails; the handlers of
    other signals stay. *)
Theorem SetPosixSignalHandler_lifecycle
    (new_dispatcher : PhysicalSocketServer.Dispatcher) (install_ok : bool)
    (signum : Z) (handler : sighandler) (sv : Server) :
  dispatcher_invariant sv ->
  exists sv',
    SetPosixSignalHandler new_dispatcher install_ok signum handler sv
    = Some (install_ok, sv')
    /\ dispatcher_invariant sv'
    /\ handler_of signum sv'
       = match handler with
         | handler_at f => Some f
         | _ => if install_ok then None else handler_of signum sv
         end
    /\ forall s, s <> signum -> handler_of s sv' = handler_of s sv.
Proof.
  unfold dispatcher_invariant, handler_of, SetPosixSignalHandler.
  destruct sv as [reg [[this handlers]|]]; cbn [signal_dispatcher_ registry];
    intros Inv.
  - destruct Inv as (Hne & ND & Hin).
    destruct (ClearHandler_keys signum handlers ND) as [K1 K2].
    assert (Hclear : forall ok : bool,
      exists sv',
        (if negb ok
         then Some (false, {| registry := reg;
                              signal_dispatcher_ := Some (this, handlers) |})
         else
           if negb (HasHandlers (ClearHandler signum handlers))
           then match PhysicalSocketServer.Remove this reg with
                | None => None
                | Some reg' =>
                  Some (true, {| registry := reg';
                                 signal_dispatcher_ := None |})
                end
           else Some (true,
                      {| registry := reg;
                         signal_dispatcher_ :=
                           Some (this, ClearHandler signum handlers) |}))
        = Some (ok, sv')
        /\ match signal_dispatcher_ sv' with
           | Some (this0, handlers0) =>
             handlers0 <> [] /\ NoDup (map fst handlers0) /\
             In this0 (PhysicalSocketServer.dispatchers_ (registry sv'))
           | None => True
           end
        /\ match signal_dispatcher_ sv' with
           | Some (_, handlers0) => find signum handlers0
           | None => None
           end = (if ok then None else find signum handlers)
        /\ forall s, s <> signum ->
             match signal_dispatcher_ sv' with
             | Some (_, handlers0) => find s handlers0
             | None => None
             end = find s handlers).
    { intros [|]; cbn [negb].
      - destruct (ClearHandler signum handlers) as [|e r] eqn:E;
          cbn [HasHandlers negb].
        + rewrite (Remove_Some this reg Hin). eexists. split; [reflexivity|].
          cbn [signal_dispatcher_]. repeat split; auto.
          intros s Hs. rewrite <- (find_ClearHandler_other s signum) by auto.
          now rewrite E.
        + eexists. split; [reflexivity|]. cbn [signal_dispatcher_ registry].
          rewrite <- E in K1, K2 |- *.
          repeat match goal with |- _ /\ _ => split end.
          * rewrite E. discriminate.
          * exact K1.
          * exact Hin.
          * apply find_ClearHandler_same.
          * intros s Hs. now apply find_ClearHandler_other.
      - eexists. split; [reflexivity|]. cbn [signal_dispatcher_ registry].
        repeat match goal with |- _ /\ _ => split end; auto. }
    destruct handler as [| |f].
    + apply Hclear.
    + apply Hclear.
    + eexists. split; [destruct install_ok; reflexivity|].
      cbn [signal_dispatcher_ registry].
      repeat match goal with |- _ /\ _ => split end; auto.
      * unfold SetHandler. discriminate.
      * unfold SetHandler. simpl. constructor; auto.
      * unfold SetHandler. simpl. now rewrite Z.eqb_refl.
      * intros s Hs. unfold SetHandler. simpl.
        destruct (Z.eqb_spec signum s); [congruence|].
        now apply find_ClearHandler_other.
  - destruct handler as [| |f].
    + eexists. split; [destruct install_ok; reflexivity|].
      cbn [signal_dispatcher_]. destruct install_ok; auto.
    + eexists. split; [destruct install_ok; reflexivity|].
      cbn [signal_dispatcher_]. destruct install_ok; auto.
    + eexists. split; [destruct install_ok; reflexivity|].
      cbn [signal_dispatcher_ registry].
      repeat match goal with |- _ /\ _ => split end; auto.
      * unfold SetHandler. discriminate.
      * unfold SetHandler. simpl. constructor; [tauto|constructor].
      * apply Add_In.
      * unfold SetHandler. simpl. now rewrite Z.eqb_refl.
      * intros s Hs. unfold SetHandler. simpl.
        destruct (Z.eqb_spec signum s); [congruence|reflexivity].
Qed.

Lemma SetPosixSignalHandler_lifecycle_witness :
  dispatcher_invariant
    {| registry := PhysicalSocketServer.Add 5%nat
                     {| PhysicalSocketServer.dispatchers_ := [1%nat];
                        PhysicalSocketServer.iterators_ := [] |};
       signal_dispatcher_ := Some (5%nat, [(15, 7%nat)]) |}
  /\ exists sv',
       SetPosixSignalHandler 6%nat true 15 SIG_DFL
         {| registry := PhysicalSocketServer.Add 5%nat
                          {| PhysicalSocketServer.dispatchers_ := [1%nat];
                             PhysicalSocketServer.iterators_ := [] |};
            signal_dispatcher_ := Some (5%nat, [(15, 7%nat)]) |}
       = Some (true, sv')
       /\ dispatcher_invariant sv'.
Proof.
  assert (I : dispatcher_invariant
    {| registry := PhysicalSocketServer.Add 5%nat
                     {| PhysicalSocketServer.dispatchers_ := [1%nat];
                        PhysicalSocketServer.iterators_ := [] |};
       signal_dispatcher_ := Some (5%nat, [(15, 7%nat)]) |}).
  { unfold dispatcher_invariant. simpl.
    repeat match goal with |- _ /\ _ => split end.
    - discriminate.
    - constructor; [simpl; tauto|constructor].
    - right. now left. }
  split; [exact I|].
  destruct (SetPosixSignalHandler_lifecycle 6%nat true 15 SIG_DFL _ I)
    as (sv' & E & I' & _).
  exists sv'. split; [exact E|exact I'].
Defined.

End SetPosixSignalHandlerProperties.

(** ** FileDispatcher *)

Lemma has_event_clear_same (ff de : Z) :
  has_event (Z.land ff (Z.lnot de)) de = false.
Proof.
  unfold has_event.
  replace (Z.land (Z.land ff (Z.lnot de)) de) with 0; [reflexivity|].
  apply Z.bits_inj'. intros n Hn.
  rewrite Z.bits_0, !Z.land_spec, Z.lnot_spec by lia.
  destruct (Z.testbit de n), (Z.testbit ff n); reflexivity.
Qed.

Lemma has_event_clear_other (ff de x : Z) :
  Z.land de x = 0 ->
  has_event (Z.land ff (Z.lnot de)) x = has_event ff x.
Proof.
  intros E. unfold has_event.
  replace (Z.land (Z.land ff (Z.lnot de)) x) with (Z.land ff x);
    [reflexivity|].
  apply Z.bits_inj'. intros n Hn.
  assert (B : Z.testbit (Z.land de x) n = false)
    by (rewrite E; apply Z.bits_0).
  rewrite Z.land_spec in B.
  rewrite !Z.land_spec, Z.lnot_spec by lia.
  destruct (Z.testbit de n), (Z.testbit ff n), (Z.testbit x n);
    simpl in *; congruence.
Qed.

Lemma has_event_uint32 (ff x : Z) :
  0 <= x < 256 -> has_event (PhysicalSocket.uint32 ff) x = has_event ff x.
Proof.
  intros Hx. unfold has_event, PhysicalSocket.uint32.
  replace (Z.land (ff mod 2 ^ 32) x) with (Z.land ff x); [reflexivity|].
  apply Z.bits_inj'. intros n Hn.
  rewrite !Z.land_spec.
  destruct (Z.testbit x n) eqn:Ex; [|now rewrite !andb_false_r].
  pose proof (testbit_below_256 x n Hx Ex) as Hlt.
  apply Z.ltb_lt in Hlt.
  rewrite Z.mod_pow2_bits_low by lia. reflexivity.
Qed.

Section FileDispatcherProperties.
Context {H : Headers} {Hok : HeadersOk H}.
Import FileDispatcher.

(** X11 (FileDispatcher).  [set_readable] and [set_writable] each set
    what the matching query returns and leave the other alone.  The
    constructor makes the file readable whatever [flags_] held before and
    leaves the write flag as it found it, and the first loop of [Wait]
    then puts the descriptor in the read set. *)
Theorem FileDispatcher_flags (flags_ : Z) (value : bool) (fd : Z)
    (fdsRead fdsWrite : Posix.fd_set) :
  readable (set_readable value flags_) = value
  /\ writable (set_writable value flags_) = value
  /\ writable (set_readable value flags_) = writable flags_
  /\ readable (set_writable value flags_) = readable flags_
  /\ readable (new flags_) = true
  /\ writable (new flags_) = writable flags_
  /\ Posix.FD_ISSET fd
       (fst (Posix.Wait_fd_sets fd (GetRequestedEvents (new flags_))
               fdsRead fdsWrite)) = true.
Proof.
  pose proof DE_READ_range as R. pose proof DE_WRITE_range as W.
  pose proof DE_READ_WRITE as RW.
  assert (WR : Z.land DE_WRITE DE_READ = 0) by (now rewrite Z.land_comm).
  unfold new, readable, writable, set_readable, set_writable.
  repeat match goal with |- _ /\ _ => split end.
  - destruct value.
    + rewrite has_event_lor, (has_event_self _ (proj1 R)).
      apply orb_true_r.
    + apply has_event_clear_same.
  - destruct value.
    + rewrite has_event_lor, (has_event_self _ (proj1 W)).
      apply orb_true_r.
    + apply has_event_clear_same.
  - destruct value.
    + rewrite has_event_lor, (has_event_disjoint _ _ RW).
      apply orb_false_r.
    + now apply has_event_clear_other.
  - destruct value.
    + rewrite has_event_lor, (has_event_disjoint _ _ WR).
      apply orb_false_r.
    + now apply has_event_clear_other.
  - rewrite has_event_lor, (has_event_self _ (proj1 R)). apply orb_true_r.
  - rewrite has_event_lor, (has_event_disjoint _ _ RW). apply orb_false_r.
  - unfold Posix.Wait_fd_sets, GetRequestedEvents. cbn [fst].
    rewrite has_event_lor_r, has_event_uint32 by apply DE_READ_nonneg.
    rewrite has_event_lor, (has_event_self _ (proj1 R)), orb_true_r.
    cbn [orb]. unfold Posix.FD_SET, Posix.FD_ISSET. simpl.
    now rewrite Z.eqb_refl.
Qed.

(** X12 (FileDispatcher under the POSIX Wait).  When the descriptor of a
    file is reported ready for reading and [flags_] does not hold the
    accept bit, the dispatcher emits SignalReadEvent, then, if the
    descriptor is also reported ready for writing and [flags_] does not
    hold the connect bit, SignalWriteEvent, and nothing else; nothing is
    stored by [getsockopt] for a file, so the error code is 0.  With the
    accept bit in [flags_] a file ready for reading only emits nothing. *)
Theorem FileDispatcher_ready (fd flags_ : Z)
    (fdsRead fdsWrite : Posix.fd_set) :
  Posix.FD_ISSET fd fdsRead = true ->
  has_event flags_ DE_CONNECT = false ->
  let c := Posix.Wait_events (file_view fd flags_) 0 fdsRead fdsWrite in
  Posix.errcode_of c = 0
  /\ OnEvent (Posix.ff_of c) (Posix.errcode_of c)
     = (if has_event flags_ DE_ACCEPT then [] else [SignalReadEvent])
       ++ (if Posix.FD_ISSET fd fdsWrite then [SignalWriteEvent] else []).
Proof.
  intros Hr Hc. cbv zeta.
  unfold Posix.Wait_events, file_view, GetRequestedEvents,
    IsDescriptorClosed.
  cbn [Posix.GetDescriptor Posix.GetRequestedEvents
       Posix.IsDescriptorClosed].
  rewrite Hr.
  rewrite !has_event_uint32 by (apply DE_ACCEPT_nonneg || apply DE_CONNECT_nonneg).
  rewrite Hc. cbn [orb negb Z.eqb].
  destruct (has_event flags_ DE_ACCEPT);
    destruct (Posix.FD_ISSET fd fdsWrite);
    cbn [Posix.errcode_of Posix.ff_of]; (split; [reflexivity|]);
    unfold OnEvent; rewrite ?Z.lor_0_l; de_simpl; reflexivity.
Qed.

End FileDispatcherProperties.

Lemma FileDispatcher_flags_witness :
  @FileDispatcher.readable linux_headers
    (@FileDispatcher.new linux_headers (-1234)) = true.
Proof.
  exact (proj1 (proj2 (proj2 (proj2 (proj2
           (@FileDispatcher_flags linux_headers linux_headers_ok
              (-1234) true 3 [] [])))))).
Defined.

Lemma FileDispatcher_ready_witness :
  Posix.FD_ISSET 3 [3] = true
  /\ has_event 1 (@DE_CONNECT linux_headers) = false
  /\ @FileDispatcher.OnEvent linux_headers
       (Posix.ff_of (@Posix.Wait_events linux_headers
                       (file_view 3 1) 0 [3] [3]))
       0
     = [SignalReadEvent; SignalWriteEvent].
Proof.
  assert (A1 : Posix.FD_ISSET 3 [3] = true) by reflexivity.
  assert (A2 : has_event 1 (@DE_CONNECT linux_headers) = false)
    by reflexivity.
  split; [exact A1|]. split; [exact A2|].
  exact (proj2 (@FileDispatcher_ready linux_headers linux_headers_ok
                  3 1 [3] [3] A1 A2)).
Defined.

(** ** The WIN32 dispatcher: deferred close and the identity token *)

Section Win32Lifecycle.
Context {H : Headers}.
Import Win32.SocketDispatcher.

Lemma Win32_OnEvent_close_part {A : Type} (hs : Handlers A t)
    (ff err : Z) (a : A) (d : t) :
  let d1 := snd (fst (OnEvent hs ff err a d)) in
  if has_event ff DE_CLOSE && (id_ d1 =? id_ d)
  then signal_close_ d1 = true /\ signal_err_ d1 = err
  else True.
Proof.
  unfold OnEvent. cbv zeta.
  set (st4 := deliver _ DE_ACCEPT on_DE_ACCEPT _ _ _).
  destruct st4 as [[a0 d0] tr].
  destruct (has_event ff DE_CLOSE && (id_ d0 =? id_ d)) eqn:E; simpl.
  - rewrite E. split; reflexivity.
  - rewrite E. exact I.
Qed.

(** X13 (WIN32 SocketDispatcher::OnEvent, CheckSignalClose).  A close
    event that passes the identity check is only recorded by [OnEvent],
    with its error code.  [CheckSignalClose] then holds the close signal
    back while a byte can still be peeked; once none can it marks the
    socket closed, emits the close signal once with the recorded error
    code, and returns true.  The record is cleared before the signal is
    emitted: a check made from inside the slot, or after it by a slot that
    left the record alone, emits nothing. *)
Theorem Win32_close_is_deferred {A : Type} (hs : Handlers A t)
    (ff err peek_res : Z) (a : A) (d : t) :
  has_event ff DE_CLOSE = true ->
  let r := OnEvent hs ff err a d in
  let a1 := fst (fst r) in
  let d1 := snd (fst r) in
  id_ d1 = id_ d ->
  signal_close_ d1 = true /\ signal_err_ d1 = err
  /\ Win32Socket.CheckSignalClose (close_slot hs) peek_res a1 d1
     = (if 0 <? peek_res then (false, a1, d1, [])
        else
          let r2 := close_slot hs err a1 (closed_for_signal d1) in
          (true, fst r2, snd r2, [SignalCloseEvent err]))
  /\ PhysicalSocket.state_ (base (closed_for_signal d1)) = CS_CLOSED
  /\ (forall p b,
        Win32Socket.CheckSignalClose (close_slot hs) p b
          (closed_for_signal d1)
        = (false, b, closed_for_signal d1, []))
  /\ (forall p,
        let r2 := close_slot hs err a1 (closed_for_signal d1) in
        signal_close_ (snd r2) = false ->
        Win32Socket.CheckSignalClose (close_slot hs) p (fst r2) (snd r2)
        = (false, fst r2, snd r2, [])).
Proof.
  intros Hc. cbv zeta. intros Hid.
  pose proof (Win32_OnEvent_close_part hs ff err a d) as P.
  cbv zeta in P. rewrite Hc, Hid, Z.eqb_refl in P. simpl in P.
  destruct P as [P1 P2].
  set (d1 := snd (fst (OnEvent hs ff err a d))) in *.
  set (a1 := fst (fst (OnEvent hs ff err a d))) in *.
  repeat match goal with |- _ /\ _ => split end.
  - exact P1.
  - exact P2.
  - unfold Win32Socket.CheckSignalClose. rewrite P1. cbn [negb].
    destruct (0 <? peek_res); [reflexivity|].
    cbn [signal_err_]. fold (closed_for_signal d1). rewrite P2.
    destruct (close_slot hs err a1 (closed_for_signal d1)) as [a2 d2].
    reflexivity.
  - reflexivity.
  - intros p b. unfold Win32Socket.CheckSignalClose, closed_for_signal.
    reflexivity.
  - intros p Hs. unfold Win32Socket.CheckSignalClose. rewrite Hs.
    reflexivity.
Qed.

Lemma next_id_loop_nonzero (next_id_ : Z) :
  exists id next', Win32Socket.next_id_loop 2 next_id_ = Some (id, next')
                   /\ id <> 0 /\ id = next'.
Proof.
  unfold Win32Socket.next_id_loop.
  destruct (Z.eqb_spec (PhysicalSocket.int32 (next_id_ + 1)) 0) as [E|E].
  - rewrite E. change (PhysicalSocket.int32 (0 + 1) =? 0) with false.
    cbv iota. exists (PhysicalSocket.int32 (0 + 1)), (PhysicalSocket.int32 (0 + 1)).
    split; [reflexivity|]. split; [discriminate|reflexivity].
  - eexists _, _. split; [reflexivity|]. split; [exact E|reflexivity].
Qed.

Lemma Win32_Close_open (this : PhysicalSocketServer.Dispatcher)
    (r e : Z) (ss : PhysicalSocketServer.t) (d : t) :
  PhysicalSocket.s_ (base d) <> INVALID_SOCKET ->
  In this (PhysicalSocketServer.dispatchers_ ss) ->
  exists ss' d',
    Win32Socket.Close this r e ss d = Some (r, ss', d')
    /\ PhysicalSocketServer.Remove this ss = Some ss'
    /\ id_ d' = 0 /\ signal_close_ d' = false
    /\ PhysicalSocket.s_ (base d') = INVALID_SOCKET
    /\ PhysicalSocket.state_ (base d') = CS_CLOSED
    /\ PhysicalSocket.enabled_events_ (base d') = 0.
Proof.
  intros Hs Hin. unfold Win32Socket.Close.
  destruct (Z.eqb_spec (PhysicalSocket.s_ (base d)) INVALID_SOCKET)
    as [E|E]; [contradiction|].
  rewrite (Remove_Some this ss Hin). cbn [base].
  unfold PhysicalSocket.Close.
  destruct (Z.eqb_spec (PhysicalSocket.s_ (base d)) INVALID_SOCKET)
    as [E'|_]; [contradiction|].
  eexists _, _. split; [reflexivity|]. split; [reflexivity|].
  destruct (base d) as [s en udp er st [rs|]]; simpl; repeat split.
Qed.

Lemma Win32_OnEvent_identity_lost {A : Type} (hs : Handlers A t)
    (slot : A -> t -> A * t) (ff err : Z) (a : A) (d : t) :
  has_event ff DE_READ = true ->
  id_ (snd (slot a (clear DE_READ d))) <> id_ d ->
  OnEvent (with_read_slot slot hs) ff err a d
  = (fst (slot a (clear DE_READ d)), snd (slot a (clear DE_READ d)),
     [{| branch := on_DE_READ; signal := SignalReadEvent;
         enabled_at_emission :=
           PhysicalSocket.enabled_events_ (base (clear DE_READ d)) |}]).
Proof.
  intros Hread Hne.
  unfold OnEvent, deliver, emit. cbv zeta. rewrite Hread.
  cbn [read_slot with_read_slot].
  destruct (slot a (clear DE_READ d)) as [a' d']. cbn [fst snd] in *.
  assert (Hne' : (id_ d' =? id_ d) = false) by (apply Z.eqb_neq; exact Hne).
  repeat (rewrite ?Hne', ?andb_false_r; cbv beta iota).
  reflexivity.
Qed.

(** X14 (WIN32 SocketDispatcher::Create, Close, OnEvent).  [Create]
    gives an open, registered socket an [id_] that is not zero, and
    [Close] sets it to zero.  So when the slot of the read signal closes
    the socket, [OnEvent] emits the read signal and nothing after it,
    whatever else the mask holds, and records no close: the dispatcher is
    left closed and taken out of the registry, and the assertion of
    [Remove] holds. *)
Theorem Win32_close_from_read_slot
    (hs : Handlers PhysicalSocketServer.t t)
    (this : PhysicalSocketServer.Dispatcher) (os : PhysicalSocket.CreateOS)
    (type next_id_ ff err r e : Z)
    (ss0 : PhysicalSocketServer.t) (d0 : t) :
  PhysicalSocket.s_ (base d0) = INVALID_SOCKET ->
  PhysicalSocket.socket_ret os <> INVALID_SOCKET ->
  has_event ff DE_READ = true ->
  exists ss d next',
    Win32Socket.Create this os type next_id_ ss0 d0
    = Some (true, ss, d, next')
    /\ id_ d <> 0
    /\ In this (PhysicalSocketServer.dispatchers_ ss)
    /\ let r1 := OnEvent (with_read_slot (closing_slot this r e) hs)
                   ff err ss d in
       map signal (snd r1) = [SignalReadEvent]
       /\ PhysicalSocketServer.Remove this ss = Some (fst (fst r1))
       /\ id_ (snd (fst r1)) = 0
       /\ signal_close_ (snd (fst r1)) = false
       /\ PhysicalSocket.s_ (base (snd (fst r1))) = INVALID_SOCKET
       /\ PhysicalSocket.state_ (base (snd (fst r1))) = CS_CLOSED.
Proof.
  intros Hinv Hsock Hread.
  unfold Win32Socket.Create, Win32Socket.Close.
  rewrite Hinv, Z.eqb_refl.
  unfold PhysicalSocket.Create_socket. cbv zeta.
  set (k := PhysicalSocket.UpdateLastError _ _).
  set (k' := if PhysicalSocket.udp_ k then _ else k).
  assert (Ek : PhysicalSocket.s_ k' = PhysicalSocket.socket_ret os).
  { subst k' k. destruct (base d0) as [s en udp er st rs]. simpl.
    destruct (SOCK_DGRAM =? type); reflexivity. }
  rewrite Ek.
  destruct (Z.eqb_spec (PhysicalSocket.socket_ret os) INVALID_SOCKET)
    as [E|_]; [contradiction|]. cbn [negb].
  destruct (next_id_loop_nonzero next_id_) as (id & next' & EL & Hid & _).
  rewrite EL.
  set (ss := PhysicalSocketServer.Add this ss0).
  match goal with
  | |- exists _ _ _, Some (true, ss, ?x, _) = _ /\ _ => set (d := x)
  end.
  exists ss, d, next'. split; [reflexivity|].
  split; [exact Hid|]. split; [apply Add_In|].
  assert (Hopen : PhysicalSocket.s_ (base (clear DE_READ d))
                  <> INVALID_SOCKET).
  { unfold clear. subst d. simpl. now rewrite Ek. }
  destruct (Win32_Close_open this r e ss (clear DE_READ d) Hopen
              (Add_In this ss0))
    as (ss' & d' & EC & ER & C1 & C2 & C3 & C4 & C5).
  assert (Eslot : closing_slot this r e ss (clear DE_READ d) = (ss', d'))
    by (unfold closing_slot; now rewrite EC).
  set (r1 := OnEvent _ ff err ss d).
  assert (E1 : r1 = (ss', d',
            [{| branch := on_DE_READ; signal := SignalReadEvent;
                enabled_at_emission :=
                  PhysicalSocket.enabled_events_
                    (base (clear DE_READ d)) |}])).
  { subst r1. rewrite Win32_OnEvent_identity_lost; auto.
    - now rewrite Eslot.
    - rewrite Eslot. cbn [snd]. rewrite C1. subst d. cbn [id_].
      congruence. }
  rewrite E1. cbn [fst snd map signal].
  repeat match goal with |- _ /\ _ => split end; auto.
Qed.

End Win32Lifecycle.

Lemma Win32_close_is_deferred_witness :
  has_event 8 (@DE_CLOSE linux_headers) = true
  /\ @Win32Socket.CheckSignalClose linux_headers unit
       (fun _ a d => (a, d)) 0 tt
       (snd (fst (@Win32.SocketDispatcher.OnEvent linux_headers unit (idle_handlers _) 8 104 tt
                    (@Win32.SocketDispatcher.new linux_headers 5 1 false))))
     = (true, tt,
        @closed_for_signal linux_headers
          (snd (fst (@Win32.SocketDispatcher.OnEvent linux_headers unit (idle_handlers _) 8 104 tt
                       (@Win32.SocketDispatcher.new linux_headers 5 1 false)))),
        [SignalCloseEvent 104]).
Proof.
  assert (A1 : has_event 8 (@DE_CLOSE linux_headers) = true) by reflexivity.
  split; [exact A1|].
  destruct (@Win32_close_is_deferred linux_headers unit (idle_handlers _)
              8 104 0 tt (@Win32.SocketDispatcher.new linux_headers 5 1 false) A1 eq_refl)
    as (_ & _ & E & _).
  exact E.
Defined.

Lemma Win32_close_from_read_slot_witness :
  exists ss d next',
    @Win32Socket.Create linux_headers 7%nat
      {| PhysicalSocket.closesocket_ret := 0;
         PhysicalSocket.closesocket_errno := 0;
         PhysicalSocket.socket_ret := 5;
         PhysicalSocket.socket_errno := 0 |} 1 (-1)
      {| PhysicalSocketServer.dispatchers_ := [1%nat];
         PhysicalSocketServer.iterators_ := [] |}
      (@Win32.SocketDispatcher.new linux_headers (-1) 0 false)
    = Some (true, ss, d, next')
    /\ Win32.SocketDispatcher.id_ d <> 0
    /\ map signal
         (snd (@Win32.SocketDispatcher.OnEvent linux_headers _
                 (with_read_slot (@closing_slot linux_headers 7%nat 0 0)
                    {| read_slot := fun a d => (a, d);
                       write_slot := fun a d => (a, d);
                       connect_slot := fun a d => (a, d);
                       close_slot := fun _ a d => (a, d) |})
                 11 0 ss d))
       = [SignalReadEvent].
Proof.
  destruct (@Win32_close_from_read_slot linux_headers
              {| read_slot := fun a d => (a, d);
                 write_slot := fun a d => (a, d);
                 connect_slot := fun a d => (a, d);
                 close_slot := fun _ a d => (a, d) |}
              7%nat
              {| PhysicalSocket.closesocket_ret := 0;
                 PhysicalSocket.closesocket_errno := 0;
                 PhysicalSocket.socket_ret := 5;
                 PhysicalSocket.socket_errno := 0 |} 1 (-1) 11 0 0 0
              {| PhysicalSocketServer.dispatchers_ := [1%nat];
                 PhysicalSocketServer.iterators_ := [] |}
              (@Win32.SocketDispatcher.new linux_headers (-1) 0 false)
              eq_refl ltac:(discriminate) eq_refl)
    as (ss & d & next' & E & Hid & _ & T & _).
  exists ss, d, next'. split; [exact E|]. split; [exact Hid|exact T].
Defined.

(** ** The loops of the POSIX [Wait] *)

Section PosixWaitFirstLoop.
Context {H : Headers}.
Import PosixWait.

(** X15 (the first loop of the POSIX Wait).  After the loop a descriptor
    is in the read set exactly when it was there before or belongs to a
    dispatcher that is not skipped and asks for DE_READ or DE_ACCEPT, and
    in the write set likewise for DE_WRITE or DE_CONNECT: the loop takes
    nothing out of the sets.  [fdmax] is the largest of its starting
    value and the descriptors of the dispatchers not skipped.  When
    [process_io] is false every dispatcher but the wake-up one is
    skipped. *)
Theorem Wait_fd_sets_loop_spec (process_io : bool)
    (signal_wakeup_ : PhysicalSocketServer.Dispatcher)
    (ds : list (PhysicalSocketServer.Dispatcher * Posix.Dispatcher))
    (fdmax : Z) (fdsRead fdsWrite : Posix.fd_set) :
  let r := Wait_fd_sets_loop process_io signal_wakeup_ ds
             fdmax fdsRead fdsWrite in
  (forall fd,
     Posix.FD_ISSET fd (snd (fst r))
     = Posix.FD_ISSET fd fdsRead
       || requested process_io signal_wakeup_
            (Z.lor DE_READ DE_ACCEPT) fd ds)
  /\ (forall fd,
        Posix.FD_ISSET fd (snd r)
        = Posix.FD_ISSET fd fdsWrite
          || requested process_io signal_wakeup_
               (Z.lor DE_WRITE DE_CONNECT) fd ds)
  /\ fst (fst r)
     = fold_left Z.max
         (map (fun dv => Posix.GetDescriptor (snd dv))
            (filter (considered process_io signal_wakeup_) ds))
         fdmax
  /\ (process_io = false ->
      forall dv, In dv ds -> fst dv <> signal_wakeup_ ->
                 considered process_io signal_wakeup_ dv = false).
Proof.
  cbv zeta.
  split; [|split; [|split]].
  - revert fdmax fdsRead fdsWrite.
    induction ds as [|[d v] ds IH]; intros fdmax R W fd.
    + simpl. now rewrite orb_false_r.
    + cbn [Wait_fd_sets_loop requested existsb].
      fold (requested process_io signal_wakeup_ (Z.lor DE_READ DE_ACCEPT)
              fd ds).
      unfold considered at 1. cbn [fst snd].
      destruct process_io; cbn [negb andb orb].
      * unfold Posix.Wait_fd_sets.
        rewrite IH.
        destruct (has_event (Posix.GetRequestedEvents v)
                    (Z.lor DE_READ DE_ACCEPT)).
        -- unfold Posix.FD_SET, Posix.FD_ISSET at 1. cbn [existsb].
           fold (Posix.FD_ISSET fd R).
           rewrite andb_true_r.
           destruct (fd =? Posix.GetDescriptor v), (Posix.FD_ISSET fd R);
             reflexivity.
        -- rewrite andb_false_r. reflexivity.
      * destruct (Nat.eqb d signal_wakeup_); cbn [negb andb orb].
        -- unfold Posix.Wait_fd_sets. rewrite IH.
           destruct (has_event (Posix.GetRequestedEvents v)
                       (Z.lor DE_READ DE_ACCEPT)).
           ++ unfold Posix.FD_SET, Posix.FD_ISSET at 1. cbn [existsb].
              fold (Posix.FD_ISSET fd R).
              rewrite andb_true_r.
              destruct (fd =? Posix.GetDescriptor v),
                (Posix.FD_ISSET fd R); reflexivity.
           ++ rewrite andb_false_r. reflexivity.
        -- apply IH.
  - revert fdmax fdsRead fdsWrite.
    induction ds as [|[d v] ds IH]; intros fdmax R W fd.
    + simpl. now rewrite orb_false_r.
    + cbn [Wait_fd_sets_loop requested existsb].
      fold (requested process_io signal_wakeup_ (Z.lor DE_WRITE DE_CONNECT)
              fd ds).
      unfold considered at 1. cbn [fst snd].
      destruct process_io; cbn [negb andb orb].
      * unfold Posix.Wait_fd_sets.
        rewrite IH.
        destruct (has_event (Posix.GetRequestedEvents v)
                    (Z.lor DE_WRITE DE_CONNECT)).
        -- unfold Posix.FD_SET, Posix.FD_ISSET at 1. cbn [existsb].
           fold (Posix.FD_ISSET fd W).
           rewrite andb_true_r.
           destruct (fd =? Posix.GetDescriptor v), (Posix.FD_ISSET fd W);
             reflexivity.
        -- rewrite andb_false_r. reflexivity.
      * destruct (Nat.eqb d signal_wakeup_); cbn [negb andb orb].
        -- unfold Posix.Wait_fd_sets. rewrite IH.
           destruct (has_event (Posix.GetRequestedEvents v)
                       (Z.lor DE_WRITE DE_CONNECT)).
           ++ unfold Posix.FD_SET, Posix.FD_ISSET at 1. cbn [existsb].
              fold (Posix.FD_ISSET fd W).
              rewrite andb_true_r.
              destruct (fd =? Posix.GetDescriptor v),
                (Posix.FD_ISSET fd W); reflexivity.
           ++ rewrite andb_false_r. reflexivity.
        -- apply IH.
  - revert fdmax fdsRead fdsWrite.
    induction ds as [|[d v] ds IH]; intros fdmax R W; [reflexivity|].
    cbn [Wait_fd_sets_loop filter].
    unfold considered at 1. cbn [fst snd].
    assert (M : (if fdmax <? Posix.GetDescriptor v
                 then Posix.GetDescriptor v else fdmax)
                = Z.max fdmax (Posix.GetDescriptor v)).
    { destruct (Z.ltb_spec fdmax (Posix.GetDescriptor v)); lia. }
    destruct process_io; cbn [negb andb orb].
    + unfold Posix.Wait_fd_sets. rewrite IH, M. reflexivity.
    + destruct (Nat.eqb d signal_wakeup_); cbn [negb andb orb].
      * unfold Posix.Wait_fd_sets. rewrite IH, M. reflexivity.
      * apply IH.
  - intros -> [d v] _ Hne. unfold considered. cbn [fst orb].
    now apply Nat.eqb_neq.
Qed.

End PosixWaitFirstLoop.

Section PosixWaitDispatch.
Context {A : Type}.
Variable callbacks :
  A -> PhysicalSocketServer.Dispatcher -> PhysicalSocketServer.t ->
  A * list Win32.RegistryOp.
Import PhysicalSocketServer.

Lemma posix_loop_step (fuel i : nat) (v : Win32.Visit A) :
  PosixWait.Wait_dispatch_loop callbacks (S fuel) i v
  = if Nat.ltb i (List.length (dispatchers_ (Win32.server v))) then
      match nth_error (dispatchers_ (Win32.server v)) i with
      | None => Win32.Undefined
      | Some pdispatcher =>
        let '(a, ops) :=
          callbacks (Win32.app v) pdispatcher (Win32.server v) in
        match Win32.run_ops ops (Win32.server v) (Win32.removed v) with
        | None => Win32.AssertFailed
        | Some (ss, rem) =>
          PosixWait.Wait_dispatch_loop callbacks fuel (S i)
            {| Win32.app := a; Win32.server := ss;
               Win32.visited := Win32.visited v ++ [pdispatcher];
               Win32.removed := rem |}
        end
      end
    else Win32.Done v.
Proof. reflexivity. Qed.

(* a stretch of the registry whose callbacks leave the registry alone is
   visited in order *)
Lemma posix_loop_quiet (l2 : list Dispatcher) :
  forall (l1 l3 : list Dispatcher) (v : Win32.Visit A) (fuel : nat),
  dispatchers_ (Win32.server v) = l1 ++ l2 ++ l3 ->
  (forall a d ss, In d l2 -> snd (callbacks a d ss) = []) ->
  exists a',
    PosixWait.Wait_dispatch_loop callbacks (List.length l2 + fuel)
      (List.length l1) v
    = PosixWait.Wait_dispatch_loop callbacks fuel
        (List.length l1 + List.length l2)
        {| Win32.app := a'; Win32.server := Win32.server v;
           Win32.visited := Win32.visited v ++ l2;
           Win32.removed := Win32.removed v |}.
Proof.
  induction l2 as [|x l2 IH]; intros l1 l3 v fuel Hd Hq.
  - exists (Win32.app v). simpl. rewrite Nat.add_0_r, app_nil_r.
    destruct v; reflexivity.
  - cbn [List.length Nat.add PosixWait.Wait_dispatch_loop].
    assert (Hlt : Nat.ltb (List.length l1)
                    (List.length (dispatchers_ (Win32.server v))) = true).
    { apply Nat.ltb_lt. rewrite Hd, !length_app. simpl. lia. }
    rewrite Hlt.
    assert (Hn : nth_error (dispatchers_ (Win32.server v)) (List.length l1)
                 = Some x).
    { rewrite Hd, nth_error_app2 by lia. now rewrite Nat.sub_diag. }
    rewrite Hn.
    pose proof (Hq (Win32.app v) x (Win32.server v) (or_introl eq_refl))
      as Q.
    destruct (callbacks (Win32.app v) x (Win32.server v)) as [a1 ops].
    cbn [snd] in Q. rewrite Q. cbn [Win32.run_ops].
    destruct (IH (l1 ++ [x]) l3
                {| Win32.app := a1; Win32.server := Win32.server v;
                   Win32.visited := Win32.visited v ++ [x];
                   Win32.removed := Win32.removed v |} fuel) as (a' & E).
    + cbn [Win32.server]. rewrite Hd, <- app_assoc. reflexivity.
    + intros a d ss Hin. apply Hq. now right.
    + exists a'. rewrite length_app in E. cbn [List.length] in E.
      replace (S (List.length l1)) with (List.length l1 + 1)%nat by lia.
      rewrite E. cbn [Win32.server Win32.visited Win32.removed].
      rewrite <- app_assoc. cbn [app].
      replace (List.length l1 + 1 + List.length l2)%nat
        with (List.length l1 + S (List.length l2))%nat by lia.
      reflexivity.
Qed.

(** X16 (the second loop of the POSIX Wait).  The loop keeps its index
    to itself.  When no callback touches the registry every dispatcher is
    visited once, in order.  When the callbacks of one dispatcher remove
    that dispatcher, as a socket closed from its own callback does, and
    no other callback touches the registry, the loop ends without failing
    an assertion, but the dispatcher that followed the removed one is not
    visited in this pass, though it stays registered. *)
Theorem Posix_dispatch_skips_follower
    (pre post : list Dispatcher) (x b : Dispatcher)
    (its : list nat) (a : A) :
  NoDup (pre ++ x :: b :: post) ->
  (forall a d ss, d <> x -> snd (callbacks a d ss) = []) ->
  (forall a ss, snd (callbacks a x ss) = [Win32.op_Remove x]) ->
  let ss := {| dispatchers_ := pre ++ x :: b :: post; iterators_ := its |} in
  exists v,
    PosixWait.Wait_dispatch callbacks
      (S (List.length (dispatchers_ ss))) a ss = Win32.Done v
    /\ Win32.visited v = pre ++ x :: post
    /\ Win32.removed v = [x]
    /\ dispatchers_ (Win32.server v) = pre ++ b :: post
    /\ ~ In b (Win32.visited v).
Proof.
  intros ND Hq Hx ss.
  assert (Hnx : ~ In x pre /\ ~ In x (b :: post)).
  { apply NoDup_remove_2 in ND. rewrite in_app_iff in ND. tauto. }
  assert (Hb : ~ In b pre /\ b <> x /\ ~ In b post).
  { apply NoDup_app_remove_l in ND as ND2.
    inversion ND2 as [|? ? N1 ND3]; subst.
    inversion ND3 as [|? ? N2 _]; subst.
    split; [|split].
    - intros Hin.
      assert (ND' : NoDup (pre ++ x :: b :: post)) by exact ND.
      apply NoDup_remove_1 in ND'.
      apply (NoDup_remove_2 (pre ++ [x]) post b).
      + rewrite <- app_assoc. exact ND.
      + rewrite !in_app_iff. tauto.
    - intros ->. apply N1. now left.
    - exact N2. }
  unfold PosixWait.Wait_dispatch.
  (* the dispatchers before x *)
  destruct (posix_loop_quiet pre [] (x :: b :: post)
              {| Win32.app := a; Win32.server := ss;
                 Win32.visited := []; Win32.removed := [] |}
              (S (S (S (List.length post))))) as (a1 & E1).
  { reflexivity. }
  { intros a' d ss' Hin. apply Hq. intros ->. tauto. }
  cbn [List.length Nat.add] in E1.
  replace (S (List.length (dispatchers_ ss)))
    with (List.length pre + S (S (S (List.length post))))%nat
    by (subst ss; cbn [dispatchers_]; rewrite length_app; simpl; lia).
  rewrite E1. cbn [Win32.visited Win32.removed Win32.server app].
  (* x, whose callbacks remove it *)
  rewrite posix_loop_step. cbn [Win32.server Win32.app].
  assert (Hlt : Nat.ltb (List.length pre) (List.length (dispatchers_ ss))
                = true).
  { apply Nat.ltb_lt. subst ss. cbn [dispatchers_].
    rewrite length_app. simpl. lia. }
  rewrite Hlt.
  assert (Hn : nth_error (dispatchers_ ss) (List.length pre) = Some x).
  { subst ss. cbn [dispatchers_]. rewrite nth_error_app2 by lia.
    now rewrite Nat.sub_diag. }
  rewrite Hn.
  pose proof (Hx a1 ss) as Q.
  destruct (callbacks a1 x ss) as [a2 ops]. cbn [snd] in Q. rewrite Q.
  cbn [Win32.run_ops].
  rewrite (Remove_at x pre (b :: post) ss eq_refl ND).
  cbn [Win32.visited Win32.removed app].
  set (ss' := {| dispatchers_ := pre ++ b :: post;
                 iterators_ := map _ (iterators_ ss) |}).
  (* the dispatchers after the follower of x *)
  destruct (posix_loop_quiet post (pre ++ [b]) []
              {| Win32.app := a2; Win32.server := ss';
                 Win32.visited := pre ++ [x]; Win32.removed := [x] |}
              2%nat) as (a3 & E3).
  { subst ss'. cbn [Win32.server dispatchers_].
    rewrite app_nil_r, <- app_assoc. reflexivity. }
  { intros a' d sx Hin. apply Hq. intros ->. apply (proj2 Hnx).
    now right. }
  rewrite length_app in E3. cbn [List.length] in E3.
  replace (S (List.length pre)) with (List.length pre + 1)%nat by lia.
  replace (S (S (List.length post))) with (List.length post + 2)%nat
    by lia.
  rewrite E3, posix_loop_step.
  cbn [Win32.server].
  assert (Hge : Nat.ltb (List.length pre + 1 + List.length post)
                  (List.length (dispatchers_ ss')) = false).
  { apply Nat.ltb_ge. subst ss'. cbn [dispatchers_].
    rewrite length_app. simpl. lia. }
  rewrite Hge.
  eexists. split; [reflexivity|].
  cbn [Win32.visited Win32.removed Win32.server].
  repeat match goal with |- _ /\ _ => split end.
  - rewrite <- app_assoc. reflexivity.
  - reflexivity.
  - reflexivity.
  - rewrite <- app_assoc. cbn [app]. rewrite in_app_iff.
    intros [Hin|[E|Hin]]; [tauto|apply (proj1 (proj2 Hb)); auto|tauto].
Qed.

(** X17 (the second loop of the POSIX Wait, no callback touching the
    registry): every dispatcher is visited once, in the order of the
    registry, and the registry is left as it was. *)
Theorem Posix_dispatch_quiet (ss : t) (a : A) :
  (forall a d ss, snd (callbacks a d ss) = []) ->
  exists v,
    PosixWait.Wait_dispatch callbacks
      (S (List.length (dispatchers_ ss))) a ss = Win32.Done v
    /\ Win32.visited v = dispatchers_ ss
    /\ Win32.removed v = []
    /\ Win32.server v = ss.
Proof.
  intros Hq. unfold PosixWait.Wait_dispatch.
  destruct (posix_loop_quiet (dispatchers_ ss) [] []
              {| Win32.app := a; Win32.server := ss;
                 Win32.visited := []; Win32.removed := [] |} 1%nat)
    as (a1 & E1).
  { cbn [Win32.server app]. now rewrite app_nil_r. }
  { intros a' d ss' _. apply Hq. }
  cbn [List.length Nat.add] in E1.
  replace (S (List.length (dispatchers_ ss)))
    with (List.length (dispatchers_ ss) + 1)%nat by lia.
  rewrite E1, posix_loop_step. cbn [Win32.server].
  rewrite Nat.ltb_irrefl.
  eexists. split; [reflexivity|]. repeat split.
Qed.

End PosixWaitDispatch.

Lemma Posix_dispatch_skips_follower_witness :
  exists v,
    PosixWait.Wait_dispatch
      (fun (a : unit) d _ =>
         (a, if Nat.eqb d 2 then [Win32.op_Remove 2%nat] else []))
      5 tt
      {| PhysicalSocketServer.dispatchers_ := [1; 2; 3; 4]%nat;
         PhysicalSocketServer.iterators_ := [] |}
    = Win32.Done v
    /\ Win32.visited v = [1; 2; 4]%nat.
Proof.
  assert (ND : NoDup ([1%nat] ++ 2%nat :: 3%nat :: [4%nat])).
  { repeat constructor; simpl; intuition discriminate. }
  destruct (Posix_dispatch_skips_follower
              (fun (a : unit) d _ =>
                 (a, if Nat.eqb d 2 then [Win32.op_Remove 2%nat] else []))
              [1%nat] [4%nat] 2%nat 3%nat [] tt ND)
    as (v & E & V & _).
  - intros a d ss Hd. cbn [snd].
    destruct (Nat.eqb_spec d 2); [contradiction|reflexivity].
  - intros a ss. reflexivity.
  - exists v. split; [exact E|exact V].
Defined.

Lemma Posix_dispatch_quiet_witness :
  exists v,
    PosixWait.Wait_dispatch
      (fun (a : unit) (d : PhysicalSocketServer.Dispatcher)
           (_ : PhysicalSocketServer.t) =>
         (a, @nil Win32.RegistryOp))
      4 tt
      {| PhysicalSocketServer.dispatchers_ := [1; 2; 3]%nat;
         PhysicalSocketServer.iterators_ := [] |}
    = Win32.Done v
    /\ Win32.visited v = [1; 2; 3]%nat.
Proof.
  destruct (Posix_dispatch_quiet
              (fun (a : unit) (d : PhysicalSocketServer.Dispatcher)
                   (_ : PhysicalSocketServer.t) =>
                 (a, @nil Win32.RegistryOp))
              {| PhysicalSocketServer.dispatchers_ := [1; 2; 3]%nat;
                 PhysicalSocketServer.iterators_ := [] |} tt
              (fun _ _ _ => eq_refl))
    as (v & E & V & _).
  exists v. split; [exact E|exact V].
Defined.

(** ** WakeUp *)

Section WakeUpProperties.
Context {H : Headers} {Hok : HeadersOk H}.
Import PosixWait.

(** X18 (WakeUp, Signaler, the POSIX Wait).  The wake-up dispatcher asks
    for DE_READ, so the first loop puts its descriptor in the read set,
    also when [process_io] is false.  After [WakeUp], made before or
    during [Wait] on a server whose wake-up dispatcher is idle, the write
    succeeding, one byte is pending; when the descriptor is then found
    readable the second loop classifies the event as DE_READ with error
    code 0, which is not zero as a mask, and dispatching it empties the
    pipe, clears [fSignaled_] and sets [fWait_] to false, which ends the
    loop of [Wait]. *)
Theorem WakeUp_ends_Wait (sv : Server) (fd : Z) (this : nat)
    (process_io : bool) (fdmax : Z) (fdsRead fdsWrite ready : Posix.fd_set) :
  Posix.EventDispatcher.fSignaled_ (signal_wakeup_ sv) = false ->
  Posix.EventDispatcher.pending
    (Posix.EventDispatcher.afd_ (signal_wakeup_ sv)) = [] ->
  Posix.FD_ISSET fd ready = true ->
  Posix.FD_ISSET fd fdsWrite = false ->
  let sv1 := WakeUp 1 sv in
  let c := Posix.Wait_events (wakeup_view fd) 0 ready fdsWrite in
  let sv2 := dispatch_wakeup (Posix.ff_of c) (Posix.errcode_of c)
               {| fWait_ := true; signal_wakeup_ := signal_wakeup_ sv1 |} in
  Posix.FD_ISSET fd
    (snd (fst (Wait_fd_sets_loop process_io this [(this, wakeup_view fd)]
                 fdmax fdsRead fdsWrite))) = true
  /\ Posix.EventDispatcher.pending
       (Posix.EventDispatcher.afd_ (signal_wakeup_ sv1)) = [0]
  /\ Posix.ff_of c = DE_READ /\ Posix.ff_of c <> 0
  /\ Posix.errcode_of c = 0
  /\ fWait_ sv2 = false
  /\ Posix.EventDispatcher.fSignaled_ (signal_wakeup_ sv2) = false
  /\ Posix.EventDispatcher.pending
       (Posix.EventDispatcher.afd_ (signal_wakeup_ sv2)) = [].
Proof.
  intros Hf Hp Hr Hw. cbv zeta.
  pose proof DE_READ_range as R.
  assert (E1 : signal_wakeup_ (WakeUp 1 sv)
               = {| Posix.EventDispatcher.fSignaled_ := true;
                    Posix.EventDispatcher.afd_ :=
                      {| Posix.EventDispatcher.pending := [0];
                         Posix.EventDispatcher.written :=
                           S (Posix.EventDispatcher.written
                                (Posix.EventDispatcher.afd_
                                   (signal_wakeup_ sv))) |} |}).
  { unfold WakeUp. cbn [signal_wakeup_].
    unfold Posix.EventDispatcher.Signal, Posix.EventDispatcher.pipe_write.
    rewrite Hf, VERIFY_value, Hp. reflexivity. }
  assert (Ec : Posix.Wait_events (wakeup_view fd) 0 ready fdsWrite
               = {| Posix.ff_of := Z.lor 0 DE_READ;
                    Posix.errcode_of := 0;
                    Posix.fdsRead_of := Posix.FD_CLR fd ready;
                    Posix.fdsWrite_of := fdsWrite |}).
  { unfold Posix.Wait_events, wakeup_view.
    cbn [Posix.GetDescriptor Posix.GetRequestedEvents
         Posix.IsDescriptorClosed].
    rewrite Hr, Hw. de_simpl. reflexivity. }
  rewrite Ec, E1. cbn [Posix.ff_of Posix.errcode_of]. rewrite Z.lor_0_l.
  assert (Ez : (DE_READ =? 0) = false) by (apply Z.eqb_neq; lia).
  unfold dispatch_wakeup. rewrite Ez. cbn [negb].
  repeat match goal with |- _ /\ _ => split end; try reflexivity.
  - cbn [Wait_fd_sets_loop]. rewrite Nat.eqb_refl, andb_false_r.
    unfold Posix.Wait_fd_sets, wakeup_view.
    cbn [Posix.GetDescriptor Posix.GetRequestedEvents].
    rewrite has_event_lor_r, (has_event_self _ (proj1 R)). cbn [orb].
    destruct (has_event DE_READ (Z.lor DE_WRITE DE_CONNECT));
      cbn [fst snd]; unfold Posix.FD_SET, Posix.FD_ISSET; cbn [existsb];
      now rewrite Z.eqb_refl.
  - lia.
Qed.

End WakeUpProperties.

Lemma WakeUp_ends_Wait_witness :
  PosixWait.fWait_
    (@PosixWait.dispatch_wakeup linux_headers
       (Posix.ff_of (@Posix.Wait_events linux_headers
                       (@PosixWait.wakeup_view linux_headers 3) 0 [3] []))
       0
       {| PosixWait.fWait_ := true;
          PosixWait.signal_wakeup_ :=
            PosixWait.signal_wakeup_
              (@PosixWait.WakeUp linux_headers 1
                 {| PosixWait.fWait_ := false;
                    PosixWait.signal_wakeup_ :=
                      Posix.EventDispatcher.new |}) |}) = false.
Proof.
  destruct (@WakeUp_ends_Wait linux_headers linux_headers_ok
              {| PosixWait.fWait_ := false;
                 PosixWait.signal_wakeup_ := Posix.EventDispatcher.new |}
              3 0%nat false (-1) [] [] [3]
              eq_refl eq_refl eq_refl eq_refl)
    as (_ & _ & _ & _ & _ & E & _).
  exact E.
Defined.

(** ** The registry: Add and Remove *)

Section RegistryProperties.
Import PhysicalSocketServer.

Lemma Add_dispatchers (d : Dispatcher) (ss : t) :
  dispatchers_ (Add d ss)
  = if in_dec Nat.eq_dec d (dispatchers_ ss) then dispatchers_ ss
    else dispatchers_ ss ++ [d].
Proof.
  unfold Add. pose proof (find_In d (dispatchers_ ss)) as F.
  pose proof (find_le d (dispatchers_ ss)) as L.
  destruct (in_dec Nat.eq_dec d (dispatchers_ ss)) as [Hin|Hn];
    destruct (Nat.eqb_spec (find d (dispatchers_ ss))
                (List.length (dispatchers_ ss))) as [E|E];
    cbn [negb dispatchers_]; try reflexivity.
  - apply F in Hin. lia.
  - exfalso. apply Hn, F. lia.
Qed.

(** X19 (PhysicalSocketServer::Add, Remove).  A registry without
    duplicates stays so under [Add] and [Remove].  [Add] of a registered
    dispatcher changes nothing, [Add] of another appends it; [Remove] of
    a registered dispatcher takes out that dispatcher alone and keeps the
    order of the rest, so that a second [Remove] of it fails the
    assertion, as does [Remove] of any dispatcher not registered; and
    [Remove] after [Add] of a new dispatcher gives back the list of
    dispatchers. *)
Theorem registry_Add_Remove (d : Dispatcher) (ss : t) :
  NoDup (dispatchers_ ss) ->
  NoDup (dispatchers_ (Add d ss))
  /\ (In d (dispatchers_ ss) -> Add d ss = ss)
  /\ (~ In d (dispatchers_ ss) ->
      dispatchers_ (Add d ss) = dispatchers_ ss ++ [d]
      /\ Remove d ss = None
      /\ exists ss', Remove d (Add d ss) = Some ss'
                     /\ dispatchers_ ss' = dispatchers_ ss)
  /\ (In d (dispatchers_ ss) ->
      exists ss', Remove d ss = Some ss'
        /\ NoDup (dispatchers_ ss')
        /\ dispatchers_ ss' = filter (fun x => negb (Nat.eqb x d))
                                (dispatchers_ ss)
        /\ Remove d ss' = None).
Proof.
  intros ND.
  split; [now apply Add_NoDup|].
  split; [|split].
  - intros Hin. unfold Add. apply find_In in Hin.
    destruct (Nat.eqb_spec (find d (dispatchers_ ss))
                (List.length (dispatchers_ ss))); [lia|reflexivity].
  - intros Hn.
    assert (E : dispatchers_ (Add d ss) = dispatchers_ ss ++ [d]).
    { rewrite Add_dispatchers.
      destruct (in_dec Nat.eq_dec d (dispatchers_ ss)); tauto. }
    split; [exact E|]. split; [now apply Remove_None|].
    pose proof (Add_NoDup d ss ND) as ND'.
    rewrite (Remove_at d (dispatchers_ ss) [] (Add d ss) E ND').
    eexists. split; [reflexivity|]. cbn [dispatchers_].
    apply app_nil_r.
  - intros Hin.
    destruct (in_split d (dispatchers_ ss) Hin) as (l1 & l2 & E).
    rewrite (Remove_at d l1 l2 ss E ND).
    eexists. split; [reflexivity|]. cbn [dispatchers_].
    assert (N1 : ~ In d (l1 ++ l2))
      by (rewrite E in ND; now apply NoDup_remove_2 in ND).
    assert (ND1 : NoDup (l1 ++ l2))
      by (rewrite E in ND; now apply NoDup_remove_1 in ND).
    split; [exact ND1|]. split.
    + rewrite E, filter_app. cbn [filter]. rewrite Nat.eqb_refl.
      cbn [negb].
      assert (F : forall l, ~ In d l ->
                  filter (fun x => negb (Nat.eqb x d)) l = l).
      { induction l as [|y l IH]; intros Hn; [reflexivity|].
        cbn [filter]. destruct (Nat.eqb_spec y d) as [->|Hy].
        - exfalso. apply Hn. now left.
        - cbn [negb]. rewrite IH; [reflexivity|].
          intros Hl. apply Hn. now right. }
      rewrite in_app_iff in N1.
      rewrite !F by tauto. reflexivity.
    + apply Remove_None. exact N1.
Qed.

Lemma registry_Add_Remove_witness :
  NoDup [1; 2; 3]%nat
  /\ exists ss',
       Remove 2%nat {| dispatchers_ := [1; 2; 3]%nat; iterators_ := [] |}
       = Some ss'
       /\ dispatchers_ ss' = [1; 3]%nat
       /\ Remove 2%nat ss' = None.
Proof.
  assert (ND : NoDup [1; 2; 3]%nat)
    by (repeat constructor; simpl; intuition discriminate).
  split; [exact ND|].
  destruct (registry_Add_Remove 2%nat
              {| dispatchers_ := [1; 2; 3]%nat; iterators_ := [] |} ND)
    as (_ & _ & _ & R).
  destruct (R (or_intror (or_introl eq_refl))) as (ss' & E & _ & F & N).
  exists ss'. split; [exact E|]. split; [exact F|exact N].
Defined.

End RegistryProperties.

(** ** The WIN32 [Wait]: network events *)

Section Win32NetworkEvents.
Import Win32Wait.
Context {H : Headers} {Hok : HeadersOk H} {W : Winsock} {Wok : WinsockOk W}.

Ltac fd_simpl :=
  repeat first
    [ rewrite has_event_lor
    | rewrite (has_event_self FD_READ) by apply FD_READ_range
    | rewrite (has_event_self FD_WRITE) by apply FD_WRITE_range
    | rewrite (has_event_self FD_ACCEPT) by apply FD_ACCEPT_range
    | rewrite (has_event_self FD_CONNECT) by apply FD_CONNECT_range
    | rewrite (has_event_self FD_CLOSE) by apply FD_CLOSE_range
    | rewrite (has_event_disjoint _ _ FD_READ_WRITE)
    | rewrite (has_event_disjoint _ _ FD_READ_ACCEPT)
    | rewrite (has_event_disjoint _ _ FD_READ_CONNECT)
    | rewrite (has_event_disjoint _ _ FD_READ_CLOSE)
    | rewrite (has_event_disjoint _ _ FD_WRITE_ACCEPT)
    | rewrite (has_event_disjoint _ _ FD_WRITE_CONNECT)
    | rewrite (has_event_disjoint _ _ FD_WRITE_CLOSE)
    | rewrite (has_event_disjoint _ _ FD_ACCEPT_CONNECT)
    | rewrite (has_event_disjoint _ _ FD_ACCEPT_CLOSE)
    | rewrite (has_event_disjoint _ _ FD_CONNECT_CLOSE)
    | rewrite (has_event_disjoint_sym _ _ FD_READ_WRITE)
    | rewrite (has_event_disjoint_sym _ _ FD_READ_ACCEPT)
    | rewrite (has_event_disjoint_sym _ _ FD_READ_CONNECT)
    | rewrite (has_event_disjoint_sym _ _ FD_READ_CLOSE)
    | rewrite (has_event_disjoint_sym _ _ FD_WRITE_ACCEPT)
    | rewrite (has_event_disjoint_sym _ _ FD_WRITE_CONNECT)
    | rewrite (has_event_disjoint_sym _ _ FD_WRITE_CLOSE)
    | rewrite (has_event_disjoint_sym _ _ FD_ACCEPT_CONNECT)
    | rewrite (has_event_disjoint_sym _ _ FD_ACCEPT_CLOSE)
    | rewrite (has_event_disjoint_sym _ _ FD_CONNECT_CLOSE) ].

Lemma FlagsToEvents_bits (events : Z) :
  has_event (FlagsToEvents events) FD_CLOSE = true
  /\ has_event (FlagsToEvents events) FD_READ = has_event events DE_READ
  /\ has_event (FlagsToEvents events) FD_WRITE = has_event events DE_WRITE
  /\ has_event (FlagsToEvents events) FD_CONNECT
     = has_event events DE_CONNECT
  /\ has_event (FlagsToEvents events) FD_ACCEPT
     = has_event events DE_ACCEPT.
Proof.
  unfold FlagsToEvents.
  destruct (has_event events DE_READ), (has_event events DE_WRITE),
    (has_event events DE_CONNECT), (has_event events DE_ACCEPT);
    cbv zeta; repeat split; fd_simpl; reflexivity.
Qed.

(** X20 (the second loop of the WIN32 Wait, FlagsToEvents).  Of the
    events reported for a socket, FD_READ, FD_WRITE and FD_ACCEPT are
    handed on as DE_READ, DE_WRITE and DE_ACCEPT; FD_CONNECT as DE_CONNECT
    when its error code is 0 and as DE_CLOSE otherwise; FD_CLOSE as
    DE_CLOSE.  The error code handed on is the one of FD_CLOSE when that
    is reported, also over the one of a failed connect, else the one of
    the failed connect, else 0.  The mask is zero exactly when none of
    the five events is reported.  The events armed by [FlagsToEvents]
    are FD_CLOSE and those the dispatcher asks for: so when only armed
    events are reported, whatever is handed on besides DE_CLOSE was asked
    for. *)
Theorem Wait_network_events_classification (wsaEvents : WSANETWORKEVENTS)
    (requested : Z) :
  let net := lNetworkEvents wsaEvents in
  let connect_failed :=
    has_event net FD_CONNECT
    && negb (iErrorCode wsaEvents FD_CONNECT_BIT =? 0) in
  let ff := fst (Wait_network_events wsaEvents) in
  let errcode := snd (Wait_network_events wsaEvents) in
  has_event ff DE_READ = has_event net FD_READ
  /\ has_event ff DE_WRITE = has_event net FD_WRITE
  /\ has_event ff DE_ACCEPT = has_event net FD_ACCEPT
  /\ has_event ff DE_CONNECT
     = has_event net FD_CONNECT
       && (iErrorCode wsaEvents FD_CONNECT_BIT =? 0)
  /\ has_event ff DE_CLOSE = connect_failed || has_event net FD_CLOSE
  /\ errcode
     = (if has_event net FD_CLOSE then iErrorCode wsaEvents FD_CLOSE_BIT
        else if connect_failed then iErrorCode wsaEvents FD_CONNECT_BIT
        else 0)
  /\ (ff =? 0)
     = negb (has_event net FD_READ || has_event net FD_WRITE
             || has_event net FD_CONNECT || has_event net FD_ACCEPT
             || has_event net FD_CLOSE)
  /\ has_event (FlagsToEvents requested) FD_CLOSE = true
  /\ ((forall fd, In fd [FD_READ; FD_WRITE; FD_CONNECT; FD_ACCEPT] ->
                  has_event net fd = true ->
                  has_event (FlagsToEvents requested) fd = true) ->
      forall de, In de [DE_READ; DE_WRITE; DE_CONNECT; DE_ACCEPT] ->
                 has_event ff de = true ->
                 has_event requested de = true).
Proof.
  cbv zeta.
  assert (B : let ff := fst (Wait_network_events wsaEvents) in
    has_event ff DE_READ = has_event (lNetworkEvents wsaEvents) FD_READ
    /\ has_event ff DE_WRITE = has_event (lNetworkEvents wsaEvents) FD_WRITE
    /\ has_event ff DE_ACCEPT
       = has_event (lNetworkEvents wsaEvents) FD_ACCEPT
    /\ has_event ff DE_CONNECT
       = has_event (lNetworkEvents wsaEvents) FD_CONNECT
         && (iErrorCode wsaEvents FD_CONNECT_BIT =? 0)
    /\ has_event ff DE_CLOSE
       = has_event (lNetworkEvents wsaEvents) FD_CONNECT
         && negb (iErrorCode wsaEvents FD_CONNECT_BIT =? 0)
         || has_event (lNetworkEvents wsaEvents) FD_CLOSE).
  { unfold Wait_network_events.
    destruct (has_event (lNetworkEvents wsaEvents) FD_READ),
      (has_event (lNetworkEvents wsaEvents) FD_WRITE),
      (has_event (lNetworkEvents wsaEvents) FD_CONNECT),
      (has_event (lNetworkEvents wsaEvents) FD_ACCEPT),
      (has_event (lNetworkEvents wsaEvents) FD_CLOSE),
      (iErrorCode wsaEvents FD_CONNECT_BIT =? 0);
      cbv zeta; cbn [fst snd negb andb orb];
      repeat match goal with |- _ /\ _ => split end;
      de_simpl; reflexivity. }
  cbv zeta in B. destruct B as (B1 & B2 & B3 & B4 & B5).
  destruct (FlagsToEvents_bits requested) as (F0 & F1 & F2 & F3 & F4).
  repeat match goal with |- _ /\ _ => split end;
    try assumption.
  - unfold Wait_network_events.
    destruct (has_event (lNetworkEvents wsaEvents) FD_READ),
      (has_event (lNetworkEvents wsaEvents) FD_WRITE),
      (has_event (lNetworkEvents wsaEvents) FD_CONNECT),
      (has_event (lNetworkEvents wsaEvents) FD_ACCEPT),
      (has_event (lNetworkEvents wsaEvents) FD_CLOSE),
      (iErrorCode wsaEvents FD_CONNECT_BIT =? 0);
      reflexivity.
  - pose proof DE_READ_range. pose proof DE_WRITE_range.
    pose proof DE_CONNECT_range. pose proof DE_ACCEPT_range.
    pose proof DE_CLOSE_range.
    assert (Z0 : forall a b, 0 <= a -> 0 < b -> (Z.lor a b =? 0) = false).
    { intros a b Ha Hb. apply Z.eqb_neq. intros E.
      apply Z.lor_eq_0_iff in E. lia. }
    assert (N0 : forall a b, 0 <= a -> 0 <= b -> 0 <= Z.lor a b)
      by (intros; now apply Z.lor_nonneg).
    unfold Wait_network_events.
    destruct (has_event (lNetworkEvents wsaEvents) FD_READ),
      (has_event (lNetworkEvents wsaEvents) FD_WRITE),
      (has_event (lNetworkEvents wsaEvents) FD_CONNECT),
      (has_event (lNetworkEvents wsaEvents) FD_ACCEPT),
      (has_event (lNetworkEvents wsaEvents) FD_CLOSE),
      (iErrorCode wsaEvents FD_CONNECT_BIT =? 0);
      cbv zeta; cbn [fst snd negb andb orb];
      try reflexivity;
      apply Z0; repeat apply N0; lia.
  - intros Harmed de Hde Hff.
    cbn [In] in Hde.
    destruct Hde as [<-|[<-|[<-|[<-|[]]]]].
    + rewrite <- F1. apply Harmed; [cbn [In]; tauto|]. now rewrite <- B1.
    + rewrite <- F2. apply Harmed; [cbn [In]; tauto|]. now rewrite <- B2.
    + rewrite <- F3. apply Harmed; [cbn [In]; tauto|].
      rewrite B4 in Hff. apply andb_true_iff in Hff. tauto.
    + rewrite <- F4. apply Harmed; [cbn [In]; tauto|]. now rewrite <- B3.
Qed.

End Win32NetworkEvents.

Lemma winsock2_ok : Win32Wait.WinsockOk Win32Wait.winsock2.
Proof. constructor; simpl; (reflexivity || lia). Defined.

Lemma Wait_network_events_classification_witness :
  @Win32Wait.Wait_network_events linux_headers Win32Wait.winsock2
    {| Win32Wait.lNetworkEvents := 48;
       Win32Wait.iErrorCode := fun bit => if bit =? 4 then 10061 else 0 |}
  = (8, 0).
Proof.
  pose proof (@Wait_network_events_classification linux_headers
                linux_headers_ok Win32Wait.winsock2 winsock2_ok
                {| Win32Wait.lNetworkEvents := 48;
                   Win32Wait.iErrorCode :=
                     fun bit => if bit =? 4 then 10061 else 0 |} 0) as P.
  cbv zeta in P. destruct P as (_ & _ & _ & _ & _ & E & _).
  apply injective_projections; [reflexivity|exact E].
Defined.

(** ** Socket options *)

Section SocketOptionsProperties.
Import SocketOptions.
Context {S : SockOpts}.

(** X21 (GetOption, SetOption, TranslateOption; the LINUX branches).  On
    a kernel that keeps what is set, an option read back after it was set
    is the value set for the receive buffer, the send buffer and the
    no-delay option, and for the don't-fragment option 1 when the value
    set was not zero and 0 when it was zero: the value is translated to
    the path-MTU discovery modes on the way in and back on the way out.
    For any other option both calls return -1, the kernel is not called
    and the caller's value is left alone. *)
Theorem SetOption_then_GetOption (opt : Option) (value value0 : Z)
    (k : StoringKernel) :
  IP_PMTUDISC_DO <> IP_PMTUDISC_DONT ->
  let set := SetOption storing_setsockopt opt value k in
  let get := GetOption storing_getsockopt opt value0 (snd set) in
  match opt with
  | OPT_other => set = (-1, k) /\ get = (-1, value0)
  | OPT_DONTFRAGMENT =>
    fst set = 0
    /\ snd set IPPROTO_IP IP_MTU_DISCOVER
       = (if value =? 0 then IP_PMTUDISC_DONT else IP_PMTUDISC_DO)
    /\ get = (0, if value =? 0 then 0 else 1)
  | _ => fst set = 0 /\ get = (0, value)
  end.
Proof.
  intros Hne. cbv zeta.
  destruct opt; unfold SetOption, GetOption, TranslateOption,
    storing_setsockopt, storing_getsockopt;
    cbn [Z.eqb Option_eqb negb andb fst snd];
    rewrite ?Z.eqb_refl; cbn [andb negb]; try (split; reflexivity).
  destruct (Z.eqb_spec value 0); cbn [negb].
  - rewrite Z.eqb_refl. repeat split.
  - destruct (Z.eqb_spec IP_PMTUDISC_DO IP_PMTUDISC_DONT);
      [contradiction|]. repeat split.
Qed.

End SocketOptionsProperties.

Lemma SetOption_then_GetOption_witness :
  @SocketOptions.GetOption SocketOptions.linux_sockopts StoringKernel
    storing_getsockopt SocketOptions.OPT_DONTFRAGMENT 7
    (snd (@SocketOptions.SetOption SocketOptions.linux_sockopts
            StoringKernel storing_setsockopt
            SocketOptions.OPT_DONTFRAGMENT 5 (fun _ _ => 0)))
  = (0, 1).
Proof.
  pose proof (@SetOption_then_GetOption SocketOptions.linux_sockopts
                SocketOptions.OPT_DONTFRAGMENT 5 7 (fun _ _ => 0)
                ltac:(discriminate)) as P.
  cbv zeta in P. destruct P as (_ & _ & E). exact E.
Defined.
